(** * libeval: the expression compiler and its virtual machine

    A shallow embedding of [libeval_compiler.cpp] (namespace [LIBEVAL]): the
    tokenizer helpers, the compiler front end ([COMPILER::Compile]), the code
    generator ([COMPILER::generateUCode]) and the virtual machine
    ([UOP::Exec], [UCODE::Run]).

    Conventions of the embedding.
    - C++ [double] is IEEE binary64: Rocq's primitive [float].
    - C++ [int] is [Z]; the code's offsets are small, so no wrap-around occurs
      except where it is written out ([preflight_loc]).
    - [wxString] is [string]; a [wxUniChar] is an [ascii].
    - A nullable pointer to an object that the code never mutates after
      publishing it is an [option] of the object.
    - The syntax tree is a tree by construction (every node has one parent),
      so a [TREE_NODE*] is the position of the node in the tree: a path from
      the root.  The tree itself is the store; flags set through one pointer
      are seen through every other.
    - Undefined behaviour, failed assertions and escaping host exceptions are
      faults of the [result] type; loops carry fuel. *)

From Stdlib Require Import ZArith List String Ascii Bool Lia Floats.
Import ListNotations.
Local Open Scope Z_scope.

Set Implicit Arguments.

(** ** Results of fallible code *)

Inductive fault : Type :=
| NullDeref          (* a null pointer was dereferenced *)
| AssertFailure      (* an [assert] did not hold *)
| StackUnderflow     (* [CONTEXT::Pop] on an empty operand stack *)
| BadFunctionCall    (* an empty [std::function] was called *)
| HostException      (* a host function threw and nothing caught it *)
| OutOfFuel.         (* the loop did not finish within the fuel given *)

Inductive result (A : Type) : Type :=
| Ok (a : A)
| Fault (f : fault).

Arguments Ok {A} a.
Arguments Fault {A} f.

Definition bind {A B : Type} (m : result A) (k : A -> result B) : result B :=
  match m with
  | Ok a => k a
  | Fault f => Fault f
  end.

Notation "x <- m ;; k" := (bind m (fun x => k))
  (at level 61, m at next level, right associativity).
Notation "' p <- m ;; k" := (bind m (fun x => let p := x in k))
  (at level 61, p pattern, m at next level, right associativity).

Definition assert (b : bool) : result unit :=
  if b then Ok tt else Fault AssertFailure.

Definition deref {A : Type} (p : option A) : result A :=
  match p with
  | Some a => Ok a
  | None => Fault NullDeref
  end.

(** ** Constants of the header

    [libeval_compiler.h] and the generated [grammar.h] are not among the
    sources: the operator codes, the tree node kinds and the token ids they
    define are parameters of the development.  What a theorem needs of them
    is a hypothesis of that theorem. *)

Class OPCODES : Type := {
  TR_OP_BINARY_MASK : Z;
  TR_OP_UNARY_MASK : Z;
  TR_OP_MUL : Z;
  TR_OP_DIV : Z;
  TR_OP_ADD : Z;
  TR_OP_SUB : Z;
  TR_OP_LESS : Z;
  TR_OP_GREATER : Z;
  TR_OP_LESS_EQUAL : Z;
  TR_OP_GREATER_EQUAL : Z;
  TR_OP_EQUAL : Z;
  TR_OP_NOT_EQUAL : Z;
  TR_OP_BOOL_AND : Z;
  TR_OP_BOOL_OR : Z;
  TR_OP_BOOL_NOT : Z;
  TR_OP_FUNC_CALL : Z;
  TR_OP_METHOD_CALL : Z;
  TR_UOP_PUSH_VAR : Z;
  TR_UOP_PUSH_VALUE : Z;
  TR_NUMBER : Z;
  TR_IDENTIFIER : Z;
  TR_STRUCT_REF : Z;
  TR_STRING : Z;
  TR_UNIT : Z
}.

Class TOKENS : Type := {
  TR_UNDEFINED : Z;
  G_ENDS : Z;
  G_VALUE : Z;
  G_UNIT : Z;
  G_STRING : Z;
  G_IDENTIFIER : Z;
  G_EQUAL : Z;
  G_NOT_EQUAL : Z;
  G_LESS_EQUAL_THAN : Z;
  G_GREATER_EQUAL_THAN : Z;
  G_BOOL_AND : Z;
  G_BOOL_OR : Z;
  G_PLUS : Z;
  G_BOOL_NOT : Z;
  G_MINUS : Z;
  G_MULT : Z;
  G_DIVIDE : Z;
  G_LESS_THAN : Z;
  G_GREATER_THAN : Z;
  G_PARENL : Z;
  G_PARENR : Z;
  G_SEMCOL : Z;
  G_STRUCT_REF : Z
}.

(** [m_op & MASK] used as a condition. *)
Definition has_mask (op mask : Z) : bool := negb (Z.land op mask =? 0).

(** ** Values *)

Inductive VAR_TYPE_T : Type :=
| VT_STRING
| VT_NUMERIC
| VT_UNDEFINED
| VT_PARSE_ERROR.

Definition VAR_TYPE_T_eqb (a b : VAR_TYPE_T) : bool :=
  match a, b with
  | VT_STRING, VT_STRING
  | VT_NUMERIC, VT_NUMERIC
  | VT_UNDEFINED, VT_UNDEFINED
  | VT_PARSE_ERROR, VT_PARSE_ERROR => true
  | _, _ => false
  end.

(** Modelled from the spec: class [VALUE] is declared in the header, which is
    not among the sources.  "A tagged union of numeric (double) and text;
    supports coercion to numeric (non-numeric text coerces to 0.0) and a
    value-level equality (numeric compares by value, text compares by
    content)." *)
Inductive VALUE : Type :=
| VNumeric (d : float)
| VText (s : string).

(** Modelled from the spec: [VALUE::AsDouble], the coercion to numeric. *)
Definition AsDouble (v : VALUE) : float :=
  match v with
  | VNumeric d => d
  | VText _ => 0%float
  end.

(** Modelled from the spec: [VALUE::EqualTo], the value-level equality.  The
    spec fixes the two same-kind cases; a numeric and a text are taken to
    differ. *)
Definition EqualTo (a b : VALUE) : bool :=
  match a, b with
  | VNumeric x, VNumeric y => PrimFloat.eqb x y
  | VText s, VText t => String.eqb s t
  | _, _ => false
  end.

(** ** Error status *)

Inductive COMPILATION_STAGE : Type :=
| CST_PARSE
| CST_CODEGEN
| CST_RUNTIME.

Record ERROR_STATUS : Type := mkERROR_STATUS {
  pendingError : bool;
  stage : COMPILATION_STAGE;
  message : string;
  srcPos : Z
}.

(** What a fresh status holds: [COMPILER::COMPILER] sets only the flag. *)
Definition noError : ERROR_STATUS :=
  mkERROR_STATUS false CST_PARSE EmptyString 0.

(** ** Runtime context *)

(** Modelled from the spec: class [CONTEXT] is declared in the header.  "Holds
    an operand stack of Values, an error/status slot."  The head of [m_stack]
    is the top of the stack.  A stack entry is a [VALUE*], which [UOP::Exec]
    tests for null.  The error callback is the host's and is not modelled. *)
Record CONTEXT : Type := mkCONTEXT {
  m_stack : list (option VALUE);
  ctx_errorStatus : ERROR_STATUS
}.

Definition newCONTEXT : CONTEXT := mkCONTEXT [] noError.

(** Modelled from the spec: [CONTEXT::Push]. *)
Definition Push (v : option VALUE) (ctx : CONTEXT) : CONTEXT :=
  mkCONTEXT (v :: m_stack ctx) (ctx_errorStatus ctx).

(** Modelled from the spec: [CONTEXT::Pop].  Popping an empty stack is a
    fault. *)
Definition Pop (ctx : CONTEXT) : result (option VALUE * CONTEXT) :=
  match m_stack ctx with
  | [] => Fault StackUnderflow
  | v :: rest => Ok (v, mkCONTEXT rest (ctx_errorStatus ctx))
  end.

(** Modelled from the spec: [CONTEXT::SP], the number of stacked entries. *)
Definition SP (ctx : CONTEXT) : Z := Z.of_nat (List.length (m_stack ctx)).

(** Modelled from the spec: [CONTEXT::IsErrorPending] and [CONTEXT::GetError]. *)
Definition IsErrorPending (ctx : CONTEXT) : bool :=
  pendingError (ctx_errorStatus ctx).

Definition GetError (ctx : CONTEXT) : ERROR_STATUS := ctx_errorStatus ctx.

(** [CONTEXT::ReportError]. *)
Definition ReportError (aErrorMsg : string) (ctx : CONTEXT) : CONTEXT :=
  mkCONTEXT (m_stack ctx) (mkERROR_STATUS true CST_RUNTIME aErrorMsg (-1)).

(** ** Host capabilities *)

(** What [VAR_REF::GetValue] leaves: it is handed the context, which it may
    change (to report a runtime error, say), and answers a value, or it
    throws. *)
Inductive FETCH_RESULT : Type :=
| Fetched (v : VALUE) (ctx : CONTEXT)
| FetchThrew (ctx : CONTEXT).

(** [VAR_REF]: the host's variable reference. *)
Record VAR_REF : Type := mkVAR_REF {
  GetType : VAR_TYPE_T;
  GetValue : CONTEXT -> FETCH_RESULT
}.

(** What a call of a host function leaves: it returned, or it threw. *)
Inductive HOST_RESULT : Type :=
| Returned (ctx : CONTEXT)
| Threw (ctx : CONTEXT).

(** [FUNC_CALL_REF]: [std::function<void( CONTEXT*, void* )>]. *)
Definition FUNC_CALL_REF : Type := CONTEXT -> option VAR_REF -> HOST_RESULT.

(** ** Instructions *)

(** [UOP]: the three constructors fill [m_value], [m_ref], or [m_func] and
    [m_ref]; the members not given stay null. *)
Record UOP : Type := mkUOP {
  m_op : Z;
  m_value : option VALUE;
  m_ref : option VAR_REF;
  m_func : option FUNC_CALL_REF
}.

Definition UOP_value (aOp : Z) (aValue : VALUE) : UOP :=
  mkUOP aOp (Some aValue) None None.

Definition UOP_ref (aOp : Z) (aRef : option VAR_REF) : UOP :=
  mkUOP aOp None aRef None.

Definition UOP_func (aOp : Z) (aFunc : option FUNC_CALL_REF)
    (aRef : option VAR_REF) : UOP :=
  mkUOP aOp None aRef aFunc.

Definition bool_to_double (b : bool) : float :=
  if b then 1%float else 0%float.

Definition nonzero (x : float) : bool := negb (PrimFloat.eqb x 0).

Section VM.

Context {oc : OPCODES}.

(** The inner [switch] of [UOP::Exec]: [arg1] was popped second and is the
    left operand. *)
Definition binary_result (op : Z) (arg1 arg2 : option VALUE) : float :=
  let arg2Value := match arg2 with Some v => AsDouble v | None => 0%float end in
  let arg1Value := match arg1 with Some v => AsDouble v | None => 0%float end in
  let equal :=
    match arg1, arg2 with
    | Some v1, Some v2 => EqualTo v1 v2
    | _, _ => false
    end in
  if op =? TR_OP_ADD then PrimFloat.add arg1Value arg2Value
  else if op =? TR_OP_SUB then PrimFloat.sub arg1Value arg2Value
  else if op =? TR_OP_MUL then PrimFloat.mul arg1Value arg2Value
  else if op =? TR_OP_DIV then PrimFloat.div arg1Value arg2Value
  else if op =? TR_OP_LESS_EQUAL then
    bool_to_double (PrimFloat.leb arg1Value arg2Value)
  else if op =? TR_OP_GREATER_EQUAL then
    bool_to_double (PrimFloat.leb arg2Value arg1Value)
  else if op =? TR_OP_LESS then
    bool_to_double (PrimFloat.ltb arg1Value arg2Value)
  else if op =? TR_OP_GREATER then
    bool_to_double (PrimFloat.ltb arg2Value arg1Value)
  else if op =? TR_OP_EQUAL then bool_to_double equal
  else if op =? TR_OP_NOT_EQUAL then bool_to_double (negb equal)
  else if op =? TR_OP_BOOL_AND then
    bool_to_double (nonzero arg1Value && nonzero arg2Value)
  else if op =? TR_OP_BOOL_OR then
    bool_to_double (nonzero arg1Value || nonzero arg2Value)
  else 0%float.

(** [UOP::Exec] after its first [switch]: the operators. *)
Definition Exec_operator (u : UOP) (ctx : CONTEXT) : result CONTEXT :=
  if has_mask (m_op u) TR_OP_BINARY_MASK then
    '(arg2, ctx) <- Pop ctx ;;
    '(arg1, ctx) <- Pop ctx ;;
    let result := binary_result (m_op u) arg1 arg2 in
    Ok (Push (Some (VNumeric result)) ctx)
  else if has_mask (m_op u) TR_OP_UNARY_MASK then
    (* fixme : not operator *)
    Ok ctx
  else Ok ctx.

(** [UOP::Exec].  The [TR_UOP_PUSH_VAR] case ends in [break], not [return]:
    control goes on to the operator tests. *)
Definition Exec (u : UOP) (ctx : CONTEXT) : result CONTEXT :=
  if m_op u =? TR_UOP_PUSH_VAR then
    r <- deref (m_ref u) ;;
    match GetValue r ctx with
    | Fetched value ctx => Exec_operator u (Push (Some value) ctx)
    | FetchThrew _ => Fault HostException
    end
  else if m_op u =? TR_UOP_PUSH_VALUE then
    Ok (Push (m_value u) ctx)
  else if m_op u =? TR_OP_METHOD_CALL then
    match m_func u with
    | None => Fault BadFunctionCall
    | Some f =>
        match f ctx (m_ref u) with
        | Returned ctx' => Ok ctx'
        | Threw _ => Fault HostException
        end
    end
  else Exec_operator u ctx.

(** The [for] loop of [UCODE::Run]. *)
Fixpoint Run_ops (m_ucode : list UOP) (ctx : CONTEXT) : result CONTEXT :=
  match m_ucode with
  | [] => Ok ctx
  | op :: rest => ctx <- Exec op ctx ;; Run_ops rest ctx
  end.

(** [UCODE::Run]. *)
Definition Run (m_ucode : list UOP) (ctx : CONTEXT)
    : result (option VALUE * CONTEXT) :=
  ctx <- Run_ops m_ucode ctx ;;
  _ <- assert (SP ctx =? 1) ;;
  Pop ctx.

End VM.

(** ** Tokens and syntax tree *)

Record T_TOKEN_VALUE : Type := mkT_TOKEN_VALUE {
  str : option string;
  num : float;
  idx : Z
}.

Definition defaultTokenValue : T_TOKEN_VALUE := mkT_TOKEN_VALUE None 0 0.

Record T_TOKEN : Type := mkT_TOKEN {
  token : Z;
  value : T_TOKEN_VALUE
}.

(** [TREE_NODE] without its two [leaf] pointers, which [TREE] holds. *)
Record TREE_NODE : Type := mkTREE_NODE {
  node_value : T_TOKEN_VALUE;
  op : Z;
  uop : option UOP;
  valid : bool;
  isTerminal : bool;
  isVisited : bool;
  node_srcPos : Z
}.

(** The tree in memory: [Nil] is the null pointer, [Node n l r] a node with
    [leaf[0] = l] and [leaf[1] = r]. *)
Inductive TREE : Type :=
| Nil
| Node (n : TREE_NODE) (leaf0 leaf1 : TREE).

Definition set_uop (u : option UOP) (n : TREE_NODE) : TREE_NODE :=
  mkTREE_NODE (node_value n) (op n) u (valid n) (isTerminal n) (isVisited n)
    (node_srcPos n).

Definition set_isTerminal (b : bool) (n : TREE_NODE) : TREE_NODE :=
  mkTREE_NODE (node_value n) (op n) (uop n) (valid n) b (isVisited n)
    (node_srcPos n).

Definition set_isVisited (b : bool) (n : TREE_NODE) : TREE_NODE :=
  mkTREE_NODE (node_value n) (op n) (uop n) (valid n) (isTerminal n) b
    (node_srcPos n).

(** A [TREE_NODE*] into the tree: the turns taken from the root, [false] for
    [leaf[0]] and [true] for [leaf[1]]. *)
Definition NODE_PTR : Type := list bool.

Definition leaf_ptr (node : NODE_PTR) (i : bool) : NODE_PTR := node ++ [i].

(** The subtree a pointer designates. *)
Fixpoint node_at (t : TREE) (p : NODE_PTR) {struct p} : TREE :=
  match p with
  | [] => t
  | i :: q =>
      match t with
      | Nil => Nil
      | Node _ l r => node_at (if i then r else l) q
      end
  end.

(** The tree after the subtree a pointer designates has been overwritten. *)
Fixpoint replace_at (t : TREE) (p : NODE_PTR) (s : TREE) {struct p} : TREE :=
  match p with
  | [] => s
  | i :: q =>
      match t with
      | Nil => Nil
      | Node n l r =>
          if i then Node n l (replace_at r q s) else Node n (replace_at l q s) r
      end
  end.

Definition is_null (t : TREE) : bool :=
  match t with
  | Nil => true
  | Node _ _ _ => false
  end.

(** [leaf->isVisited] of a non-null leaf. *)
Definition leaf_visited (t : TREE) : bool :=
  match t with
  | Nil => false
  | Node n _ _ => isVisited n
  end.

(** [leaf->isVisited = true] *)
Definition mark_visited (t : TREE) : result TREE :=
  match t with
  | Nil => Fault NullDeref
  | Node n l r => Ok (Node (set_isVisited true n) l r)
  end.

(** ** Compiler state *)

Record TOKENIZER : Type := mkTOKENIZER {
  m_str : string;
  m_pos : nat
}.

Inductive LEXER_STATE : Type :=
| LS_DEFAULT
| LS_STRING.

(** ** Host interface

    The resolver calls are virtual methods of [UCODE] that the host overrides,
    and the unit resolver is the host's as well; [wxAtof] is the library's
    conversion of text to [double].  They are parameters of the development. *)
Class HOST : Type := {
  CreateVarRef : string -> string -> option VAR_REF;
  CreateFuncCall : string -> option FUNC_CALL_REF;
  GetSupportedUnits : list string;
  Convert : string -> Z -> float;
  wxAtof : string -> float
}.

Section Compiler.

Context {oc : OPCODES} {tk : TOKENS} {host : HOST}.

(** The state of the generated (lemon) parser behind [m_parser]. *)
Variable PARSER : Type.

(** [COMPILER]: the members the modelled code reads or writes.  The lists of
    allocations to free ([m_gcItems], [m_gcStrings]) and the host's error
    callback are left out. *)
Record COMPILER : Type := mkCOMPILER {
  m_parser : PARSER;
  m_tokenizer : TOKENIZER;
  m_localeDecimalSeparator : ascii;
  m_lexerState : LEXER_STATE;
  m_sourcePos : Z;
  m_parseFinished : bool;
  m_tree : TREE;
  m_errorStatus : ERROR_STATUS
}.

Definition set_parser (p : PARSER) (c : COMPILER) : COMPILER :=
  mkCOMPILER p (m_tokenizer c) (m_localeDecimalSeparator c) (m_lexerState c)
    (m_sourcePos c) (m_parseFinished c) (m_tree c) (m_errorStatus c).

Definition set_tokenizer (t : TOKENIZER) (c : COMPILER) : COMPILER :=
  mkCOMPILER (m_parser c) t (m_localeDecimalSeparator c) (m_lexerState c)
    (m_sourcePos c) (m_parseFinished c) (m_tree c) (m_errorStatus c).

Definition set_lexerState (s : LEXER_STATE) (c : COMPILER) : COMPILER :=
  mkCOMPILER (m_parser c) (m_tokenizer c) (m_localeDecimalSeparator c) s
    (m_sourcePos c) (m_parseFinished c) (m_tree c) (m_errorStatus c).

Definition set_sourcePos (p : Z) (c : COMPILER) : COMPILER :=
  mkCOMPILER (m_parser c) (m_tokenizer c) (m_localeDecimalSeparator c)
    (m_lexerState c) p (m_parseFinished c) (m_tree c) (m_errorStatus c).

Definition set_parseFinished (b : bool) (c : COMPILER) : COMPILER :=
  mkCOMPILER (m_parser c) (m_tokenizer c) (m_localeDecimalSeparator c)
    (m_lexerState c) (m_sourcePos c) b (m_tree c) (m_errorStatus c).

Definition set_tree (t : TREE) (c : COMPILER) : COMPILER :=
  mkCOMPILER (m_parser c) (m_tokenizer c) (m_localeDecimalSeparator c)
    (m_lexerState c) (m_sourcePos c) (m_parseFinished c) t (m_errorStatus c).

Definition set_errorStatus (e : ERROR_STATUS) (c : COMPILER) : COMPILER :=
  mkCOMPILER (m_parser c) (m_tokenizer c) (m_localeDecimalSeparator c)
    (m_lexerState c) (m_sourcePos c) (m_parseFinished c) (m_tree c) e.

(** [COMPILER::reportError] *)
Definition reportError (stage : COMPILATION_STAGE) (aErrorMsg : string)
    (aPos : Z) (c : COMPILER) : COMPILER :=
  let aPos := if aPos =? -1 then m_sourcePos c else aPos in
  set_errorStatus (mkERROR_STATUS true stage aErrorMsg aPos) c.

(** [COMPILER::parseError]: [reportError] with its default position, -1. *)
Definition parseError (s : string) (c : COMPILER) : COMPILER :=
  reportError CST_PARSE s (-1) c.

(** [COMPILER::parseOk] *)
Definition parseOk (c : COMPILER) : COMPILER := set_parseFinished true c.

(** [COMPILER::setRoot] *)
Definition setRoot (root : TREE) (c : COMPILER) : COMPILER := set_tree root c.

(** [newNode]: a node without leaves, positioned at the compiler's current
    source position.  The code leaves [isVisited] uninitialised;
    [prepareTree] sets it before it is read. *)
Definition newNode (c : COMPILER) (op : Z) (value : T_TOKEN_VALUE) : TREE :=
  Node (mkTREE_NODE (mkT_TOKEN_VALUE (str value) (num value) (idx value)) op
          None true false false (m_sourcePos c)) Nil Nil.

(** ** Code generator *)

(** [prepareTree].  A function call node clears the leaf pointers of its name
    node before descending into it: [cleared] says that the node at hand is
    such a name node, whose leaves are null by the time they are read. *)
Fixpoint prepareTree_from (cleared : bool) (node : TREE) : TREE :=
  match node with
  | Nil => Nil
  | Node n l r =>
      let n := set_isVisited false n in
      if cleared then Node n Nil Nil
      else
        Node n (prepareTree_from (op n =? TR_OP_FUNC_CALL) l)
               (prepareTree_from false r)
  end.

Definition prepareTree (node : TREE) : TREE := prepareTree_from false node.

(** The state of [generateUCode]'s loop: the compiler (with the tree), the
    work stack (its head is [stack.back()]), the instructions of [aCode] and
    the preflight context. *)
Record GEN : Type := mkGEN {
  g_compiler : COMPILER;
  g_stack : list NODE_PTR;
  g_code : list UOP;
  g_preflight : CONTEXT
}.

Definition gen_report (stage : COMPILATION_STAGE) (msg : string) (aPos : Z)
    (s : GEN) : GEN :=
  mkGEN (reportError stage msg aPos (g_compiler s)) (g_stack s) (g_code s)
    (g_preflight s).

Definition gen_set_stack (st : list NODE_PTR) (s : GEN) : GEN :=
  mkGEN (g_compiler s) st (g_code s) (g_preflight s).

Definition gen_set_preflight (pf : CONTEXT) (s : GEN) : GEN :=
  mkGEN (g_compiler s) (g_stack s) (g_code s) pf.

(** [aCode->AddOp( uop )] *)
Definition AddOp (u : UOP) (s : GEN) : GEN :=
  mkGEN (g_compiler s) (g_stack s) (g_code s ++ [u]) (g_preflight s).

Definition strlen (s : string) : Z := Z.of_nat (String.length s).

Definition quoted (fmt name : string) : string :=
  String.append fmt (String.append name "'"%string).

(** [(int) loc - 1] for [size_t loc = srcPos - paramStr.Length()]: the
    difference is taken in 64 bits without sign and cut to a 32-bit [int]. *)
Definition to_int (z : Z) : Z := (z + 2 ^ 31) mod 2 ^ 32 - 2 ^ 31.

Definition preflight_loc (srcPos : Z) (len : Z) : Z :=
  to_int ((srcPos - len) mod 2 ^ 64) - 1.

(** The preflight of a function call: push the parameter text, call, pop the
    return value; any exception is swallowed. *)
Definition preflight_call (func : FUNC_CALL_REF) (vref : option VAR_REF)
    (paramStr : string) (pf : CONTEXT) : result CONTEXT :=
  let pf := Push (Some (VText paramStr)) pf in
  match func pf vref with
  | Returned pf => '(_, pf) <- Pop pf ;; Ok pf
  | Threw pf => Ok pf
  end.

(** The block [if( func ) { ... }] of the function call case: preflight the
    call and report what the preflight context holds.  [n] is the
    [TR_STRUCT_REF] node and [param] is [node->leaf[1]->leaf[1]]. *)
Definition gen_preflight (func : FUNC_CALL_REF) (vref : option VAR_REF)
    (n : TREE_NODE) (param : TREE) (s : GEN) : result GEN :=
  let paramStr :=
    match str (node_value n) with
    | Some p => p
    | None => EmptyString
    end in
  pf <- preflight_call func vref paramStr (g_preflight s) ;;
  let s := gen_set_preflight pf s in
  if negb (IsErrorPending pf) then
    match param with
    | Nil => Fault NullDeref
    | Node np _ _ =>
        Ok (gen_report CST_CODEGEN (message (GetError pf))
              (preflight_loc (node_srcPos np) (strlen paramStr)) s)
    end
  else Ok s.

(** [case TR_IDENTIFIER] of [switch( node->leaf[1]->op )]: [object.field]. *)
Definition gen_property (n nl : TREE_NODE) (ll lr : TREE) (nr : TREE_NODE)
    (rl rr : TREE) (s : GEN) : result (TREE * GEN) :=
  itemName <- deref (str (node_value nl)) ;;
  propName <- deref (str (node_value nr)) ;;
  let vref := CreateVarRef itemName propName in
  let s :=
    match vref with
    | None =>
        gen_report CST_CODEGEN (quoted "Unrecognized item '" itemName)
          (node_srcPos nl - strlen itemName) s
    | Some v =>
        if VAR_TYPE_T_eqb (GetType v) VT_PARSE_ERROR then
          gen_report CST_CODEGEN (quoted "Unrecognized property '" propName)
            (node_srcPos nr - strlen propName) s
        else s
    end in
  let l := Node (set_isVisited true nl) ll lr in
  let r := Node (set_isVisited true nr) rl rr in
  let n := set_uop (Some (UOP_ref TR_UOP_PUSH_VAR vref)) n in
  let n := set_isTerminal true n in
  Ok (Node n l r, s).

(** [case TR_OP_FUNC_CALL] of [switch( node->leaf[1]->op )]:
    [object.function( parameter )]. *)
Definition gen_method (node : NODE_PTR) (n nl : TREE_NODE) (ll lr : TREE)
    (nr : TREE_NODE) (rl rr : TREE) (s : GEN) : result (TREE * GEN) :=
  itemName <- deref (str (node_value nl)) ;;
  let vref := CreateVarRef itemName EmptyString in
  let s :=
    match vref with
    | None =>
        gen_report CST_CODEGEN (quoted "Unrecognized item '" itemName)
          (node_srcPos nl - strlen itemName) s
    | Some _ => s
    end in
  match rl with
  | Nil => Fault NullDeref
  | Node nrl rll rlr =>
      functionName <- deref (str (node_value nrl)) ;;
      let func := CreateFuncCall functionName in
      s <-
        match func with
        | None =>
            Ok (gen_report CST_CODEGEN
                  (quoted "Unrecognized function '" functionName)
                  (node_srcPos nl + 1) s)
        | Some f => gen_preflight f vref n rr s
        end ;;
      let l := Node (set_isVisited true nl) ll lr in
      let nr := set_isVisited true nr in
      let rl := Node (set_isVisited true nrl) rll rlr in
      rr <- mark_visited rr ;;
      (* replace the TR_STRUCT_REF on the work stack with the
         TR_OP_FUNC_CALL and its function parameter *)
      let st := tl (g_stack s) in
      let st := leaf_ptr node true :: st in
      let st := leaf_ptr (leaf_ptr node true) true :: st in
      let s := gen_set_stack st s in
      let nr := set_uop (Some (UOP_func TR_OP_METHOD_CALL func vref)) nr in
      let n := set_isTerminal false n in
      Ok (Node n l (Node nr rl rr), s)
  end.

(** The [TR_STRUCT_REF] case of the [switch], on the subtree [Node n l r] the
    pointer [node] designates. *)
Definition gen_struct_ref (node : NODE_PTR) (n : TREE_NODE) (l r : TREE)
    (s : GEN) : result (TREE * GEN) :=
  match l with
  | Nil => Fault NullDeref
  | Node nl ll lr =>
      _ <- assert (op nl =? TR_IDENTIFIER) ;;
      match r with
      | Nil => Fault NullDeref
      | Node nr rl rr =>
          if op nr =? TR_IDENTIFIER then gen_property n nl ll lr nr rl rr s
          else if op nr =? TR_OP_FUNC_CALL then
            gen_method node n nl ll lr nr rl rr s
          else Ok (Node n l r, s)
      end
  end.

(** The [switch( node->op )] of the loop body, on the subtree the pointer
    [node] designates. *)
Definition gen_visit (node : NODE_PTR) (t : TREE) (s : GEN)
    : result (TREE * GEN) :=
  match t with
  | Nil => Fault NullDeref
  | Node n l r =>
      if op n =? TR_OP_FUNC_CALL then
        (* Function call's uop was generated inside TR_STRUCT_REF *)
        _ <- assert (match uop n with Some _ => true | None => false end) ;;
        Ok (Node (set_isTerminal true n) l r, s)
      else if op n =? TR_STRUCT_REF then
        gen_struct_ref node n l r s
      else if op n =? TR_NUMBER then
        let son := l in
        let '(value, son) :=
          match str (node_value n) with
          | None => (0%float, son)
          | Some text =>
              match son with
              | Node ns sl sr =>
                  if op ns =? TR_UNIT then
                    (Convert text (idx (node_value ns)),
                     Node (set_isVisited true ns) sl sr)
                  else (wxAtof text, son)
              | Nil => (wxAtof text, son)
              end
          end in
        let n :=
          set_uop (Some (UOP_value TR_UOP_PUSH_VALUE (VNumeric value))) n in
        Ok (Node (set_isTerminal true n) son r, s)
      else if op n =? TR_STRING then
        text <- deref (str (node_value n)) ;;
        let n := set_uop (Some (UOP_value TR_UOP_PUSH_VALUE (VText text))) n in
        Ok (Node (set_isTerminal true n) l r, s)
      else if op n =? TR_IDENTIFIER then
        name <- deref (str (node_value n)) ;;
        let vref := CreateVarRef name EmptyString in
        let s :=
          match vref with
          | None =>
              gen_report CST_CODEGEN (quoted "Unrecognized item '" name)
                (node_srcPos n - strlen name) s
          | Some _ => s
          end in
        let n := set_uop (Some (UOP_ref TR_UOP_PUSH_VALUE vref)) n in
        Ok (Node (set_isTerminal true n) l r, s)
      else
        let n := set_uop (Some (UOP_ref (op n) None)) n in
        let terminal :=
          (is_null l || leaf_visited l) && (is_null r || leaf_visited r) in
        Ok (Node (set_isTerminal terminal n) l r, s)
  end.

(** The loop body after the [switch]: descend into the first leaf not yet
    visited, or emit the node's instruction and pop the work stack. *)
Definition gen_finish (node : NODE_PTR) (t : TREE) (s : GEN)
    : result (TREE * GEN) :=
  match t with
  | Nil => Fault NullDeref
  | Node n l r =>
      if negb (isTerminal n) then
        if negb (is_null l) && negb (leaf_visited l) then
          let s := gen_set_stack (leaf_ptr node false :: g_stack s) s in
          l <- mark_visited l ;;
          Ok (Node n l r, s)
        else if negb (is_null r) && negb (leaf_visited r) then
          let s := gen_set_stack (leaf_ptr node true :: g_stack s) s in
          r <- mark_visited r ;;
          Ok (Node n l r, s)
        else Ok (Node n l r, s)
      else
        let n := set_isVisited true n in
        let '(n, s) :=
          match uop n with
          | Some u => (set_uop None n, AddOp u s)
          | None => (n, s)
          end in
        Ok (Node n l r, gen_set_stack (tl (g_stack s)) s)
  end.

(** One turn of the [while( !stack.empty() )] loop; every access of the body
    goes through [node], so the body reads the subtree at [node] and writes
    it back. *)
Definition gen_iter (s : GEN) : result GEN :=
  match g_stack s with
  | [] => Ok s
  | node :: _ =>
      let tree := m_tree (g_compiler s) in
      '(t, s) <- gen_visit node (node_at tree node) s ;;
      '(t, s) <- gen_finish node t s ;;
      Ok (mkGEN (set_tree (replace_at tree node t) (g_compiler s))
            (g_stack s) (g_code s) (g_preflight s))
  end.

Fixpoint gen_loop (fuel : nat) (s : GEN) : result GEN :=
  match g_stack s with
  | [] => Ok s
  | _ :: _ =>
      match fuel with
      | O => Fault OutOfFuel
      | S fuel => s <- gen_iter s ;; gen_loop fuel s
      end
  end.

(** [COMPILER::generateUCode]: the value returned, the compiler, the
    instructions of [aCode] and the preflight context.  The output for the
    trace log is left out: [libeval_dbg], and the dump of the tree
    ([dumpNode]) that precedes the loop.  The dump walks the tree below
    binary operator, struct-reference and function call nodes, and below
    the first leaf of a number, and dereferences each leaf it walks to
    without testing it for null; the trees of the parser have no null leaf
    in these places. *)
Definition generateUCode (fuel : nat) (c : COMPILER) (aCode : list UOP)
    (aPreflightContext : CONTEXT)
    : result (bool * COMPILER * list UOP * CONTEXT) :=
  match m_tree c with
  | Nil =>
      (* Empty expression returns true *)
      let val := VNumeric 1 in
      Ok (true, c, aCode ++ [UOP_value TR_UOP_PUSH_VALUE val],
          aPreflightContext)
  | Node _ _ _ =>
      let c := set_tree (prepareTree (m_tree c)) c in
      s <- gen_loop fuel (mkGEN c [[]] aCode aPreflightContext) ;;
      Ok (true, g_compiler s, g_code s, g_preflight s)
  end.

(** ** Tokenizer *)

(** The C library's character classes, in the "C" locale. *)
Definition isdigit (c : ascii) : bool :=
  let n := nat_of_ascii c in (48 <=? n)%nat && (n <=? 57)%nat.

Definition isalpha (c : ascii) : bool :=
  let n := nat_of_ascii c in
  ((65 <=? n)%nat && (n <=? 90)%nat) || ((97 <=? n)%nat && (n <=? 122)%nat).

Definition isalnum (c : ascii) : bool := isalpha c || isdigit c.

(** [m_str[p]]; past the end the model reads the terminating zero. *)
Definition char_at (text : string) (p : nat) : ascii :=
  match String.get p text with
  | Some c => c
  | None => Ascii.zero
  end.

(** Modelled from the spec: the inline members of [TOKENIZER], declared in the
    header: "given remaining source text and a cursor, produce the next token
    or signal end-of-input".  [GetChar] is the character under the cursor, or
    0 at the end; [NextChar] advances the cursor; [Done] tests for the end;
    [Restart_tokenizer] and [Clear_tokenizer] are the members [Restart] and
    [Clear]. *)
Definition Restart_tokenizer (aStr : string) : TOKENIZER := mkTOKENIZER aStr 0.

Definition Clear_tokenizer : TOKENIZER := mkTOKENIZER EmptyString 0.

Definition GetChar (t : TOKENIZER) : ascii := char_at (m_str t) (m_pos t).

Definition Done (t : TOKENIZER) : bool :=
  (String.length (m_str t) <=? m_pos t)%nat.

Definition NextChar (aAdvance : nat) (t : TOKENIZER) : TOKENIZER :=
  mkTOKENIZER (m_str t) (m_pos t + aAdvance).

Definition GetPos (t : TOKENIZER) : nat := m_pos t.

(** [TOKENIZER::GetChars]: the characters from the cursor on that satisfy
    [cond]. *)
Fixpoint take_while (cond : ascii -> bool) (text : string) : string :=
  match text with
  | EmptyString => EmptyString
  | String c rest =>
      if cond c then String c (take_while cond rest) else EmptyString
  end.

Definition GetChars (cond : ascii -> bool) (t : TOKENIZER) : string :=
  take_while cond
    (substring (m_pos t) (String.length (m_str t) - m_pos t) (m_str t)).

(** [TOKENIZER::MatchAhead] *)
Definition MatchAhead (pattern : string) (stopCond : ascii -> bool)
    (t : TOKENIZER) : bool :=
  let remaining := Z.of_nat (String.length (m_str t)) - Z.of_nat (m_pos t) in
  if remaining <? strlen pattern then false
  else if String.eqb (substring (m_pos t) (String.length pattern) (m_str t))
            pattern then
    (remaining =? strlen pattern)
    || stopCond (char_at (m_str t) (m_pos t + String.length pattern))
  else false.

(** The stop condition [resolveUnits] passes to [MatchAhead]:
    [!isalnum( c )]. *)
Definition not_alnum (c : ascii) : bool := negb (isalnum c).

(** [COMPILER::resolveUnits], on the tokenizer: the loop over the supported
    units from the unit numbered [unitId] on. *)
Fixpoint resolveUnits_from (units : list string) (unitId : Z) (t : TOKENIZER)
    : Z * TOKENIZER :=
  match units with
  | [] => (-1, t)
  | unitName :: rest =>
      if MatchAhead unitName not_alnum t then
        (unitId, NextChar (String.length unitName) t)
      else resolveUnits_from rest (unitId + 1) t
  end.

Definition resolveUnits (c : COMPILER) : Z * COMPILER :=
  let '(unitId, t) := resolveUnits_from GetSupportedUnits 0 (m_tokenizer c) in
  (unitId, set_tokenizer t c).

(** ** Lexer *)

Definition token_of (id : Z) (text : option string) (unit_idx : Z) : T_TOKEN :=
  mkT_TOKEN id (mkT_TOKEN_VALUE text 0 unit_idx).

Definition defaultToken : T_TOKEN := mkT_TOKEN TR_UNDEFINED defaultTokenValue.

(** [COMPILER::lexString] *)
Definition lexString (c : COMPILER) : bool * T_TOKEN * COMPILER :=
  let text :=
    GetChars (fun ch => negb (Ascii.eqb ch "'"%char)) (m_tokenizer c) in
  let aToken := token_of G_STRING (Some text) 0 in
  let c := set_tokenizer (NextChar (String.length text + 1) (m_tokenizer c)) c in
  let c := set_lexerState LS_DEFAULT c in
  (true, aToken, c).

Definition isDecimalSeparator (c : COMPILER) (ch : ascii) : bool :=
  Ascii.eqb ch (m_localeDecimalSeparator c)
  || Ascii.eqb ch "."%char || Ascii.eqb ch ","%char.

(** The [do ... while] loop of the [extractNumber] lambda: [current] grows
    by the characters read.  Every turn advances the cursor, so the length of
    the text left, plus two, is fuel enough. *)
Fixpoint extractNumber_loop (fuel : nat) (c : COMPILER) (haveSeparator : bool)
    (ch : ascii) (current : string) (t : TOKENIZER) : string * TOKENIZER :=
  match fuel with
  | O => (current, t)
  | S fuel =>
      if isDecimalSeparator c ch && haveSeparator then (current, t)
      else
        let current := String.append current (String ch EmptyString) in
        let haveSeparator := haveSeparator || isDecimalSeparator c ch in
        let t := NextChar 1 t in
        let ch := GetChar t in
        if isdigit ch || isDecimalSeparator c ch then
          extractNumber_loop fuel c haveSeparator ch current t
        else (current, t)
  end.

(** Ensure that the systems decimal separator is used *)
Fixpoint normalize_separators (c : COMPILER) (text : string) : string :=
  match text with
  | EmptyString => EmptyString
  | String ch rest =>
      String (if isDecimalSeparator c ch then m_localeDecimalSeparator c else ch)
        (normalize_separators c rest)
  end.

Definition extractNumber (c : COMPILER) : string * COMPILER :=
  let t := m_tokenizer c in
  let '(current, t) :=
    extractNumber_loop (String.length (m_str t) - m_pos t + 2) c false
      (GetChar t) EmptyString t in
  (normalize_separators c current, set_tokenizer t c).

(** Remove whitespace: the [for( ;; )] loop of [lexDefault]. *)
Fixpoint skip_spaces (fuel : nat) (t : TOKENIZER) : TOKENIZER :=
  match fuel with
  | O => t
  | S fuel =>
      if Ascii.eqb (GetChar t) " "%char then skip_spaces fuel (NextChar 1 t)
      else t
  end.

(** The single character tokens; [None] is the [default] case. *)
Definition single_char_token (ch : ascii) : option Z :=
  if Ascii.eqb ch "+"%char then Some G_PLUS
  else if Ascii.eqb ch "!"%char then Some G_BOOL_NOT
  else if Ascii.eqb ch "-"%char then Some G_MINUS
  else if Ascii.eqb ch "*"%char then Some G_MULT
  else if Ascii.eqb ch "/"%char then Some G_DIVIDE
  else if Ascii.eqb ch "<"%char then Some G_LESS_THAN
  else if Ascii.eqb ch ">"%char then Some G_GREATER_THAN
  else if Ascii.eqb ch "("%char then Some G_PARENL
  else if Ascii.eqb ch ")"%char then Some G_PARENR
  else if Ascii.eqb ch ";"%char then Some G_SEMCOL
  else if Ascii.eqb ch "."%char then Some G_STRUCT_REF
  else None.

Definition two_char (pattern : string) (last : ascii) (c : COMPILER) : bool :=
  MatchAhead pattern (fun ch => negb (Ascii.eqb ch last)) (m_tokenizer c).

Definition advance (n : nat) (c : COMPILER) : COMPILER :=
  set_tokenizer (NextChar n (m_tokenizer c)) c.

(** [COMPILER::lexDefault]: whether a token is complete, the token, and the
    compiler.  When the lexer enters a string literal no token is assigned. *)
Definition lexDefault (aToken : T_TOKEN) (c : COMPILER)
    : bool * T_TOKEN * COMPILER :=
  let retval := token_of G_ENDS None 0 in
  if Done (m_tokenizer c) then (true, retval, c)
  else
    let c :=
      set_tokenizer
        (skip_spaces (String.length (m_str (m_tokenizer c))) (m_tokenizer c))
        c in
    let ch := GetChar (m_tokenizer c) in
    if Ascii.eqb ch Ascii.zero then
      (* End of input *)
      (true, retval, c)
    else if isdigit ch then
      let '(current, c) := extractNumber c in
      (true, token_of G_VALUE (Some current) 0, c)
    else
      let '(convertFrom, c) := resolveUnits c in
      if 0 <=? convertFrom then (true, token_of G_UNIT None convertFrom, c)
      else if Ascii.eqb ch "'"%char then
        (false, aToken, advance 1 (set_lexerState LS_STRING c))
      else if isalpha ch || Ascii.eqb ch "_"%char then
        let current :=
          GetChars (fun x => isalnum x || Ascii.eqb x "_"%char)
            (m_tokenizer c) in
        (true, token_of G_IDENTIFIER (Some current) 0,
         advance (String.length current) c)
      else if two_char "==" "="%char c then
        (true, token_of G_EQUAL None 0, advance 2 c)
      else if two_char "!=" "="%char c then
        (true, token_of G_NOT_EQUAL None 0, advance 2 c)
      else if two_char "<=" "="%char c then
        (true, token_of G_LESS_EQUAL_THAN None 0, advance 2 c)
      else if two_char ">=" "="%char c then
        (true, token_of G_GREATER_EQUAL_THAN None 0, advance 2 c)
      else if two_char "&&" "&"%char c then
        (true, token_of G_BOOL_AND None 0, advance 2 c)
      else if two_char "||" "|"%char c then
        (true, token_of G_BOOL_OR None 0, advance 2 c)
      else
        match single_char_token ch with
        | Some id => (true, token_of id None 0, advance 1 c)
        | None =>
            let c :=
              reportError CST_PARSE
                (quoted "Unrecognized character '" (String ch EmptyString))
                (-1) c in
            (true, retval, advance 1 c)
        end.

(** [COMPILER::getToken].  [lexDefault] leaves a token unfinished only when
    it switches to [LS_STRING], and [lexString] always finishes one: the
    [do ... while( !done )] loop takes at most two turns. *)
Definition getToken (c : COMPILER) : T_TOKEN * COMPILER :=
  let rv := token_of 0 None 0 in
  let lex (rv : T_TOKEN) (c : COMPILER) :=
    match m_lexerState c with
    | LS_DEFAULT => lexDefault rv c
    | LS_STRING => lexString c
    end in
  let '(done, rv, c) := lex rv c in
  if done then (rv, c)
  else let '(_, rv, c) := lex rv c in (rv, c).

(** ** Compile *)

(** The generated parser's entry point, [Parse( m_parser, token, tok, this )]:
    it advances the parser and calls back into the compiler ([newNode],
    [setRoot], [parseOk], [parseError]).  The grammar is not among the
    sources. *)
Variable Parse : Z -> T_TOKEN -> COMPILER -> COMPILER.

(** [COMPILER::Clear] *)
Definition Clear (c : COMPILER) : COMPILER :=
  let c := set_tokenizer Clear_tokenizer c in
  set_tree Nil c.

(** [COMPILER::newString] *)
Definition newString (aString : string) (c : COMPILER) : COMPILER :=
  let c := Clear c in
  let c := set_lexerState LS_DEFAULT c in
  let c := set_tokenizer (Restart_tokenizer aString) c in
  set_parseFinished false c.

(** The [do ... while( tok.token )] loop of [Compile]: [false] with the
    compiler when the loop leaves [Compile] by [return false], [true] with
    the compiler when control goes on to the code generator. *)
Fixpoint parse_loop (fuel : nat) (c : COMPILER) : result (bool * COMPILER) :=
  match fuel with
  | O => Fault OutOfFuel
  | S fuel =>
      let c := set_sourcePos (Z.of_nat (GetPos (m_tokenizer c))) c in
      let '(tok, c) := getToken c in
      let c := Parse (token tok) tok c in
      if pendingError (m_errorStatus c) then Ok (false, c)
      else if m_parseFinished c || (token tok =? G_ENDS) then
        (* Reset parser by passing zero as token ID, value is ignored. *)
        Ok (true, Parse 0 tok c)
      else if token tok =? 0 then Ok (true, c)
      else parse_loop fuel c
  end.

(** [COMPILER::Compile]: the value returned, the compiler, the instructions
    of [aCode] and the preflight context. *)
Definition Compile (fuel : nat) (aString : string) (c : COMPILER)
    (aCode : list UOP) (aPreflightContext : CONTEXT)
    : result (bool * COMPILER * list UOP * CONTEXT) :=
  let c := newString aString c in
  let c := set_tree Nil c in
  let c := set_parseFinished false c in
  if String.eqb aString EmptyString then
    let c := set_parseFinished true c in
    generateUCode fuel c aCode aPreflightContext
  else
    '(parsed, c) <- parse_loop fuel c ;;
    if parsed then generateUCode fuel c aCode aPreflightContext
    else Ok (false, c, aCode, aPreflightContext).

End Compiler.

(** * Notions used in the statements *)

(** The numeric reading of an operand: a null operand counts as 0.0. *)
Definition numeric (a : option VALUE) : float :=
  match a with
  | Some v => AsDouble v
  | None => 0%float
  end.

(** [arg1 && arg2 && arg1->EqualTo( arg2 )] *)
Definition value_equal (a b : option VALUE) : bool :=
  match a, b with
  | Some v1, Some v2 => EqualTo v1 v2
  | _, _ => false
  end.

(** The [case] labels of the [switch] over the binary operators, and those of
    the [switch] that starts [UOP::Exec].  C++ requires the labels of one
    [switch] to differ from each other. *)
Definition binary_case_labels {oc : OPCODES} : list Z :=
  [TR_OP_ADD; TR_OP_SUB; TR_OP_MUL; TR_OP_DIV; TR_OP_LESS_EQUAL;
   TR_OP_GREATER_EQUAL; TR_OP_LESS; TR_OP_GREATER; TR_OP_EQUAL;
   TR_OP_NOT_EQUAL; TR_OP_BOOL_AND; TR_OP_BOOL_OR].

Definition exec_case_labels {oc : OPCODES} : list Z :=
  [TR_UOP_PUSH_VAR; TR_UOP_PUSH_VALUE; TR_OP_METHOD_CALL].

(** The labels of the [switch( node->op )] of the code generator. *)
Definition node_case_labels {oc : OPCODES} : list Z :=
  [TR_OP_FUNC_CALL; TR_STRUCT_REF; TR_NUMBER; TR_STRING; TR_IDENTIFIER].

(** An operator code as [UOP::Exec] treats it: none of the codes its first
    [switch] handles. *)
Definition operator_code {oc : OPCODES} (op : Z) : Prop :=
  ~ In op exec_case_labels.

(** [n] turns of the code generator's loop, whatever the work stack holds. *)
Fixpoint gen_steps {oc : OPCODES} {host : HOST} {PARSER : Type} (n : nat)
    (s : GEN PARSER) : result (GEN PARSER) :=
  match n with
  | O => Ok s
  | S n => s <- gen_iter s ;; gen_steps n s
  end.

(** The pending-error flag of the compiler's status slot. *)
Definition pending {PARSER : Type} (c : COMPILER PARSER) : bool :=
  pendingError (m_errorStatus c).

(** What the code generator keeps from one state of its loop to a later one:
    the instructions already emitted, and a pending error. *)
Definition extends {PARSER : Type} (s s' : GEN PARSER) : Prop :=
  (exists emitted, g_code s' = g_code s ++ emitted)
  /\ (pending (g_compiler s) = true -> pending (g_compiler s') = true).

(** A unit name made of letters and digits only. *)
Definition all_alnum (name : string) : Prop :=
  forall i ch, String.get i name = Some ch -> isalnum ch = true.

(** [Compile] up to the call of the code generator: [true] with the compiler
    when control reaches [generateUCode], [false] with the compiler when
    [Compile] leaves by [return false]. *)
Definition front_end {tk : TOKENS} {host : HOST} {PARSER : Type}
    (Parse : Z -> T_TOKEN -> COMPILER PARSER -> COMPILER PARSER)
    (fuel : nat) (aString : string) (c : COMPILER PARSER)
    : result (bool * COMPILER PARSER) :=
  let c := newString aString c in
  let c := set_tree Nil c in
  let c := set_parseFinished false c in
  if String.eqb aString EmptyString then Ok (true, set_parseFinished true c)
  else parse_loop Parse fuel c.

(** A parser that never clears the pending-error flag. *)
Definition keeps_pending {PARSER : Type}
    (Parse : Z -> T_TOKEN -> COMPILER PARSER -> COMPILER PARSER) : Prop :=
  forall id tok c, pending c = true -> pending (Parse id tok c) = true.

(** ** The trees of the parser and their programs *)

(** The value of a numeric literal node with the leaf [son]: the three ways
    of the [TR_NUMBER] case. *)
Definition literal_value {oc : OPCODES} {host : HOST} (n : TREE_NODE)
    (son : TREE) : float :=
  match str (node_value n) with
  | None => 0%float
  | Some text =>
      match son with
      | Node ns _ _ =>
          if op ns =? TR_UNIT then Convert text (idx (node_value ns))
          else wxAtof text
      | Nil => wxAtof text
      end
  end.

(** The program of a tree, by recursion on the tree: the instructions of the
    operands, left before right, and then the instruction of the node.  It
    states what the loop of [generateUCode] emits. *)
Fixpoint emit {oc : OPCODES} {host : HOST} (t : TREE) : list UOP :=
  match t with
  | Nil => []
  | Node n l r =>
      if op n =? TR_OP_FUNC_CALL then []
      else if op n =? TR_STRUCT_REF then
        match l, r with
        | Node nl _ _, Node nr rl rr =>
            match str (node_value nl) with
            | None => []
            | Some item =>
                if op nr =? TR_IDENTIFIER then
                  match str (node_value nr) with
                  | Some prop =>
                      [UOP_ref TR_UOP_PUSH_VAR (CreateVarRef item prop)]
                  | None => []
                  end
                else if op nr =? TR_OP_FUNC_CALL then
                  match rl with
                  | Node nf _ _ =>
                      match str (node_value nf) with
                      | Some function =>
                          emit rr
                          ++ [UOP_func TR_OP_METHOD_CALL
                                (CreateFuncCall function)
                                (CreateVarRef item EmptyString)]
                      | None => []
                      end
                  | Nil => []
                  end
                else []
            end
        | _, _ => []
        end
      else if op n =? TR_NUMBER then
        [UOP_value TR_UOP_PUSH_VALUE (VNumeric (literal_value n l))]
      else if op n =? TR_STRING then
        match str (node_value n) with
        | Some text => [UOP_value TR_UOP_PUSH_VALUE (VText text)]
        | None => []
        end
      else if op n =? TR_IDENTIFIER then
        match str (node_value n) with
        | Some name =>
            [UOP_ref TR_UOP_PUSH_VALUE (CreateVarRef name EmptyString)]
        | None => []
        end
      else emit l ++ emit r ++ [UOP_ref (op n) None]
  end.

(** An operator node's code: an operator code of [UOP::Exec] that is none of
    the node kinds the code generator treats on their own. *)
Definition operator_node {oc : OPCODES} (n : TREE_NODE) : Prop :=
  operator_code (op n) /\ ~ In (op n) node_case_labels.

(** Modelled from the spec: the grammar is not among the sources.  The trees
    the parser builds, after sections 4.2 and 4.3: a numeric literal, with
    or without a unit leaf; a string literal; an identifier; a
    struct-reference [object.property]; a struct-reference
    [object.function( argument )], whose right leaf is the function call
    node with the name node (the parser leaves the leaves of that one
    uninitialised) and the argument; a binary operator over two trees; the
    unary operator over one. *)
Inductive wf_ast {oc : OPCODES} : TREE -> Prop :=
| wf_number (n : TREE_NODE) :
    op n = TR_NUMBER ->
    wf_ast (Node n Nil Nil)
| wf_number_unit (n nu : TREE_NODE) :
    op n = TR_NUMBER ->
    op nu = TR_UNIT ->
    wf_ast (Node n (Node nu Nil Nil) Nil)
| wf_string (n : TREE_NODE) (text : string) :
    op n = TR_STRING ->
    str (node_value n) = Some text ->
    wf_ast (Node n Nil Nil)
| wf_identifier (n : TREE_NODE) (name : string) :
    op n = TR_IDENTIFIER ->
    str (node_value n) = Some name ->
    wf_ast (Node n Nil Nil)
| wf_property (n nl nr : TREE_NODE) (item prop : string) :
    op n = TR_STRUCT_REF ->
    op nl = TR_IDENTIFIER ->
    str (node_value nl) = Some item ->
    op nr = TR_IDENTIFIER ->
    str (node_value nr) = Some prop ->
    wf_ast (Node n (Node nl Nil Nil) (Node nr Nil Nil))
| wf_call (n nl nr nf : TREE_NODE) (fl fr argument : TREE)
    (item function : string) :
    op n = TR_STRUCT_REF ->
    op nl = TR_IDENTIFIER ->
    str (node_value nl) = Some item ->
    op nr = TR_OP_FUNC_CALL ->
    str (node_value nf) = Some function ->
    wf_ast argument ->
    wf_ast (Node n (Node nl Nil Nil) (Node nr (Node nf fl fr) argument))
| wf_binary (n : TREE_NODE) (l r : TREE) :
    operator_node n ->
    has_mask (op n) TR_OP_BINARY_MASK = true ->
    wf_ast l ->
    wf_ast r ->
    wf_ast (Node n l r)
| wf_unary (n : TREE_NODE) (l : TREE) :
    operator_node n ->
    has_mask (op n) TR_OP_BINARY_MASK = false ->
    has_mask (op n) TR_OP_UNARY_MASK = true ->
    wf_ast l ->
    wf_ast (Node n l Nil).

(** No node of the tree is marked visited: what [prepareTree] leaves. *)
Fixpoint unvisited (t : TREE) : Prop :=
  match t with
  | Nil => True
  | Node n l r => isVisited n = false /\ unvisited l /\ unvisited r
  end.

(** Two nodes of the same kind and payload. *)
Definition same_root (n n' : TREE_NODE) : Prop :=
  op n' = op n /\ node_value n' = node_value n.

(** [k] turns of the code generator's loop lead from [s] to [s']. *)
Definition runs {oc : OPCODES} {host : HOST} {PARSER : Type} (k : nat)
    (s s' : GEN PARSER) : Prop :=
  forall fuel, gen_loop (k + fuel) s = gen_loop fuel s'.

(** An instruction that can be executed: a push-variable has its reference
    and a method call its function. *)
Definition bound_uop {oc : OPCODES} (u : UOP) : Prop :=
  (m_op u = TR_UOP_PUSH_VAR -> m_ref u <> None)
  /\ (m_op u = TR_OP_METHOD_CALL -> m_func u <> None).

(** The contract of a host function (section 6): called on a context whose
    stack holds its argument, it returns, having popped the argument and
    pushed one result. *)
Definition function_contract (f : FUNC_CALL_REF) : Prop :=
  forall ctx ref a rest,
    m_stack ctx = a :: rest ->
    exists v ctx', f ctx ref = Returned ctx' /\ m_stack ctx' = v :: rest.

Definition host_contract {host : HOST} : Prop :=
  forall name f, CreateFuncCall name = Some f -> function_contract f.

(** A host function that keeps its contract and pushes a value, not a null
    pointer, as its result. *)
Definition function_pushes_value (f : FUNC_CALL_REF) : Prop :=
  forall ctx ref a rest,
    m_stack ctx = a :: rest ->
    exists x ctx', f ctx ref = Returned ctx' /\ m_stack ctx' = Some x :: rest.

(** The contract of a host variable: fetching its value returns, and leaves
    the operand stack as it was (the error status is the variable's to
    set). *)
Definition variable_contract (v : VAR_REF) : Prop :=
  forall ctx,
    exists x ctx', GetValue v ctx = Fetched x ctx' /\ m_stack ctx' = m_stack ctx.

(** What running a program asks of the host: of its functions and of its
    variables. *)
Definition host_run_contract {host : HOST} : Prop :=
  (forall name f, CreateFuncCall name = Some f -> function_pushes_value f)
  /\ (forall item prop v,
        CreateVarRef item prop = Some v -> variable_contract v).

(** A bare identifier, under any number of unary operators. *)
Inductive bare_identifier {oc : OPCODES} : TREE -> Prop :=
| bare_name (n : TREE_NODE) (l r : TREE) :
    op n = TR_IDENTIFIER ->
    bare_identifier (Node n l r)
| bare_unary (n : TREE_NODE) (l r : TREE) :
    operator_node n ->
    has_mask (op n) TR_OP_BINARY_MASK = false ->
    bare_identifier l ->
    bare_identifier (Node n l r).

(** The loop of the code generator, started on the node [p] with [rest]
    below it on the work stack, finishes the subtree [t] at [p]: it pops
    [p], has emitted the program of [t], and has changed the tree below [p]
    only, where the root is still marked visited if it was; and if no error
    is pending afterwards, none was before and the program of [t] can be
    executed. *)
Definition subtree_done {oc : OPCODES} {host : HOST} {PARSER : Type}
    (c : COMPILER PARSER) (p : NODE_PTR) (rest : list NODE_PTR)
    (code : list UOP) (pf : CONTEXT) (t : TREE) : Prop :=
  exists k c' t' pf',
    runs k (mkGEN c (p :: rest) code pf) (mkGEN c' rest (code ++ emit t) pf')
    /\ m_tree c' = replace_at (m_tree c) p t'
    /\ (leaf_visited (node_at (m_tree c) p) = true -> leaf_visited t' = true)
    /\ (pending c' = false ->
        pending c = false /\ Forall bound_uop (emit t)).

(** The loop finishes the tree [t] wherever it stands in the store and
    whatever the flags of its root are. *)
Definition finishes {oc : OPCODES} {host : HOST} (PARSER : Type) (t : TREE)
    : Prop :=
  match t with
  | Nil => False
  | Node n l r =>
      forall n', same_root n n' ->
      forall (c : COMPILER PARSER) p rest code pf,
        node_at (m_tree c) p = Node n' l r ->
        subtree_done c p rest code pf t
  end.

(** The leaves of the root are not marked visited, nor are their nodes. *)
Definition unvisited_below (t : TREE) : Prop :=
  match t with
  | Nil => True
  | Node _ l r => unvisited l /\ unvisited r
  end.

(** * A sample instantiation

    Values for the parameters, used to run the model on concrete inputs.  The
    operator codes keep the binary mask on the binary operators and off the
    others, as the code of [UOP::Exec] expects of them. *)

Definition header_opcodes : OPCODES := {|
  TR_OP_BINARY_MASK := 0x200;
  TR_OP_UNARY_MASK := 0x100;
  TR_OP_MUL := 0x201;
  TR_OP_DIV := 0x202;
  TR_OP_ADD := 0x203;
  TR_OP_SUB := 0x204;
  TR_OP_LESS := 0x205;
  TR_OP_GREATER := 0x206;
  TR_OP_LESS_EQUAL := 0x207;
  TR_OP_GREATER_EQUAL := 0x208;
  TR_OP_EQUAL := 0x209;
  TR_OP_NOT_EQUAL := 0x20a;
  TR_OP_BOOL_AND := 0x20b;
  TR_OP_BOOL_OR := 0x20c;
  TR_OP_BOOL_NOT := 0x100;
  TR_OP_FUNC_CALL := 24;
  TR_OP_METHOD_CALL := 25;
  TR_UOP_PUSH_VAR := 1;
  TR_UOP_PUSH_VALUE := 2;
  TR_NUMBER := 1;
  TR_IDENTIFIER := 2;
  TR_STRUCT_REF := 4;
  TR_STRING := 5;
  TR_UNIT := 6
|}.

Definition sample_tokens : TOKENS := {|
  TR_UNDEFINED := -1;
  G_ENDS := 27;
  G_VALUE := 1;
  G_UNIT := 2;
  G_STRING := 3;
  G_IDENTIFIER := 4;
  G_EQUAL := 5;
  G_NOT_EQUAL := 6;
  G_LESS_EQUAL_THAN := 7;
  G_GREATER_EQUAL_THAN := 8;
  G_BOOL_AND := 9;
  G_BOOL_OR := 10;
  G_PLUS := 11;
  G_BOOL_NOT := 12;
  G_MINUS := 13;
  G_MULT := 14;
  G_DIVIDE := 15;
  G_LESS_THAN := 16;
  G_GREATER_THAN := 17;
  G_PARENL := 18;
  G_PARENR := 19;
  G_SEMCOL := 20;
  G_STRUCT_REF := 21
|}.

(** A host with one item, [A], that has one property, [Width], of value 5;
    a function [isOk] that accepts every argument and answers 1, and a
    function [rejects] that reports an error for every argument. *)
Definition sample_item : VAR_REF :=
  mkVAR_REF VT_NUMERIC (fun ctx => Fetched (VNumeric 5) ctx).

Definition sample_unknown_property : VAR_REF :=
  mkVAR_REF VT_PARSE_ERROR (fun ctx => Fetched (VNumeric 0) ctx).

Definition replace_top (v : option VALUE) (ctx : CONTEXT) : CONTEXT :=
  mkCONTEXT (v :: tl (m_stack ctx)) (ctx_errorStatus ctx).

Definition sample_isOk : FUNC_CALL_REF :=
  fun ctx _ => Returned (replace_top (Some (VNumeric 1)) ctx).

Definition sample_rejects : FUNC_CALL_REF :=
  fun ctx _ =>
    Returned (ReportError "bad argument" (replace_top (Some (VNumeric 0)) ctx)).

Definition sample_atof (text : string) : float :=
  if String.eqb text "1" then 1%float
  else if String.eqb text "2" then 2%float
  else if String.eqb text "3" then 3%float
  else if String.eqb text "4" then 4%float
  else 0%float.

Definition sample_host : HOST := {|
  CreateVarRef := fun item prop =>
    if String.eqb item "A" then
      if String.eqb prop EmptyString then Some sample_item
      else if String.eqb prop "Width" then Some sample_item
      else Some sample_unknown_property
    else None;
  CreateFuncCall := fun name =>
    if String.eqb name "isOk" then Some sample_isOk
    else if String.eqb name "rejects" then Some sample_rejects
    else None;
  GetSupportedUnits := ["mil"; "mm"; "in"]%string;
  Convert := fun text _ => sample_atof text;
  wxAtof := sample_atof
|}.

(** A tree node as [newNode] makes it, with the given leaves. *)
Definition tree_node (op : Z) (text : option string) (pos : Z) (l r : TREE)
    : TREE :=
  Node (mkTREE_NODE (mkT_TOKEN_VALUE text 0 0) op None true false false pos)
    l r.

(** A parser for the fragment [identifier] and [identifier . identifier] of
    the expression language.  It works as a generated parser does: a token is
    shifted when it is read, and a node is made when the token that follows
    its text has been read, so that the compiler's source position is then
    the offset just past that text. *)
Inductive SAMPLE_PARSER : Type :=
| PS_START
| PS_ID (name : T_TOKEN_VALUE)
| PS_DOT (lhs : TREE)
| PS_ID2 (lhs : TREE) (name : T_TOKEN_VALUE).

Definition sample_Parse {oc : OPCODES} {tk : TOKENS} (id : Z) (tok : T_TOKEN)
    (c : COMPILER SAMPLE_PARSER) : COMPILER SAMPLE_PARSER :=
  if id =? 0 then set_parser PS_START c
  else
    match m_parser c with
    | PS_START =>
        if id =? G_IDENTIFIER then set_parser (PS_ID (value tok)) c
        else if id =? G_ENDS then parseOk c
        else parseError "Syntax error" c
    | PS_ID name =>
        if id =? G_STRUCT_REF then
          set_parser (PS_DOT (newNode c TR_IDENTIFIER name)) c
        else if id =? G_ENDS then
          parseOk (setRoot (newNode c TR_IDENTIFIER name) c)
        else parseError "Syntax error" c
    | PS_DOT lhs =>
        if id =? G_IDENTIFIER then set_parser (PS_ID2 lhs (value tok)) c
        else parseError "Syntax error" c
    | PS_ID2 lhs name =>
        if id =? G_ENDS then
          let rhs := newNode c TR_IDENTIFIER name in
          let root :=
            match newNode c TR_STRUCT_REF defaultTokenValue with
            | Node n _ _ => Node n lhs rhs
            | Nil => Nil
            end in
          parseOk (setRoot root c)
        else parseError "Syntax error" c
    end.

Definition sample_compiler : COMPILER SAMPLE_PARSER :=
  mkCOMPILER PS_START Clear_tokenizer "."%char LS_DEFAULT 0 false Nil noError.

(** Sample trees, positioned as the parser positions them: a node is made
    when the token after its text has been read. *)

(** [B + C] *)
Definition sample_sum_tree {oc : OPCODES} : TREE :=
  tree_node TR_OP_ADD None 5
    (tree_node TR_IDENTIFIER (Some "B"%string) 1 Nil Nil)
    (tree_node TR_IDENTIFIER (Some "C"%string) 5 Nil Nil).

(** [!1] *)
Definition sample_not_tree {oc : OPCODES} : TREE :=
  tree_node TR_OP_BOOL_NOT None 2
    (tree_node TR_NUMBER (Some "1"%string) 2 Nil Nil) Nil.

(** [A.function('x')] *)
Definition sample_call_tree {oc : OPCODES} (function : string) : TREE :=
  let last := 7 + strlen function in
  tree_node TR_STRUCT_REF None last
    (tree_node TR_IDENTIFIER (Some "A"%string) 1 Nil Nil)
    (tree_node TR_OP_FUNC_CALL None last
       (tree_node TR_IDENTIFIER (Some function) last Nil Nil)
       (tree_node TR_STRING (Some "x"%string) (last - 1) Nil Nil)).

(** The state in which the code generator's loop starts on a tree. *)
Definition gen_start {oc : OPCODES} {host : HOST} (t : TREE)
    : GEN SAMPLE_PARSER :=
  mkGEN (set_tree (prepareTree t) sample_compiler) [[]] [] newCONTEXT.

(** [A.Width < 3 && !1] *)
Definition sample_balance_tree {oc : OPCODES} : TREE :=
  tree_node TR_OP_BOOL_AND None 17
    (tree_node TR_OP_LESS None 12
       (tree_node TR_STRUCT_REF None 8
          (tree_node TR_IDENTIFIER (Some "A"%string) 1 Nil Nil)
          (tree_node TR_IDENTIFIER (Some "Width"%string) 7 Nil Nil))
       (tree_node TR_NUMBER (Some "3"%string) 12 Nil Nil))
    (tree_node TR_OP_BOOL_NOT None 17
       (tree_node TR_NUMBER (Some "1"%string) 17 Nil Nil) Nil).

(** * Notions for the lexer's properties *)

(** The character [i] places after the cursor (0 past the end of the text),
    and whether it is a decimal separator. *)
Definition ahead {PARSER : Type} (c : COMPILER PARSER) (i : nat) : ascii :=
  char_at (m_str (m_tokenizer c)) (m_pos (m_tokenizer c) + i).

Definition separator_ahead {PARSER : Type} (c : COMPILER PARSER) (i : nat)
    : bool :=
  isDecimalSeparator c (ahead c i).

(** No configured unit name matches at the cursor. *)
Definition no_unit_at {host : HOST} (t : TOKENIZER) : Prop :=
  forall name, In name GetSupportedUnits -> MatchAhead name not_alnum t = false.

(** No configured unit name is empty. *)
Definition units_not_empty {host : HOST} : Prop :=
  forall name, In name GetSupportedUnits -> name <> EmptyString.

(** A parser that leaves the lexer's state alone: the generated parser
    reaches the compiler through [newNode], [setRoot], [parseOk] and
    [parseError] only. *)
Definition keeps_lexer {PARSER : Type}
    (Parse : Z -> T_TOKEN -> COMPILER PARSER -> COMPILER PARSER) : Prop :=
  forall id tok c,
    m_tokenizer (Parse id tok c) = m_tokenizer c
    /\ m_lexerState (Parse id tok c) = m_lexerState c.

(** * Notions for the code generator's properties *)

(** A node without what the code generator writes in it: its instruction
    and its two flags. *)
Definition bare (n : TREE_NODE) : TREE_NODE :=
  mkTREE_NODE (node_value n) (op n) None (valid n) false false (node_srcPos n).

(** The tree without what the code generator writes in its nodes. *)
Fixpoint skeleton (t : TREE) : TREE :=
  match t with
  | Nil => Nil
  | Node n l r => Node (bare n) (skeleton l) (skeleton r)
  end.

(** The compiler [c'] differs from [c] at most in the tree and in the error
    status. *)
Definition only_tree_and_status {PARSER : Type} (c c' : COMPILER PARSER)
    : Prop :=
  c' = set_errorStatus (m_errorStatus c') (set_tree (m_tree c') c).

(** The operators of two characters, in the order in which [lexDefault]
    tries them: the text, the character that must not follow it, and the
    token. *)
Definition two_char_operators {tk : TOKENS} : list (string * ascii * Z) :=
  [("=="%string, "="%char, G_EQUAL);
   ("!="%string, "="%char, G_NOT_EQUAL);
   ("<="%string, "="%char, G_LESS_EQUAL_THAN);
   (">="%string, "="%char, G_GREATER_EQUAL_THAN);
   ("&&"%string, "&"%char, G_BOOL_AND);
   ("||"%string, "|"%char, G_BOOL_OR)].

(** None of the operators of two characters matches at the cursor. *)
Definition no_operator_at {tk : TOKENS} (t : TOKENIZER) : Prop :=
  forall pattern last id, In (pattern, last, id) two_char_operators ->
    MatchAhead pattern (fun ch => negb (Ascii.eqb ch last)) t = false.

(** * Further sample inputs *)

(** The sample compiler with the cursor at offset [pos] of [text]. *)
Definition sample_lexer (text : string) (pos : nat) : COMPILER SAMPLE_PARSER :=
  set_tokenizer (mkTOKENIZER text pos) sample_compiler.

(** [B.x], of an item the sample host does not know. *)
Definition sample_unknown_item_tree {oc : OPCODES} : TREE :=
  tree_node TR_STRUCT_REF None 3
    (tree_node TR_IDENTIFIER (Some "B"%string) 1 Nil Nil)
    (tree_node TR_IDENTIFIER (Some "x"%string) 3 Nil Nil).

(** [A.Width] *)
Definition sample_property_tree {oc : OPCODES} : TREE :=
  tree_node TR_STRUCT_REF None 7
    (tree_node TR_IDENTIFIER (Some "A"%string) 1 Nil Nil)
    (tree_node TR_IDENTIFIER (Some "Width"%string) 7 Nil Nil).

(** [3mm]: the unit leaf holds the index of [mm] among the units. *)
Definition sample_length_tree {oc : OPCODES} : TREE :=
  tree_node TR_NUMBER (Some "3"%string) 3
    (Node (mkTREE_NODE (mkT_TOKEN_VALUE None 0 1) TR_UNIT None true false
             false 3) Nil Nil)
    Nil.

(** [A == A] *)
Definition sample_equal_tree {oc : OPCODES} : TREE :=
  tree_node TR_OP_EQUAL None 6
    (tree_node TR_IDENTIFIER (Some "A"%string) 1 Nil Nil)
    (tree_node TR_IDENTIFIER (Some "A"%string) 6 Nil Nil).

(** * Properties of the virtual machine *)

Unset Implicit Arguments.

(** Tactics for the distinctness of [case] labels. *)
Ltac split_labels H :=
  repeat (apply NoDup_cons_iff in H;
          let Hn := fresh "Hn" in destruct H as [Hn H]; simpl in Hn).

Ltac in_tail E := first [left; exact E | right; in_tail E | exact E].

Ltac clash E :=
  match goal with
  | Hn : ~ _ |- False => solve [apply Hn; in_tail E]
  end.

Ltac skip_label :=
  match goal with
  | |- context [Z.eqb ?a ?b] =>
      let E := fresh "E" in
      destruct (Z.eqb_spec a b) as [E|_]; [exfalso; clash E|]
  end.

Section VM_facts.

Context {oc : OPCODES}.

Lemma has_mask_true (op mask : Z) :
  has_mask op mask = true <-> Z.land op mask <> 0.
Proof.
  unfold has_mask. rewrite negb_true_iff, Z.eqb_neq. tauto.
Qed.

Lemma operator_code_tests (op : Z) :
  operator_code op ->
  (op =? TR_UOP_PUSH_VAR) = false
  /\ (op =? TR_UOP_PUSH_VALUE) = false
  /\ (op =? TR_OP_METHOD_CALL) = false.
Proof.
  unfold operator_code, exec_case_labels. simpl. intros H.
  repeat split; apply Z.eqb_neq; intro E; apply H; auto.
Qed.

(** On an operator code [UOP::Exec] goes straight to the operator tests. *)
Lemma Exec_operator_code (u : UOP) (ctx : CONTEXT) :
  operator_code (m_op u) -> Exec u ctx = Exec_operator u ctx.
Proof.
  intros H. destruct (operator_code_tests _ H) as (E1 & E2 & E3).
  unfold Exec. now rewrite E1, E2, E3.
Qed.

(** A binary operator pops the right operand, then the left one, and pushes
    one numeric value. *)
Lemma Exec_binary (u : UOP) (arg1 arg2 : option VALUE)
    (rest : list (option VALUE)) (es : ERROR_STATUS) :
  has_mask (m_op u) TR_OP_BINARY_MASK = true ->
  operator_code (m_op u) ->
  Exec u (mkCONTEXT (arg2 :: arg1 :: rest) es)
  = Ok (mkCONTEXT (Some (VNumeric (binary_result (m_op u) arg1 arg2)) :: rest)
          es).
Proof.
  intros Hmask Hop. rewrite (Exec_operator_code _ _ Hop).
  unfold Exec_operator. rewrite Hmask. reflexivity.
Qed.

(** Pushing a literal. *)
Lemma Exec_push_value (v : VALUE) (ctx : CONTEXT) :
  TR_UOP_PUSH_VALUE <> TR_UOP_PUSH_VAR ->
  Exec (UOP_value TR_UOP_PUSH_VALUE v) ctx = Ok (Push (Some v) ctx).
Proof.
  intros H. unfold Exec, UOP_value. simpl.
  apply Z.eqb_neq in H. rewrite H, Z.eqb_refl. reflexivity.
Qed.

Lemma Run_ops_app (p q : list UOP) (ctx : CONTEXT) :
  Run_ops (p ++ q) ctx = (ctx' <- Run_ops p ctx ;; Run_ops q ctx').
Proof.
  revert ctx. induction p as [|u p IH]; intros ctx; simpl.
  - reflexivity.
  - destruct (Exec u ctx) as [ctx'|f]; simpl; [apply IH | reflexivity].
Qed.

(** What the inner [switch] computes for each of its labels. *)
Lemma binary_result_table (arg1 arg2 : option VALUE) :
  NoDup binary_case_labels ->
  let x := numeric arg1 in
  let y := numeric arg2 in
  binary_result TR_OP_ADD arg1 arg2 = PrimFloat.add x y
  /\ binary_result TR_OP_SUB arg1 arg2 = PrimFloat.sub x y
  /\ binary_result TR_OP_MUL arg1 arg2 = PrimFloat.mul x y
  /\ binary_result TR_OP_DIV arg1 arg2 = PrimFloat.div x y
  /\ binary_result TR_OP_LESS_EQUAL arg1 arg2
     = bool_to_double (PrimFloat.leb x y)
  /\ binary_result TR_OP_GREATER_EQUAL arg1 arg2
     = bool_to_double (PrimFloat.leb y x)
  /\ binary_result TR_OP_LESS arg1 arg2 = bool_to_double (PrimFloat.ltb x y)
  /\ binary_result TR_OP_GREATER arg1 arg2
     = bool_to_double (PrimFloat.ltb y x)
  /\ binary_result TR_OP_EQUAL arg1 arg2
     = bool_to_double (value_equal arg1 arg2)
  /\ binary_result TR_OP_NOT_EQUAL arg1 arg2
     = bool_to_double (negb (value_equal arg1 arg2))
  /\ binary_result TR_OP_BOOL_AND arg1 arg2
     = bool_to_double (nonzero x && nonzero y)
  /\ binary_result TR_OP_BOOL_OR arg1 arg2
     = bool_to_double (nonzero x || nonzero y).
Proof.
  intros H x y. unfold binary_case_labels in H. split_labels H.
  unfold binary_result. fold (numeric arg1) (numeric arg2).
  fold (value_equal arg1 arg2). fold x y.
  repeat split; repeat skip_label; rewrite Z.eqb_refl; reflexivity.
Qed.

(** C1.  A binary opcode, executed on a stack that holds its two operands,
    pops two values, the first popped being the right operand and the second
    the left one, and pushes exactly one numeric value: the sum, difference,
    product or quotient of the operands coerced to numbers for the
    arithmetic operators; 1.0 or 0.0 for the comparison of the coerced
    operands, for the equality or inequality of the operands as values, and
    for the conjunction or disjunction of the tests that each coerced operand
    is not zero.  In particular the program of ['abc' == 'abc'] and the one
    of ['abc' != 'xyz'] run to 1.0. *)
Theorem C1_binary_operators (u : UOP) (arg1 arg2 : option VALUE)
    (rest : list (option VALUE)) (es : ERROR_STATUS) :
  has_mask (m_op u) TR_OP_BINARY_MASK = true ->
  operator_code (m_op u) ->
  NoDup binary_case_labels ->
  NoDup exec_case_labels ->
  let x := numeric arg1 in
  let y := numeric arg2 in
  exists result : float,
    Exec u (mkCONTEXT (arg2 :: arg1 :: rest) es)
    = Ok (mkCONTEXT (Some (VNumeric result) :: rest) es)
    /\ (m_op u = TR_OP_ADD -> result = PrimFloat.add x y)
    /\ (m_op u = TR_OP_SUB -> result = PrimFloat.sub x y)
    /\ (m_op u = TR_OP_MUL -> result = PrimFloat.mul x y)
    /\ (m_op u = TR_OP_DIV -> result = PrimFloat.div x y)
    /\ (m_op u = TR_OP_LESS_EQUAL ->
        result = bool_to_double (PrimFloat.leb x y))
    /\ (m_op u = TR_OP_GREATER_EQUAL ->
        result = bool_to_double (PrimFloat.leb y x))
    /\ (m_op u = TR_OP_LESS -> result = bool_to_double (PrimFloat.ltb x y))
    /\ (m_op u = TR_OP_GREATER -> result = bool_to_double (PrimFloat.ltb y x))
    /\ (m_op u = TR_OP_EQUAL ->
        result = bool_to_double (value_equal arg1 arg2))
    /\ (m_op u = TR_OP_NOT_EQUAL ->
        result = bool_to_double (negb (value_equal arg1 arg2)))
    /\ (m_op u = TR_OP_BOOL_AND ->
        result = bool_to_double (nonzero x && nonzero y))
    /\ (m_op u = TR_OP_BOOL_OR ->
        result = bool_to_double (nonzero x || nonzero y))
    /\ (m_op u = TR_OP_EQUAL ->
        Run [UOP_value TR_UOP_PUSH_VALUE (VText "abc");
             UOP_value TR_UOP_PUSH_VALUE (VText "abc"); u]
          (mkCONTEXT [] es)
        = Ok (Some (VNumeric 1), mkCONTEXT [] es))
    /\ (m_op u = TR_OP_NOT_EQUAL ->
        Run [UOP_value TR_UOP_PUSH_VALUE (VText "abc");
             UOP_value TR_UOP_PUSH_VALUE (VText "xyz"); u]
          (mkCONTEXT [] es)
        = Ok (Some (VNumeric 1), mkCONTEXT [] es)).
Proof.
  intros Hmask Hop Hbin Hexec x y.
  exists (binary_result (m_op u) arg1 arg2).
  destruct (binary_result_table arg1 arg2 Hbin)
    as (A & B & C & D & E & F & G & H & I & J & K & L).
  assert (Hpush : TR_UOP_PUSH_VALUE <> TR_UOP_PUSH_VAR).
  { unfold exec_case_labels in Hexec. split_labels Hexec. intro E'. clash E'. }
  split; [apply Exec_binary; assumption|].
  repeat split; intros Hu; try (rewrite Hu; assumption).
  - unfold Run. cbn [Run_ops].
    rewrite (Exec_push_value _ _ Hpush). cbn [bind].
    rewrite (Exec_push_value _ _ Hpush). cbn [bind].
    unfold Push. cbn [m_stack ctx_errorStatus].
    rewrite (Exec_binary _ _ _ _ _ Hmask Hop). cbn [bind].
    destruct (binary_result_table (Some (VText "abc")) (Some (VText "abc")) Hbin)
      as (_ & _ & _ & _ & _ & _ & _ & _ & I' & _).
    rewrite Hu, I'. reflexivity.
  - unfold Run. cbn [Run_ops].
    rewrite (Exec_push_value _ _ Hpush). cbn [bind].
    rewrite (Exec_push_value _ _ Hpush). cbn [bind].
    unfold Push. cbn [m_stack ctx_errorStatus].
    rewrite (Exec_binary _ _ _ _ _ Hmask Hop). cbn [bind].
    destruct (binary_result_table (Some (VText "abc")) (Some (VText "xyz")) Hbin)
      as (_ & _ & _ & _ & _ & _ & _ & _ & _ & J' & _).
    rewrite Hu, J'. reflexivity.
Qed.

(** The tests the code generator's [switch] makes, on its own labels. *)
Lemma node_label_tests :
  NoDup node_case_labels ->
  (TR_STRUCT_REF =? TR_OP_FUNC_CALL) = false
  /\ (TR_NUMBER =? TR_OP_FUNC_CALL) = false
  /\ (TR_NUMBER =? TR_STRUCT_REF) = false
  /\ (TR_STRING =? TR_OP_FUNC_CALL) = false
  /\ (TR_STRING =? TR_STRUCT_REF) = false
  /\ (TR_STRING =? TR_NUMBER) = false
  /\ (TR_IDENTIFIER =? TR_OP_FUNC_CALL) = false
  /\ (TR_IDENTIFIER =? TR_STRUCT_REF) = false
  /\ (TR_IDENTIFIER =? TR_NUMBER) = false
  /\ (TR_IDENTIFIER =? TR_STRING) = false
  /\ (TR_OP_FUNC_CALL =? TR_IDENTIFIER) = false.
Proof.
  intros H. unfold node_case_labels in H. split_labels H.
  repeat split; apply Z.eqb_neq; intro E; try clash E.
  symmetry in E. clash E.
Qed.

End VM_facts.

Ltac label_tests H :=
  let T := fresh "T" in
  pose proof (node_label_tests H) as T;
  destruct T as (?T & ?T & ?T & ?T & ?T & ?T & ?T & ?T & ?T & ?T & ?T).

Ltac use_tests :=
  repeat match goal with
         | E : op _ = _ |- _ => rewrite E
         | E : (_ =? _) = false |- _ => rewrite E
         | E : str _ = Some _ |- _ => rewrite E
         end;
  rewrite ?Z.eqb_refl.


(** * Properties of the code generator and of [Compile] *)

Section Compiler_facts.

Context {oc : OPCODES} {tk : TOKENS} {host : HOST}.
Variable PARSER : Type.
Variable Parse : Z -> T_TOKEN -> COMPILER PARSER -> COMPILER PARSER.

Abbreviation COMPILER := (COMPILER PARSER).
Abbreviation GEN := (GEN PARSER).

Lemma extends_refl (s : GEN) : extends s s.
Proof.
  split; [exists []; now rewrite app_nil_r | auto].
Qed.

Lemma extends_trans (s1 s2 s3 : GEN) :
  extends s1 s2 -> extends s2 s3 -> extends s1 s3.
Proof.
  intros [[e1 H1] P1] [[e2 H2] P2]. split; [|auto].
  exists (e1 ++ e2). now rewrite H2, H1, app_assoc.
Qed.

Lemma extends_report (st : COMPILATION_STAGE) (msg : string) (pos : Z)
    (s : GEN) :
  extends s (gen_report st msg pos s).
Proof.
  split; [exists []; simpl; now rewrite app_nil_r | reflexivity].
Qed.

Ltac break_in H :=
  match type of H with
  | context [match ?x with _ => _ end] => destruct x eqn:?
  end.

Ltac crush_ok H :=
  unfold bind, assert, deref, mark_visited in H;
  repeat (break_in H; try discriminate H);
  try (injection H as <- <-).

Lemma extends_set_preflight (pf : CONTEXT) (s : GEN) :
  extends s (gen_set_preflight pf s).
Proof.
  split; [exists []; simpl; now rewrite app_nil_r | auto].
Qed.

Lemma extends_set_stack (st : list NODE_PTR) (s : GEN) :
  extends s (gen_set_stack st s).
Proof.
  split; [exists []; simpl; now rewrite app_nil_r | auto].
Qed.

Ltac extends_steps :=
  repeat first
    [ apply extends_refl
    | apply extends_report
    | apply extends_set_preflight
    | apply extends_set_stack
    | eapply extends_trans; [|apply extends_report]
    | eapply extends_trans; [|apply extends_set_stack]
    | eapply extends_trans; [|apply extends_set_preflight] ].

Lemma gen_preflight_extends (f : FUNC_CALL_REF) (vref : option VAR_REF)
    (n : TREE_NODE) (param : TREE) (s s' : GEN) :
  gen_preflight f vref n param s = Ok s' -> extends s s'.
Proof.
  unfold gen_preflight. intros H. unfold bind in H.
  repeat (break_in H; try discriminate H); injection H as <-; extends_steps.
Qed.

Lemma gen_property_extends (n nl : TREE_NODE) (ll lr : TREE) (nr : TREE_NODE)
    (rl rr t' : TREE) (s s' : GEN) :
  gen_property n nl ll lr nr rl rr s = Ok (t', s') -> extends s s'.
Proof.
  unfold gen_property. intros H. crush_ok H; extends_steps.
Qed.

Lemma gen_method_extends (node : NODE_PTR) (n nl : TREE_NODE) (ll lr : TREE)
    (nr : TREE_NODE) (rl rr t' : TREE) (s s' : GEN) :
  gen_method node n nl ll lr nr rl rr s = Ok (t', s') -> extends s s'.
Proof.
  unfold gen_method. intros H. unfold bind, deref in H.
  destruct (str (node_value nl)) as [itemName|]; [|discriminate].
  destruct rl as [|nrl rll rlr]; [discriminate|].
  destruct (str (node_value nrl)) as [functionName|]; [|discriminate].
  match type of H with
  | match ?m with _ => _ end = _ => destruct m as [s1|] eqn:E1; [|discriminate]
  end.
  destruct (mark_visited rr) as [rr'|]; [|discriminate].
  injection H as _ <-.
  assert (extends s s1).
  { destruct (CreateFuncCall functionName) as [f|].
    - apply gen_preflight_extends in E1.
      eapply extends_trans; [|exact E1].
      destruct (CreateVarRef itemName EmptyString); extends_steps.
    - injection E1 as <-.
      destruct (CreateVarRef itemName EmptyString); extends_steps. }
  eapply extends_trans; [eassumption | apply extends_set_stack].
Qed.

Lemma gen_visit_extends (node : NODE_PTR) (t t' : TREE) (s s' : GEN) :
  gen_visit node t s = Ok (t', s') -> extends s s'.
Proof.
  unfold gen_visit. intros H.
  destruct t as [|n l r]; [discriminate|].
  destruct (op n =? TR_OP_FUNC_CALL).
  { crush_ok H. apply extends_refl. }
  destruct (op n =? TR_STRUCT_REF).
  { unfold gen_struct_ref in H.
    destruct l as [|nl ll lr]; [discriminate|].
    unfold bind, assert in H.
    destruct (op nl =? TR_IDENTIFIER); [|discriminate].
    destruct r as [|nr rl rr]; [discriminate|].
    destruct (op nr =? TR_IDENTIFIER).
    { eapply gen_property_extends; eassumption. }
    destruct (op nr =? TR_OP_FUNC_CALL).
    { eapply gen_method_extends; eassumption. }
    injection H as _ <-. apply extends_refl. }
  crush_ok H; extends_steps.
Qed.

Lemma extends_AddOp (u : UOP) (s : GEN) : extends s (AddOp u s).
Proof.
  split; [exists [u]; reflexivity | auto].
Qed.

Lemma gen_finish_extends (node : NODE_PTR) (t t' : TREE) (s s' : GEN) :
  gen_finish node t s = Ok (t', s') -> extends s s'.
Proof.
  unfold gen_finish. intros H.
  destruct t as [|n l r]; [discriminate|].
  destruct (negb (isTerminal n)).
  - crush_ok H; extends_steps.
  - cbn [uop set_isVisited] in H. destruct (uop n) as [u|].
    + injection H as _ <-.
      eapply extends_trans; [apply extends_AddOp | apply extends_set_stack].
    + injection H as _ <-. apply extends_set_stack.
Qed.

Lemma gen_iter_extends (s s' : GEN) : gen_iter s = Ok s' -> extends s s'.
Proof.
  unfold gen_iter. intros H.
  destruct (g_stack s) as [|node st] eqn:Est.
  - injection H as <-. apply extends_refl.
  - unfold bind in H.
    destruct (gen_visit node (node_at (m_tree (g_compiler s)) node) s)
      as [[t1 s1]|] eqn:E1; [|discriminate].
    destruct (gen_finish node t1 s1) as [[t2 s2]|] eqn:E2; [|discriminate].
    injection H as <-.
    apply gen_visit_extends in E1. apply gen_finish_extends in E2.
    eapply extends_trans; [exact E1|].
    eapply extends_trans; [exact E2|].
    split; [exists []; simpl; now rewrite app_nil_r | auto].
Qed.

Lemma gen_loop_extends (fuel : nat) (s s' : GEN) :
  gen_loop fuel s = Ok s' -> extends s s'.
Proof.
  revert s. induction fuel as [|fuel IH]; intros s H; simpl in H.
  - destruct (g_stack s); [|discriminate]. injection H as <-.
    apply extends_refl.
  - destruct (g_stack s).
    + injection H as <-. apply extends_refl.
    + unfold bind in H. destruct (gen_iter s) as [s1|] eqn:E; [|discriminate].
      eapply extends_trans; [apply gen_iter_extends; exact E | apply IH, H].
Qed.

(** [generateUCode] has one value to return. *)
Lemma generateUCode_true (fuel : nat) (c c' : COMPILER) (aCode code' : list UOP)
    (pf pf' : CONTEXT) (b : bool) :
  generateUCode fuel c aCode pf = Ok (b, c', code', pf') ->
  b = true
  /\ (exists emitted, code' = aCode ++ emitted)
  /\ (pending c = true -> pending c' = true).
Proof.
  unfold generateUCode. intros H. destruct (m_tree c) eqn:Et.
  - injection H as <- <- <- <-. repeat split; eauto.
  - unfold bind in H.
    match type of H with
    | match ?m with _ => _ end = _ => destruct m as [s|] eqn:E; [|discriminate]
    end.
    injection H as <- <- <- <-. apply gen_loop_extends in E.
    destruct E as [E1 E2]. repeat split; auto.
Qed.

Lemma Compile_front_end (fuel : nat) (aString : string) (c : COMPILER)
    (aCode : list UOP) (pf : CONTEXT) :
  Compile Parse fuel aString c aCode pf
  = ('(go, c1) <- front_end Parse fuel aString c ;;
     if go then generateUCode fuel c1 aCode pf else Ok (false, c1, aCode, pf)).
Proof.
  unfold Compile, front_end.
  destruct (String.eqb aString EmptyString); [reflexivity|].
  unfold bind. destruct (parse_loop Parse fuel _) as [[go c1]|]; reflexivity.
Qed.

(** C7.  The empty text compiles to the single instruction that pushes the
    literal 1.0, and that program runs to the numeric value 1.0. *)
Theorem C7_empty_input (fuel : nat) (c : COMPILER) (pf ctx : CONTEXT) :
  TR_UOP_PUSH_VALUE <> TR_UOP_PUSH_VAR ->
  m_stack ctx = [] ->
  exists c',
    Compile Parse fuel EmptyString c [] pf
    = Ok (true, c', [UOP_value TR_UOP_PUSH_VALUE (VNumeric 1)], pf)
    /\ Run [UOP_value TR_UOP_PUSH_VALUE (VNumeric 1)] ctx
       = Ok (Some (VNumeric 1), ctx).
Proof.
  intros Hpush Hstack. eexists. split.
  - unfold Compile. cbn. reflexivity.
  - unfold Run. cbn [Run_ops]. rewrite (Exec_push_value _ _ Hpush).
    cbn [bind]. unfold Push, SP, Pop. cbn [m_stack ctx_errorStatus].
    rewrite Hstack. cbn. destruct ctx as [st es]. cbn in *. now subst.
Qed.

(** ** The error status slot *)

Lemma pending_reportError (st : COMPILATION_STAGE) (msg : string) (pos : Z)
    (c : COMPILER) :
  pending (reportError st msg pos c) = true.
Proof. reflexivity. Qed.

Lemma pending_Clear (c : COMPILER) : pending (Clear c) = pending c.
Proof. reflexivity. Qed.

Lemma pending_newString (aString : string) (c : COMPILER) :
  pending (newString aString c) = pending c.
Proof. reflexivity. Qed.

Lemma pending_extractNumber (c : COMPILER) :
  pending (snd (extractNumber c)) = pending c.
Proof.
  unfold extractNumber. destruct (extractNumber_loop _ _ _ _ _ _). reflexivity.
Qed.

Lemma pending_resolveUnits (c : COMPILER) :
  pending (snd (resolveUnits c)) = pending c.
Proof.
  unfold resolveUnits. destruct (resolveUnits_from _ _ _). reflexivity.
Qed.

Lemma pending_lexDefault (tok : T_TOKEN) (c : COMPILER) :
  pending c = true -> pending (snd (lexDefault tok c)) = true.
Proof.
  intros H. unfold lexDefault.
  destruct (Done (m_tokenizer c)); [exact H|].
  set (c1 := set_tokenizer _ c).
  assert (H1 : pending c1 = true) by exact H.
  clearbody c1.
  destruct (Ascii.eqb _ Ascii.zero); [exact H1|].
  destruct (isdigit _).
  { pose proof (pending_extractNumber c1) as E.
    destruct (extractNumber c1) as [current c2]. cbn [snd] in *. congruence. }
  pose proof (pending_resolveUnits c1) as E.
  destruct (resolveUnits c1) as [convertFrom c2]. cbn [snd] in E.
  assert (H2 : pending c2 = true) by congruence.
  unfold two_char, advance.
  repeat match goal with
         | |- context [if ?b then _ else _] => destruct b; [exact H2|]
         end.
  destruct (single_char_token _); [exact H2 | reflexivity].
Qed.

Lemma pending_getToken (c : COMPILER) :
  pending c = true -> pending (snd (getToken c)) = true.
Proof.
  intros H. unfold getToken.
  assert (Hlex : forall rv (c0 : COMPILER), pending c0 = true ->
            pending (snd (match m_lexerState c0 with
                          | LS_DEFAULT => lexDefault rv c0
                          | LS_STRING => lexString c0
                          end)) = true).
  { intros rv c0 H0. destruct (m_lexerState c0).
    - now apply pending_lexDefault.
    - exact H0. }
  pose proof (Hlex (token_of 0 None 0) c H) as H1.
  destruct (match m_lexerState c with
            | LS_DEFAULT => lexDefault (token_of 0 None 0) c
            | LS_STRING => lexString c
            end) as [[done rv] c1].
  cbn [snd] in H1. destruct done; [exact H1|].
  pose proof (Hlex rv c1 H1) as H2.
  destruct (match m_lexerState c1 with
            | LS_DEFAULT => lexDefault rv c1
            | LS_STRING => lexString c1
            end) as [[done2 rv2] c2].
  exact H2.
Qed.

(** C9, as the code has it.  Every call of [reportError] overwrites the
    slot with its own stage, message and position (the compiler's source
    position, where the position given is -1), whatever the slot held: of
    two calls the later one wins, so one call of [Compile] can set the slot
    more than once.  Once the flag is set, it stays set: [Clear],
    [newString] and so the start of [Compile] leave it as it is.  With the
    flag set from before (and a parser that does not clear it) [Compile] of
    a text that is not empty returns false after its first token, and
    [Compile] of the empty text returns true with the flag still set. *)
Theorem C9_error_flag_is_never_cleared (fuel : nat) (aString : string)
    (c : COMPILER) (aCode : list UOP) (pf : CONTEXT) :
  pending c = true ->
  keeps_pending Parse ->
  (forall st msg pos (c0 : COMPILER),
      m_errorStatus (reportError st msg pos c0)
      = mkERROR_STATUS true st msg
          (if pos =? -1 then m_sourcePos c0 else pos))
  /\ (forall st1 msg1 pos1 st2 msg2 pos2 (c0 : COMPILER),
        m_errorStatus
          (reportError st2 msg2 pos2 (reportError st1 msg1 pos1 c0))
        = mkERROR_STATUS true st2 msg2
            (if pos2 =? -1 then m_sourcePos c0 else pos2))
  /\ pending (Clear c) = true
  /\ pending (newString aString c) = true
  /\ (aString <> EmptyString ->
      exists c',
        Compile Parse (S fuel) aString c aCode pf = Ok (false, c', aCode, pf)
        /\ pending c' = true)
  /\ (aString = EmptyString ->
      exists c' code',
        Compile Parse fuel aString c aCode pf = Ok (true, c', code', pf)
        /\ pending c' = true).
Proof.
  intros Hc Hparse.
  split; [reflexivity|]. split; [reflexivity|].
  split; [exact Hc|]. split; [exact Hc|]. split.
  - intros Hne. unfold Compile.
    destruct (String.eqb_spec aString EmptyString) as [E|_]; [contradiction|].
    cbn [parse_loop].
    set (c0 := set_sourcePos _ _).
    assert (H0 : pending c0 = true) by exact Hc.
    pose proof (pending_getToken c0 H0) as H1.
    destruct (getToken c0) as [tok c1]. cbn [snd] in H1.
    pose proof (Hparse (token tok) tok c1 H1) as H2.
    unfold pending in H2. rewrite H2. cbn [bind].
    eexists. split; [reflexivity | exact H2].
  - intros ->. unfold Compile. cbn. eexists. eexists.
    split; [reflexivity | exact Hc].
Qed.

(** ** Single nodes *)

(** C5, as the code has it.  For [item.prop], with each identifier node
    positioned just past its text: when the resolver has no such item the
    code generator records a CodeGen error at the offset where [item]
    starts, and when the reference it returns has the parse-error type it
    records a CodeGen error at the offset where [prop] starts.  In both
    cases it emits the push-variable instruction and returns true. *)
Theorem C5_item_prop_errors (fuel : nat) (c : COMPILER) (aCode : list UOP)
    (pf : CONTEXT) (n nl nr : TREE_NODE) (ll lr rl rr : TREE)
    (item prop : string) (item_pos prop_pos : Z) :
  NoDup node_case_labels ->
  m_tree c = Node n (Node nl ll lr) (Node nr rl rr) ->
  op n = TR_STRUCT_REF ->
  op nl = TR_IDENTIFIER ->
  op nr = TR_IDENTIFIER ->
  str (node_value nl) = Some item ->
  str (node_value nr) = Some prop ->
  node_srcPos nl = item_pos + strlen item ->
  node_srcPos nr = prop_pos + strlen prop ->
  0 <= item_pos ->
  0 <= prop_pos ->
  exists c',
    generateUCode (S fuel) c aCode pf
    = Ok (true, c',
          aCode ++ [UOP_ref TR_UOP_PUSH_VAR (CreateVarRef item prop)], pf)
    /\ (CreateVarRef item prop = None ->
        m_errorStatus c'
        = mkERROR_STATUS true CST_CODEGEN (quoted "Unrecognized item '" item)
            item_pos)
    /\ (forall v, CreateVarRef item prop = Some v ->
        GetType v = VT_PARSE_ERROR ->
        m_errorStatus c'
        = mkERROR_STATUS true CST_CODEGEN
            (quoted "Unrecognized property '" prop) prop_pos).
Proof.
  intros Hlab Htree Hn Hnl Hnr Hitem Hprop Hposl Hposr Hil Hpr.
  label_tests Hlab.
  assert (Hl : (item_pos + strlen item - strlen item =? -1) = false)
    by (apply Z.eqb_neq; lia).
  assert (Hr : (prop_pos + strlen prop - strlen prop =? -1) = false)
    by (apply Z.eqb_neq; lia).
  unfold generateUCode. rewrite Htree.
  unfold prepareTree. cbn [prepareTree_from set_isVisited op bind].
  use_tests.
  cbn [gen_loop g_stack bind]. unfold gen_iter.
  cbn [g_stack g_compiler m_tree set_tree node_at].
  unfold gen_visit. cbn [op set_isVisited]. use_tests.
  unfold gen_struct_ref. cbn [op set_isVisited assert bind]. use_tests.
  cbn [assert bind]. unfold gen_property.
  cbn [node_value set_isVisited deref bind]. use_tests.
  cbn [deref bind].
  destruct (CreateVarRef item prop) as [v|] eqn:Ev.
  - destruct (VAR_TYPE_T_eqb (GetType v) VT_PARSE_ERROR) eqn:Ety.
    + cbn -[strlen quoted Z.sub Z.add]. destruct fuel; cbn -[strlen quoted Z.sub Z.add];
        (eexists; split; [reflexivity|]); (split; [discriminate|]);
        intros v' _ _; unfold reportError; cbn -[strlen quoted Z.sub Z.add];
        rewrite Hposr, Hr; f_equal; lia.
    + cbn -[strlen quoted Z.sub Z.add]. destruct fuel; cbn -[strlen quoted Z.sub Z.add];
        (eexists; split; [reflexivity|]); (split; [discriminate|]);
        intros v' Hv' Hty; injection Hv' as <-; rewrite Hty in Ety; discriminate.
  - cbn -[strlen quoted Z.sub Z.add]. destruct fuel; cbn -[strlen quoted Z.sub Z.add];
      (eexists; split; [reflexivity|]); (split; [|discriminate]);
      intros _; unfold reportError; cbn -[strlen quoted Z.sub Z.add];
      rewrite Hposl, Hl; f_equal; lia.
Qed.

(** C6, as the code has it.  For a bare identifier the code generator calls
    [CreateVarRef( name, "" )] and, when that returns nothing, records a
    CodeGen error ("Unrecognized item") at the identifier's offset.  The
    instruction it emits carries the reference but has the opcode
    [TR_UOP_PUSH_VALUE], not [TR_UOP_PUSH_VAR]: executed, it pushes its null
    literal and never fetches the variable. *)
Theorem C6_identifier_emits_push_value (fuel : nat) (c : COMPILER)
    (aCode : list UOP) (pf : CONTEXT) (n : TREE_NODE) (l r : TREE)
    (name : string) (pos : Z) :
  NoDup node_case_labels ->
  NoDup exec_case_labels ->
  m_tree c = Node n l r ->
  op n = TR_IDENTIFIER ->
  str (node_value n) = Some name ->
  node_srcPos n = pos + strlen name ->
  0 <= pos ->
  exists c',
    generateUCode (S fuel) c aCode pf
    = Ok (true, c',
          aCode ++ [UOP_ref TR_UOP_PUSH_VALUE (CreateVarRef name EmptyString)],
          pf)
    /\ (CreateVarRef name EmptyString = None ->
        m_errorStatus c'
        = mkERROR_STATUS true CST_CODEGEN (quoted "Unrecognized item '" name)
            pos)
    /\ (forall ctx,
        Exec (UOP_ref TR_UOP_PUSH_VALUE (CreateVarRef name EmptyString)) ctx
        = Ok (Push None ctx)).
Proof.
  intros Hlab Hexec Htree Hn Hname Hpos Hp.
  label_tests Hlab.
  assert (Hl : (pos + strlen name - strlen name =? -1) = false)
    by (apply Z.eqb_neq; lia).
  assert (Hpush : (TR_UOP_PUSH_VALUE =? TR_UOP_PUSH_VAR) = false).
  { unfold exec_case_labels in Hexec. split_labels Hexec.
    apply Z.eqb_neq. intro E. clash E. }
  unfold generateUCode. rewrite Htree.
  unfold prepareTree. cbn [prepareTree_from set_isVisited op bind].
  cbn [gen_loop g_stack bind]. unfold gen_iter.
  cbn [g_stack g_compiler m_tree set_tree node_at].
  unfold gen_visit. cbn [op set_isVisited node_value]. use_tests.
  cbn [deref bind].
  assert (Hexe : forall ctx,
            Exec (UOP_ref TR_UOP_PUSH_VALUE (CreateVarRef name EmptyString)) ctx
            = Ok (Push None ctx)).
  { intros ctx. unfold Exec, UOP_ref. cbn [m_op m_value].
    now rewrite Hpush, Z.eqb_refl. }
  destruct (CreateVarRef name EmptyString) as [v|] eqn:Ev.
  - cbn -[strlen quoted Z.sub Z.add].
    destruct fuel; cbn -[strlen quoted Z.sub Z.add];
      (eexists; split; [reflexivity|]); (split; [discriminate | exact Hexe]).
  - cbn -[strlen quoted Z.sub Z.add].
    destruct fuel; cbn -[strlen quoted Z.sub Z.add];
      (eexists; split; [reflexivity|]); (split; [|exact Hexe]);
      intros _; unfold reportError; cbn -[strlen quoted Z.sub Z.add];
      rewrite Hpos, Hl; f_equal; lia.
Qed.

(** C4, as the code has it.  For [object.function( parameter )] whose
    receiver and function both resolve, the first turn of the code
    generator's loop preflights the call: it pushes a parameter text on the
    preflight context, invokes the function and pops the value returned.
    The test that follows is inverted: with no error pending before, the
    compiler has a (CodeGen) error pending afterwards exactly when the
    preflight context has none, and its message is then the preflight
    context's. *)
Theorem C4_preflight_test_is_inverted (c : COMPILER) (aCode : list UOP)
    (pf pf1 : CONTEXT) (n nl nr nf np : TREE_NODE)
    (ll lr fl fr pl pr : TREE) (item fname : string) (v : VAR_REF)
    (f : FUNC_CALL_REF) :
  NoDup node_case_labels ->
  m_tree c = Node n (Node nl ll lr) (Node nr (Node nf fl fr) (Node np pl pr)) ->
  op n = TR_STRUCT_REF ->
  op nl = TR_IDENTIFIER ->
  op nr = TR_OP_FUNC_CALL ->
  str (node_value nl) = Some item ->
  str (node_value nf) = Some fname ->
  CreateVarRef item EmptyString = Some v ->
  CreateFuncCall fname = Some f ->
  preflight_call f (Some v)
    (match str (node_value n) with Some p => p | None => EmptyString end) pf
  = Ok pf1 ->
  pending c = false ->
  exists s1,
    gen_steps 1 (mkGEN c [[]] aCode pf) = Ok s1
    /\ g_preflight s1 = pf1
    /\ g_stack s1 = [[true; true]; [true]]
    /\ pending (g_compiler s1) = negb (IsErrorPending pf1)
    /\ (IsErrorPending pf1 = false ->
        stage (m_errorStatus (g_compiler s1)) = CST_CODEGEN
        /\ message (m_errorStatus (g_compiler s1)) = message (GetError pf1)).
Proof.
  intros Hlab Htree Hn Hnl Hnr Hitem Hfname Hv Hf Hpre Hpend.
  label_tests Hlab.
  cbn [gen_steps]. unfold gen_iter.
  cbn [g_stack g_compiler m_tree set_tree]. rewrite Htree. cbn [node_at].
  unfold gen_visit. use_tests.
  unfold gen_struct_ref. use_tests. cbn [assert bind].
  unfold gen_method. use_tests. cbn [deref bind]. rewrite Hv, Hf.
  unfold gen_preflight. cbn [g_preflight]. rewrite Hpre. cbn [bind].
  destruct (IsErrorPending pf1) eqn:Epf; cbn [negb mark_visited bind];
    unfold gen_finish;
    cbn -[strlen quoted Z.sub Z.add preflight_loc];
    (eexists; split; [reflexivity|]);
    cbn -[strlen quoted Z.sub Z.add preflight_loc];
    repeat split; auto; discriminate.
Qed.

End Compiler_facts.

(** * Properties of the tokenizer *)

Section Tokenizer_facts.

Lemma get_in_range (s : string) (n : nat) :
  (n < String.length s)%nat -> exists ch, String.get n s = Some ch.
Proof.
  revert n. induction s as [|a s IH]; intros n H; simpl in *.
  - lia.
  - destruct n; [eauto | apply IH; lia].
Qed.

(** What a successful [MatchAhead] says of the text under the cursor. *)
Lemma MatchAhead_true (pattern : string) (stopCond : ascii -> bool)
    (t : TOKENIZER) :
  MatchAhead pattern stopCond t = true <->
  (m_pos t + String.length pattern <= String.length (m_str t))%nat
  /\ substring (m_pos t) (String.length pattern) (m_str t) = pattern
  /\ ((m_pos t + String.length pattern = String.length (m_str t))%nat
      \/ stopCond (char_at (m_str t) (m_pos t + String.length pattern))
         = true).
Proof.
  unfold MatchAhead, strlen.
  destruct (Z.ltb_spec (Z.of_nat (String.length (m_str t)) - Z.of_nat (m_pos t))
              (Z.of_nat (String.length pattern))) as [Hlt|Hge].
  - split; [discriminate | intros (H & _); lia].
  - destruct (String.eqb_spec
                (substring (m_pos t) (String.length pattern) (m_str t)) pattern)
      as [Heq|Hne].
    + rewrite orb_true_iff, Z.eqb_eq. split.
      * intros [H|H]; (split; [lia|]); (split; [exact Heq|]);
          [left; lia | right; exact H].
      * intros (_ & _ & [H|H]); [left; lia | right; exact H].
    + split; [discriminate | intros (_ & H & _); contradiction].
Qed.

(** The loop of [resolveUnits] returns the first unit, in the order of the
    list, that matches. *)
Lemma resolveUnits_from_first (units : list string) (k : Z) (t t' : TOKENIZER)
    (id : Z) :
  resolveUnits_from units k t = (id, t') ->
  (id = -1 /\ t' = t
   /\ forall name, In name units -> MatchAhead name not_alnum t = false)
  \/ (exists i name,
        id = k + Z.of_nat i
        /\ nth_error units i = Some name
        /\ t' = NextChar (String.length name) t
        /\ MatchAhead name not_alnum t = true
        /\ forall j other, (j < i)%nat -> nth_error units j = Some other ->
           MatchAhead other not_alnum t = false).
Proof.
  revert k. induction units as [|unitName rest IH]; intros k H; simpl in H.
  - injection H as <- <-. left. repeat split; auto. intros name [].
  - destruct (MatchAhead unitName not_alnum t) eqn:E.
    + injection H as <- <-. right. exists 0%nat, unitName.
      repeat split; auto; [lia|]. intros j other Hj. lia.
    + apply IH in H. destruct H as [(-> & -> & Hnone)|(i & name & Hi)].
      * left. repeat split; auto. intros name [<-|Hin]; auto.
      * destruct Hi as (-> & Hnth & -> & Hm & Hfirst).
        right. exists (S i), name. repeat split; auto; [lia|].
        intros [|j] other Hj Hnth'; simpl in Hnth'.
        -- now injection Hnth' as <-.
        -- apply (Hfirst j); [lia | exact Hnth'].
Qed.

(** Of two names that match at the cursor, one made of letters and digits
    is not the longer. *)
Lemma MatchAhead_longest (name other : string) (t : TOKENIZER) :
  MatchAhead name not_alnum t = true ->
  MatchAhead other not_alnum t = true ->
  all_alnum other ->
  (String.length other <= String.length name)%nat.
Proof.
  intros Hn Ho Hal.
  apply MatchAhead_true in Hn. destruct Hn as (Hn1 & Hn2 & Hn3).
  apply MatchAhead_true in Ho. destruct Ho as (Ho1 & Ho2 & _).
  destruct (Nat.le_gt_cases (String.length other) (String.length name))
    as [|Hlt]; [assumption | exfalso].
  destruct Hn3 as [Hend|Hstop]; [lia|].
  destruct (get_in_range other (String.length name) Hlt) as [ch Hch].
  pose proof (Hal _ _ Hch) as Halnum.
  rewrite <- Ho2 in Hch. rewrite substring_correct1 in Hch by exact Hlt.
  unfold not_alnum, char_at in Hstop.
  rewrite Nat.add_comm, Hch, Halnum in Hstop. discriminate.
Qed.

(** C8, as the code has it.  [resolveUnits] takes the first unit name, in
    the configured order, that matches at the cursor (not the longest); a
    name matches only where its text stands under the cursor and is
    followed by the end of the input or a character that is not
    alphanumeric, so that a name followed by an alphanumeric character is
    never taken for a unit.  The unit taken is the longest of the matching
    names that are made of letters and digits. *)
Theorem C8_unit_matching (units : list string) (t t' : TOKENIZER) (id : Z) :
  resolveUnits_from units 0 t = (id, t') ->
  ((id = -1 /\ t' = t
    /\ forall name, In name units -> MatchAhead name not_alnum t = false)
   \/ (exists i name,
         id = Z.of_nat i
         /\ nth_error units i = Some name
         /\ t' = NextChar (String.length name) t
         /\ (forall j other, (j < i)%nat -> nth_error units j = Some other ->
             MatchAhead other not_alnum t = false)
         /\ substring (m_pos t) (String.length name) (m_str t) = name
         /\ ((m_pos t + String.length name = String.length (m_str t))%nat
             \/ isalnum (char_at (m_str t) (m_pos t + String.length name))
                = false)
         /\ (forall other, In other units -> all_alnum other ->
             MatchAhead other not_alnum t = true ->
             (String.length other <= String.length name)%nat)))
  /\ (forall name,
      (m_pos t + String.length name < String.length (m_str t))%nat ->
      isalnum (char_at (m_str t) (m_pos t + String.length name)) = true ->
      MatchAhead name not_alnum t = false).
Proof.
  intros H. split.
  - apply resolveUnits_from_first in H.
    destruct H as [H|(i & name & -> & Hnth & -> & Hm & Hfirst)]; [left; exact H|].
    right. exists i, name.
    pose proof Hm as Hm'. apply MatchAhead_true in Hm'.
    destruct Hm' as (_ & Hsub & Hstop).
    repeat split; auto.
    + destruct Hstop as [He|Hs]; [left; exact He | right].
      unfold not_alnum in Hs. now apply negb_true_iff in Hs.
    + intros other _ Hal Ho. eapply MatchAhead_longest; eassumption.
  - intros name Hlt Halnum.
    destruct (MatchAhead name not_alnum t) eqn:E; [|reflexivity].
    apply MatchAhead_true in E. destruct E as (_ & _ & [He|Hs]); [lia|].
    unfold not_alnum in Hs. rewrite Halnum in Hs. discriminate.
Qed.

End Tokenizer_facts.

(** * The unary operator *)

Section Unary_facts.

Context {oc : OPCODES}.

Lemma bind_Ok {A : Type} (m : result A) : (x <- m ;; Ok x) = m.
Proof. destruct m; reflexivity. Qed.

(** C10, as the code has it.  An opcode that matches the unary mask (and is
    no binary operator) is a no-op of [UOP::Exec]: nothing is popped and
    nothing is pushed.  A program that ends in it leaves the stack exactly
    as its operand program left it, the operand un-negated on top, and
    returns what the operand program returns: the depth of the stack does
    not change. *)
Theorem C10_unary_not_is_a_no_op (u : UOP) (operand : list UOP)
    (ctx : CONTEXT) :
  has_mask (m_op u) TR_OP_UNARY_MASK = true ->
  has_mask (m_op u) TR_OP_BINARY_MASK = false ->
  operator_code (m_op u) ->
  Exec u ctx = Ok ctx
  /\ Run_ops (operand ++ [u]) ctx = Run_ops operand ctx
  /\ Run (operand ++ [u]) ctx = Run operand ctx.
Proof.
  intros Hun Hbin Hop.
  assert (Hexec : forall c, Exec u c = Ok c).
  { intros c. rewrite (Exec_operator_code _ _ Hop). unfold Exec_operator.
    now rewrite Hbin, Hun. }
  assert (Hrun : Run_ops (operand ++ [u]) ctx = Run_ops operand ctx).
  { rewrite Run_ops_app. rewrite <- (bind_Ok (Run_ops operand ctx)) at 2.
    unfold bind. destruct (Run_ops operand ctx) as [c|e]; [|reflexivity].
    cbn [Run_ops]. rewrite Hexec. reflexivity. }
  repeat split; [apply Hexec | exact Hrun |].
  unfold Run. now rewrite Hrun.
Qed.

End Unary_facts.

(** * The loop of the code generator *)

Section Tree_store.

Lemma node_at_app (t : TREE) (p q : NODE_PTR) :
  node_at t (p ++ q) = node_at (node_at t p) q.
Proof.
  revert t. induction p as [|i p IH]; intros t; cbn.
  - reflexivity.
  - destruct t as [|n l r]; [now destruct q | apply IH].
Qed.

Lemma replace_at_app (t : TREE) (p q : NODE_PTR) (s : TREE) :
  replace_at t (p ++ q) s = replace_at t p (replace_at (node_at t p) q s).
Proof.
  revert t. induction p as [|i p IH]; intros t; cbn.
  - reflexivity.
  - destruct t as [|n l r]; [reflexivity|]. destruct i; now rewrite IH.
Qed.

Lemma node_at_replace_at (t : TREE) (p : NODE_PTR) (s : TREE) :
  node_at t p <> Nil -> node_at (replace_at t p s) p = s.
Proof.
  revert t. induction p as [|i p IH]; intros t H; cbn in *.
  - reflexivity.
  - destruct t as [|n l r]; [contradiction|]. destruct i; cbn; now apply IH.
Qed.

Lemma replace_at_twice (t : TREE) (p : NODE_PTR) (a b : TREE) :
  replace_at (replace_at t p a) p b = replace_at t p b.
Proof.
  revert t. induction p as [|i p IH]; intros t; cbn.
  - reflexivity.
  - destruct t as [|n l r]; [reflexivity|]. destruct i; cbn; now rewrite IH.
Qed.

End Tree_store.

Section Balance.

Context {oc : OPCODES} {host : HOST}.
Variable PARSER : Type.

Abbreviation COMPILER := (COMPILER PARSER).
Abbreviation GEN := (GEN PARSER).

Hypothesis node_labels : NoDup node_case_labels.
Hypothesis exec_labels : NoDup exec_case_labels.

(** ** Turns of the loop *)

Lemma runs_refl (s : GEN) : runs 0 s s.
Proof. intros fuel. reflexivity. Qed.

Lemma runs_trans (k1 k2 : nat) (a b c : GEN) :
  runs k1 a b -> runs k2 b c -> runs (k1 + k2) a c.
Proof.
  intros H1 H2 fuel. rewrite <- Nat.add_assoc, H1. apply H2.
Qed.

Lemma runs_step (s s' : GEN) :
  g_stack s <> [] -> gen_iter s = Ok s' -> runs 1 s s'.
Proof.
  intros Hst Hit fuel. cbn [Nat.add gen_loop].
  destruct (g_stack s); [contradiction|]. now rewrite Hit.
Qed.

Lemma runs_empty (k : nat) (s s' : GEN) (fuel : nat) :
  runs k s s' -> g_stack s' = [] -> (k <= fuel)%nat -> gen_loop fuel s = Ok s'.
Proof.
  intros H Hst Hle. replace fuel with (k + (fuel - k))%nat by lia.
  rewrite H. destruct (fuel - k)%nat; cbn [gen_loop]; now rewrite Hst.
Qed.

(** A turn in terms of its two halves. *)
Lemma gen_iter_node (c : COMPILER) (p : NODE_PTR) (rest : list NODE_PTR)
    (code : list UOP) (pf : CONTEXT) (t1 t2 : TREE) (s1 s2 : GEN) :
  gen_visit p (node_at (m_tree c) p) (mkGEN c (p :: rest) code pf)
  = Ok (t1, s1) ->
  gen_finish p t1 s1 = Ok (t2, s2) ->
  gen_iter (mkGEN c (p :: rest) code pf)
  = Ok (mkGEN (set_tree (replace_at (m_tree c) p t2) (g_compiler s2))
          (g_stack s2) (g_code s2) (g_preflight s2)).
Proof.
  intros H1 H2. unfold gen_iter. cbn [g_stack g_compiler].
  rewrite H1. cbn [bind]. rewrite H2. reflexivity.
Qed.

(** ** The second half of a turn *)

Lemma finish_emit (p : NODE_PTR) (n : TREE_NODE) (l r : TREE) (u : UOP)
    (s : GEN) :
  isTerminal n = true ->
  uop n = Some u ->
  gen_finish p (Node n l r) s
  = Ok (Node (set_uop None (set_isVisited true n)) l r,
        gen_set_stack (tl (g_stack s)) (AddOp u s)).
Proof.
  intros Ht Hu. unfold gen_finish. rewrite Ht. cbn [negb uop set_isVisited].
  rewrite Hu. reflexivity.
Qed.

Lemma finish_descend_left (p : NODE_PTR) (n nl : TREE_NODE) (ll lr r : TREE)
    (s : GEN) :
  isTerminal n = false ->
  isVisited nl = false ->
  gen_finish p (Node n (Node nl ll lr) r) s
  = Ok (Node n (Node (set_isVisited true nl) ll lr) r,
        gen_set_stack (leaf_ptr p false :: g_stack s) s).
Proof.
  intros Ht Hv. unfold gen_finish. rewrite Ht.
  cbn [negb is_null leaf_visited andb]. rewrite Hv. reflexivity.
Qed.

Lemma finish_descend_right (p : NODE_PTR) (n nr : TREE_NODE) (l rl rr : TREE)
    (s : GEN) :
  isTerminal n = false ->
  is_null l || leaf_visited l = true ->
  isVisited nr = false ->
  gen_finish p (Node n l (Node nr rl rr)) s
  = Ok (Node n l (Node (set_isVisited true nr) rl rr),
        gen_set_stack (leaf_ptr p true :: g_stack s) s).
Proof.
  intros Ht Hl Hv. unfold gen_finish. rewrite Ht.
  cbn [negb is_null leaf_visited andb].
  replace (negb (is_null l) && negb (leaf_visited l)) with false.
  - rewrite Hv. reflexivity.
  - destruct (is_null l), (leaf_visited l); try reflexivity. discriminate Hl.
Qed.

Lemma finish_wait (p : NODE_PTR) (n : TREE_NODE) (l r : TREE) (s : GEN) :
  isTerminal n = false ->
  is_null l || leaf_visited l = true ->
  is_null r || leaf_visited r = true ->
  gen_finish p (Node n l r) s = Ok (Node n l r, s).
Proof.
  intros Ht Hl Hr. unfold gen_finish. rewrite Ht. cbn [negb].
  replace (negb (is_null l) && negb (leaf_visited l)) with false
    by (destruct (is_null l), (leaf_visited l); try reflexivity;
        discriminate Hl).
  replace (negb (is_null r) && negb (leaf_visited r)) with false
    by (destruct (is_null r), (leaf_visited r); try reflexivity;
        discriminate Hr).
  reflexivity.
Qed.

(** ** The first half of a turn, by kind of node *)

Lemma visit_operator (p : NODE_PTR) (n : TREE_NODE) (l r : TREE) (s : GEN) :
  ~ In (op n) node_case_labels ->
  gen_visit p (Node n l r) s
  = Ok (Node
          (set_isTerminal
             ((is_null l || leaf_visited l) && (is_null r || leaf_visited r))
             (set_uop (Some (UOP_ref (op n) None)) n)) l r, s).
Proof.
  intros H. unfold gen_visit. unfold node_case_labels in H. cbn [In] in H.
  repeat match goal with
         | |- context [op n =? ?x] =>
             destruct (Z.eqb_spec (op n) x) as [E|_];
             [exfalso; apply H; rewrite E; tauto|]
         end.
  reflexivity.
Qed.

Lemma visit_number (p : NODE_PTR) (n : TREE_NODE) (l r : TREE) (s : GEN) :
  op n = TR_NUMBER ->
  exists l',
    gen_visit p (Node n l r) s
    = Ok (Node
            (set_isTerminal true
               (set_uop
                  (Some (UOP_value TR_UOP_PUSH_VALUE
                           (VNumeric (literal_value n l)))) n)) l' r, s).
Proof.
  intros Hn. label_tests node_labels. unfold gen_visit, literal_value.
  use_tests.
  destruct (str (node_value n)) as [text|]; [|eexists; reflexivity].
  destruct l as [|ns sl sr]; [eexists; reflexivity|].
  destruct (op ns =? TR_UNIT); eexists; reflexivity.
Qed.

Lemma visit_string (p : NODE_PTR) (n : TREE_NODE) (l r : TREE) (s : GEN)
    (text : string) :
  op n = TR_STRING ->
  str (node_value n) = Some text ->
  gen_visit p (Node n l r) s
  = Ok (Node
          (set_isTerminal true
             (set_uop (Some (UOP_value TR_UOP_PUSH_VALUE (VText text))) n))
          l r, s).
Proof.
  intros Hn Hs. label_tests node_labels. unfold gen_visit. use_tests.
  reflexivity.
Qed.

Lemma visit_identifier (p : NODE_PTR) (n : TREE_NODE) (l r : TREE) (s : GEN)
    (name : string) :
  op n = TR_IDENTIFIER ->
  str (node_value n) = Some name ->
  gen_visit p (Node n l r) s
  = Ok (Node
          (set_isTerminal true
             (set_uop
                (Some (UOP_ref TR_UOP_PUSH_VALUE
                         (CreateVarRef name EmptyString))) n)) l r,
        match CreateVarRef name EmptyString with
        | None =>
            gen_report CST_CODEGEN (quoted "Unrecognized item '" name)
              (node_srcPos n - strlen name) s
        | Some _ => s
        end).
Proof.
  intros Hn Hs. label_tests node_labels. unfold gen_visit. use_tests.
  reflexivity.
Qed.

Lemma visit_property (p : NODE_PTR) (n nl nr : TREE_NODE)
    (ll lr rl rr : TREE) (s : GEN) (item prop : string) :
  op n = TR_STRUCT_REF ->
  op nl = TR_IDENTIFIER ->
  op nr = TR_IDENTIFIER ->
  str (node_value nl) = Some item ->
  str (node_value nr) = Some prop ->
  gen_visit p (Node n (Node nl ll lr) (Node nr rl rr)) s
  = gen_property n nl ll lr nr rl rr s.
Proof.
  intros Hn Hnl Hnr Hi Hp. label_tests node_labels.
  unfold gen_visit, gen_struct_ref. use_tests. reflexivity.
Qed.

Lemma visit_method (p : NODE_PTR) (n nl nr : TREE_NODE)
    (ll lr rl rr : TREE) (s : GEN) :
  op n = TR_STRUCT_REF ->
  op nl = TR_IDENTIFIER ->
  op nr = TR_OP_FUNC_CALL ->
  gen_visit p (Node n (Node nl ll lr) (Node nr rl rr)) s
  = gen_method p n nl ll lr nr rl rr s.
Proof.
  intros Hn Hnl Hnr. label_tests node_labels.
  unfold gen_visit, gen_struct_ref. use_tests. reflexivity.
Qed.

Lemma visit_func_call (p : NODE_PTR) (n : TREE_NODE) (l r : TREE) (s : GEN)
    (u : UOP) :
  op n = TR_OP_FUNC_CALL ->
  uop n = Some u ->
  gen_visit p (Node n l r) s = Ok (Node (set_isTerminal true n) l r, s).
Proof.
  intros Hn Hu. unfold gen_visit. rewrite Hn, Z.eqb_refl, Hu. reflexivity.
Qed.

(** ** Instructions that can be executed *)

Lemma exec_label_tests :
  TR_UOP_PUSH_VALUE <> TR_UOP_PUSH_VAR
  /\ TR_UOP_PUSH_VALUE <> TR_OP_METHOD_CALL
  /\ TR_OP_METHOD_CALL <> TR_UOP_PUSH_VAR.
Proof.
  pose proof exec_labels as H. unfold exec_case_labels in H. split_labels H.
  repeat split; intro E; try clash E. symmetry in E. clash E.
Qed.

Lemma bound_push_value (v : VALUE) :
  bound_uop (UOP_value TR_UOP_PUSH_VALUE v).
Proof.
  destruct exec_label_tests as (H1 & H2 & _).
  split; cbn; intros E; contradiction.
Qed.

Lemma bound_push_ref (ref : option VAR_REF) :
  bound_uop (UOP_ref TR_UOP_PUSH_VALUE ref).
Proof.
  destruct exec_label_tests as (H1 & H2 & _).
  split; cbn; intros E; contradiction.
Qed.

Lemma bound_operator (op : Z) :
  operator_code op -> bound_uop (UOP_ref op None).
Proof.
  intros H. unfold operator_code, exec_case_labels in H. cbn [In] in H.
  split; cbn; intros E; exfalso; apply H; rewrite E; tauto.
Qed.

(** ** Terminal nodes *)

(** The turn of a node that the first half declares terminal. *)
Lemma leaf_turn (c c1 : COMPILER) (p : NODE_PTR) (rest : list NODE_PTR)
    (code : list UOP) (pf pf1 : CONTEXT) (t : TREE) (n1 : TREE_NODE)
    (l1 r1 : TREE) (u : UOP) :
  node_at (m_tree c) p = t ->
  gen_visit p t (mkGEN c (p :: rest) code pf)
  = Ok (Node n1 l1 r1, mkGEN c1 (p :: rest) code pf1) ->
  isTerminal n1 = true ->
  uop n1 = Some u ->
  runs 1 (mkGEN c (p :: rest) code pf)
    (mkGEN
       (set_tree
          (replace_at (m_tree c) p
             (Node (set_uop None (set_isVisited true n1)) l1 r1)) c1)
       rest (code ++ [u]) pf1).
Proof.
  intros Hat Hvisit Hterm Huop. apply runs_step; [discriminate|].
  pose proof (finish_emit p n1 l1 r1 u (mkGEN c1 (p :: rest) code pf1)
                Hterm Huop) as Hfin.
  rewrite <- Hat in Hvisit.
  rewrite (gen_iter_node _ _ _ _ _ _ _ _ _ Hvisit Hfin). reflexivity.
Qed.

Lemma emit_number (n : TREE_NODE) (l r : TREE) :
  op n = TR_NUMBER ->
  emit (Node n l r)
  = [UOP_value TR_UOP_PUSH_VALUE (VNumeric (literal_value n l))].
Proof.
  intros Hn. label_tests node_labels. cbn [emit]. use_tests. reflexivity.
Qed.

Lemma emit_string (n : TREE_NODE) (l r : TREE) (text : string) :
  op n = TR_STRING ->
  str (node_value n) = Some text ->
  emit (Node n l r) = [UOP_value TR_UOP_PUSH_VALUE (VText text)].
Proof.
  intros Hn Hs. label_tests node_labels. cbn [emit]. use_tests. reflexivity.
Qed.

Lemma emit_identifier (n : TREE_NODE) (l r : TREE) (name : string) :
  op n = TR_IDENTIFIER ->
  str (node_value n) = Some name ->
  emit (Node n l r)
  = [UOP_ref TR_UOP_PUSH_VALUE (CreateVarRef name EmptyString)].
Proof.
  intros Hn Hs. label_tests node_labels. cbn [emit]. use_tests. reflexivity.
Qed.

Lemma emit_property (n nl nr : TREE_NODE) (ll lr rl rr : TREE)
    (item prop : string) :
  op n = TR_STRUCT_REF ->
  op nr = TR_IDENTIFIER ->
  str (node_value nl) = Some item ->
  str (node_value nr) = Some prop ->
  emit (Node n (Node nl ll lr) (Node nr rl rr))
  = [UOP_ref TR_UOP_PUSH_VAR (CreateVarRef item prop)].
Proof.
  intros Hn Hnr Hi Hp. label_tests node_labels. cbn [emit]. use_tests.
  reflexivity.
Qed.

Lemma emit_call (n nl nr nf : TREE_NODE) (ll lr fl fr argument : TREE)
    (item function : string) :
  op n = TR_STRUCT_REF ->
  op nr = TR_OP_FUNC_CALL ->
  str (node_value nl) = Some item ->
  str (node_value nf) = Some function ->
  emit (Node n (Node nl ll lr) (Node nr (Node nf fl fr) argument))
  = emit argument
    ++ [UOP_func TR_OP_METHOD_CALL (CreateFuncCall function)
          (CreateVarRef item EmptyString)].
Proof.
  intros Hn Hnr Hi Hf. label_tests node_labels. cbn [emit]. use_tests.
  reflexivity.
Qed.

Lemma emit_operator (n : TREE_NODE) (l r : TREE) :
  ~ In (op n) node_case_labels ->
  emit (Node n l r) = emit l ++ emit r ++ [UOP_ref (op n) None].
Proof.
  intros H. unfold node_case_labels in H. cbn [In] in H. cbn [emit].
  repeat match goal with
         | |- context [op n =? ?x] =>
             destruct (Z.eqb_spec (op n) x) as [E|_];
             [exfalso; apply H; rewrite E; tauto|]
         end.
  reflexivity.
Qed.

Lemma number_finishes (n : TREE_NODE) (l r : TREE) :
  op n = TR_NUMBER -> finishes PARSER (Node n l r).
Proof.
  intros Hn n' [Hop Hval] c p rest code pf Hat.
  assert (Hn' : op n' = TR_NUMBER) by congruence.
  destruct (visit_number p n' l r (mkGEN c (p :: rest) code pf) Hn')
    as [l' Hvisit].
  exists 1%nat. eexists. eexists. eexists. split.
  { rewrite (emit_number n l r Hn).
    replace (literal_value n l) with (literal_value n' l)
      by (unfold literal_value; now rewrite Hval).
    eapply leaf_turn; [exact Hat | exact Hvisit | reflexivity | reflexivity]. }
  split; [reflexivity|]. split; [reflexivity|].
  intros Hp. split; [exact Hp|].
  rewrite (emit_number n l r Hn). constructor; [|constructor].
  apply bound_push_value.
Qed.

Lemma string_finishes (n : TREE_NODE) (l r : TREE) (text : string) :
  op n = TR_STRING ->
  str (node_value n) = Some text ->
  finishes PARSER (Node n l r).
Proof.
  intros Hn Hs n' [Hop Hval] c p rest code pf Hat.
  assert (Hn' : op n' = TR_STRING) by congruence.
  assert (Hs' : str (node_value n') = Some text) by congruence.
  exists 1%nat. eexists. eexists. eexists. split.
  { rewrite (emit_string n l r text Hn Hs).
    eapply leaf_turn;
      [ exact Hat | apply visit_string; eassumption
      | reflexivity | reflexivity ]. }
  split; [reflexivity|]. split; [reflexivity|].
  intros Hp. split; [exact Hp|].
  rewrite (emit_string n l r text Hn Hs). constructor; [|constructor].
  apply bound_push_value.
Qed.

Lemma identifier_finishes (n : TREE_NODE) (l r : TREE) (name : string) :
  op n = TR_IDENTIFIER ->
  str (node_value n) = Some name ->
  finishes PARSER (Node n l r).
Proof.
  intros Hn Hs n' [Hop Hval] c p rest code pf Hat.
  assert (Hn' : op n' = TR_IDENTIFIER) by congruence.
  assert (Hs' : str (node_value n') = Some name) by congruence.
  pose proof (visit_identifier p n' l r (mkGEN c (p :: rest) code pf) name
                Hn' Hs') as Hvisit.
  unfold subtree_done. rewrite (emit_identifier n l r name Hn Hs).
  destruct (CreateVarRef name EmptyString) as [v|].
  - exists 1%nat. eexists. eexists. eexists. split.
    { eapply leaf_turn; [exact Hat | exact Hvisit | reflexivity | reflexivity]. }
    split; [reflexivity|]. split; [reflexivity|].
    intros Hp. split; [exact Hp|].
    constructor; [|constructor]. apply bound_push_ref.
  - exists 1%nat. eexists. eexists. eexists. split.
    { eapply leaf_turn; [exact Hat | exact Hvisit | reflexivity | reflexivity]. }
    split; [reflexivity|]. split; [reflexivity|].
    intros Hp. discriminate Hp.
Qed.

Lemma property_finishes (n nl nr : TREE_NODE) (ll lr rl rr : TREE)
    (item prop : string) :
  op n = TR_STRUCT_REF ->
  op nl = TR_IDENTIFIER ->
  op nr = TR_IDENTIFIER ->
  str (node_value nl) = Some item ->
  str (node_value nr) = Some prop ->
  finishes PARSER (Node n (Node nl ll lr) (Node nr rl rr)).
Proof.
  intros Hn Hnl Hnr Hi Hp n' [Hop Hval] c p rest code pf Hat.
  assert (Hn' : op n' = TR_STRUCT_REF) by congruence.
  pose proof (visit_property p n' nl nr ll lr rl rr
                (mkGEN c (p :: rest) code pf) item prop Hn' Hnl Hnr Hi Hp)
    as Hvisit.
  unfold gen_property in Hvisit. rewrite Hi, Hp in Hvisit.
  cbn [deref bind] in Hvisit.
  unfold subtree_done.
  rewrite (emit_property n nl nr ll lr rl rr item prop Hn Hnr Hi Hp).
  destruct exec_label_tests as (_ & _ & Hmc).
  destruct (CreateVarRef item prop) as [v|].
  - destruct (VAR_TYPE_T_eqb (GetType v) VT_PARSE_ERROR).
    + exists 1%nat. eexists. eexists. eexists. split.
      { eapply leaf_turn;
          [exact Hat | exact Hvisit | reflexivity | reflexivity]. }
      split; [reflexivity|]. split; [reflexivity|].
      intros Hpend. discriminate Hpend.
    + exists 1%nat. eexists. eexists. eexists. split.
      { eapply leaf_turn;
          [exact Hat | exact Hvisit | reflexivity | reflexivity]. }
      split; [reflexivity|]. split; [reflexivity|].
      intros Hpend. split; [exact Hpend|].
      constructor; [|constructor]. split; cbn; intros E.
      * discriminate.
      * symmetry in E. contradiction.
  - exists 1%nat. eexists. eexists. eexists. split.
    { eapply leaf_turn; [exact Hat | exact Hvisit | reflexivity | reflexivity]. }
    split; [reflexivity|]. split; [reflexivity|].
    intros Hpend. discriminate Hpend.
Qed.

(** ** Pointers to leaves *)

Lemma node_at_leaf (t : TREE) (p : NODE_PTR) (n : TREE_NODE) (l r : TREE)
    (i : bool) :
  node_at t p = Node n l r ->
  node_at t (leaf_ptr p i) = if i then r else l.
Proof.
  intros H. unfold leaf_ptr. rewrite node_at_app, H. reflexivity.
Qed.

Lemma node_at_replaced (t : TREE) (p : NODE_PTR) (n : TREE_NODE) (l r s : TREE) :
  node_at t p = Node n l r -> node_at (replace_at t p s) p = s.
Proof.
  intros H. apply node_at_replace_at. rewrite H. discriminate.
Qed.

Lemma replace_at_leaf (t : TREE) (p : NODE_PTR) (n n1 : TREE_NODE)
    (l r l1 r1 x : TREE) (i : bool) :
  node_at t p = Node n l r ->
  replace_at (replace_at t p (Node n1 l1 r1)) (leaf_ptr p i) x
  = replace_at t p (if i then Node n1 l1 x else Node n1 x r1).
Proof.
  intros H. unfold leaf_ptr.
  rewrite replace_at_app, (node_at_replaced _ _ _ _ _ _ H), replace_at_twice.
  destruct i; reflexivity.
Qed.

(** ** Operator nodes *)

(** The turn that descends into the left leaf, and the turns of that leaf. *)
Lemma descend_left (c : COMPILER) (p : NODE_PTR) (rest : list NODE_PTR)
    (code : list UOP) (pf : CONTEXT) (n' nl : TREE_NODE) (ll lr r : TREE) :
  node_at (m_tree c) p = Node n' (Node nl ll lr) r ->
  ~ In (op n') node_case_labels ->
  isVisited nl = false ->
  finishes PARSER (Node nl ll lr) ->
  exists k c2 n1 l2 pf2,
    runs k (mkGEN c (p :: rest) code pf)
      (mkGEN c2 (p :: rest) (code ++ emit (Node nl ll lr)) pf2)
    /\ m_tree c2 = replace_at (m_tree c) p (Node n1 l2 r)
    /\ op n1 = op n'
    /\ leaf_visited l2 = true
    /\ (pending c2 = false ->
        pending c = false /\ Forall bound_uop (emit (Node nl ll lr))).
Proof.
  intros Hat Hop Hv Hfin.
  pose proof (visit_operator p n' (Node nl ll lr) r
                (mkGEN c (p :: rest) code pf) Hop) as Hvisit.
  cbn [is_null leaf_visited orb] in Hvisit. rewrite Hv in Hvisit.
  cbn [andb] in Hvisit.
  set (n1 := set_isTerminal false (set_uop (Some (UOP_ref (op n') None)) n'))
    in Hvisit.
  pose proof (finish_descend_left p n1 nl ll lr r
                (mkGEN c (p :: rest) code pf) eq_refl Hv) as Hfinish.
  rewrite <- Hat in Hvisit.
  pose proof (gen_iter_node _ _ _ _ _ _ _ _ _ Hvisit Hfinish) as Hiter.
  cbn [g_compiler g_stack g_code g_preflight gen_set_stack] in Hiter.
  set (c1 := set_tree _ c) in Hiter.
  assert (Hat1 : node_at (m_tree c1) (leaf_ptr p false)
                 = Node (set_isVisited true nl) ll lr).
  { unfold c1. cbn [m_tree set_tree].
    rewrite (node_at_leaf _ _ _ _ _ false
               (node_at_replaced _ _ _ _ _ _ Hat)). reflexivity. }
  destruct (Hfin (set_isVisited true nl) (conj eq_refl eq_refl) c1
              (leaf_ptr p false) (p :: rest) code pf Hat1)
    as (k & c2 & l2 & pf2 & Hruns & Htree & Hvis & Hpend).
  exists (1 + k)%nat, c2, n1, l2, pf2. split.
  { eapply runs_trans; [|exact Hruns].
    apply runs_step; [discriminate | exact Hiter]. }
  split.
  { rewrite Htree. unfold c1. cbn [m_tree set_tree].
    apply (replace_at_leaf _ _ _ _ _ _ _ _ _ false Hat). }
  split; [reflexivity|]. split.
  { apply Hvis. rewrite Hat1. reflexivity. }
  exact Hpend.
Qed.

(** The turn that descends into the right leaf, the left one being done,
    and the turns of that leaf. *)
Lemma descend_right (c : COMPILER) (p : NODE_PTR) (rest : list NODE_PTR)
    (code : list UOP) (pf : CONTEXT) (n' nr : TREE_NODE) (l rl rr : TREE) :
  node_at (m_tree c) p = Node n' l (Node nr rl rr) ->
  ~ In (op n') node_case_labels ->
  is_null l || leaf_visited l = true ->
  isVisited nr = false ->
  finishes PARSER (Node nr rl rr) ->
  exists k c2 n1 r2 pf2,
    runs k (mkGEN c (p :: rest) code pf)
      (mkGEN c2 (p :: rest) (code ++ emit (Node nr rl rr)) pf2)
    /\ m_tree c2 = replace_at (m_tree c) p (Node n1 l r2)
    /\ op n1 = op n'
    /\ leaf_visited r2 = true
    /\ (pending c2 = false ->
        pending c = false /\ Forall bound_uop (emit (Node nr rl rr))).
Proof.
  intros Hat Hop Hl Hv Hfin.
  pose proof (visit_operator p n' l (Node nr rl rr)
                (mkGEN c (p :: rest) code pf) Hop) as Hvisit.
  rewrite Hl in Hvisit. cbn [is_null leaf_visited orb] in Hvisit.
  rewrite Hv in Hvisit. cbn [andb] in Hvisit.
  set (n1 := set_isTerminal false (set_uop (Some (UOP_ref (op n') None)) n'))
    in Hvisit.
  pose proof (finish_descend_right p n1 nr l rl rr
                (mkGEN c (p :: rest) code pf) eq_refl Hl Hv) as Hfinish.
  rewrite <- Hat in Hvisit.
  pose proof (gen_iter_node _ _ _ _ _ _ _ _ _ Hvisit Hfinish) as Hiter.
  cbn [g_compiler g_stack g_code g_preflight gen_set_stack] in Hiter.
  set (c1 := set_tree _ c) in Hiter.
  assert (Hat1 : node_at (m_tree c1) (leaf_ptr p true)
                 = Node (set_isVisited true nr) rl rr).
  { unfold c1. cbn [m_tree set_tree].
    rewrite (node_at_leaf _ _ _ _ _ true
               (node_at_replaced _ _ _ _ _ _ Hat)). reflexivity. }
  destruct (Hfin (set_isVisited true nr) (conj eq_refl eq_refl) c1
              (leaf_ptr p true) (p :: rest) code pf Hat1)
    as (k & c2 & r2 & pf2 & Hruns & Htree & Hvis & Hpend).
  exists (1 + k)%nat, c2, n1, r2, pf2. split.
  { eapply runs_trans; [|exact Hruns].
    apply runs_step; [discriminate | exact Hiter]. }
  split.
  { rewrite Htree. unfold c1. cbn [m_tree set_tree].
    apply (replace_at_leaf _ _ _ _ _ _ _ _ _ true Hat). }
  split; [reflexivity|]. split.
  { apply Hvis. rewrite Hat1. reflexivity. }
  exact Hpend.
Qed.

(** The turn that emits the operator, its leaves being done. *)
Lemma operator_turn (c : COMPILER) (p : NODE_PTR) (rest : list NODE_PTR)
    (code : list UOP) (pf : CONTEXT) (n' : TREE_NODE) (l r : TREE) :
  node_at (m_tree c) p = Node n' l r ->
  ~ In (op n') node_case_labels ->
  is_null l || leaf_visited l = true ->
  is_null r || leaf_visited r = true ->
  exists c3 t',
    runs 1 (mkGEN c (p :: rest) code pf)
      (mkGEN c3 rest (code ++ [UOP_ref (op n') None]) pf)
    /\ m_tree c3 = replace_at (m_tree c) p t'
    /\ leaf_visited t' = true
    /\ pending c3 = pending c.
Proof.
  intros Hat Hop Hl Hr.
  pose proof (visit_operator p n' l r (mkGEN c (p :: rest) code pf) Hop)
    as Hvisit.
  rewrite Hl, Hr in Hvisit. cbn [andb] in Hvisit.
  eexists. eexists. split.
  { eapply leaf_turn; [exact Hat | exact Hvisit | reflexivity | reflexivity]. }
  split; [reflexivity|]. split; reflexivity.
Qed.

Lemma unary_finishes (n nl : TREE_NODE) (ll lr : TREE) :
  operator_node n ->
  isVisited nl = false ->
  finishes PARSER (Node nl ll lr) ->
  finishes PARSER (Node n (Node nl ll lr) Nil).
Proof.
  intros [Hcode Hnode] Hv Hfin n' [Hop Hval] c p rest code pf Hat.
  assert (Hnode' : ~ In (op n') node_case_labels) by now rewrite Hop.
  destruct (descend_left c p rest code pf n' nl ll lr Nil Hat Hnode' Hv Hfin)
    as (k & c2 & n1 & l2 & pf2 & Hruns & Htree & Hop1 & Hvis & Hpend).
  assert (Hat2 : node_at (m_tree c2) p = Node n1 l2 Nil).
  { rewrite Htree. apply (node_at_replaced _ _ _ _ _ _ Hat). }
  assert (Hnode1 : ~ In (op n1) node_case_labels) by now rewrite Hop1.
  assert (Hl2 : is_null l2 || leaf_visited l2 = true)
    by (rewrite Hvis; apply orb_true_r).
  destruct (operator_turn c2 p rest (code ++ emit (Node nl ll lr)) pf2 n1 l2
              Nil Hat2 Hnode1 Hl2 eq_refl)
    as (c3 & t' & Hruns3 & Htree3 & Hvis3 & Hpend3).
  exists (k + 1)%nat, c3, t', pf2. split.
  { rewrite (emit_operator n _ _ Hnode). cbn [emit app].
    rewrite app_assoc. rewrite Hop1, Hop in Hruns3.
    eapply runs_trans; [exact Hruns | exact Hruns3]. }
  split.
  { rewrite Htree3, Htree. apply replace_at_twice. }
  split; [intros _; exact Hvis3|].
  intros Hp. rewrite Hpend3 in Hp. destruct (Hpend Hp) as [Hc Hb].
  split; [exact Hc|].
  rewrite (emit_operator n _ _ Hnode). cbn [emit app].
  apply Forall_app. split; [exact Hb|].
  constructor; [|constructor]. now apply bound_operator.
Qed.

Lemma binary_finishes (n nl nr : TREE_NODE) (ll lr rl rr : TREE) :
  operator_node n ->
  isVisited nl = false ->
  isVisited nr = false ->
  finishes PARSER (Node nl ll lr) ->
  finishes PARSER (Node nr rl rr) ->
  finishes PARSER (Node n (Node nl ll lr) (Node nr rl rr)).
Proof.
  intros [Hcode Hnode] Hvl Hvr Hfl Hfr n' [Hop Hval] c p rest code pf Hat.
  assert (Hnode' : ~ In (op n') node_case_labels) by now rewrite Hop.
  destruct (descend_left c p rest code pf n' nl ll lr (Node nr rl rr) Hat
              Hnode' Hvl Hfl)
    as (k & c2 & n1 & l2 & pf2 & Hruns & Htree & Hop1 & Hvis & Hpend).
  assert (Hat2 : node_at (m_tree c2) p = Node n1 l2 (Node nr rl rr)).
  { rewrite Htree. apply (node_at_replaced _ _ _ _ _ _ Hat). }
  assert (Hnode1 : ~ In (op n1) node_case_labels) by now rewrite Hop1.
  assert (Hl2 : is_null l2 || leaf_visited l2 = true)
    by (rewrite Hvis; apply orb_true_r).
  destruct (descend_right c2 p rest (code ++ emit (Node nl ll lr)) pf2 n1 nr
              l2 rl rr Hat2 Hnode1 Hl2 Hvr Hfr)
    as (k' & c3 & n2 & r2 & pf3 & Hruns' & Htree' & Hop2 & Hvis' & Hpend').
  assert (Hat3 : node_at (m_tree c3) p = Node n2 l2 r2).
  { rewrite Htree'. apply (node_at_replaced _ _ _ _ _ _ Hat2). }
  assert (Hnode2 : ~ In (op n2) node_case_labels) by now rewrite Hop2.
  assert (Hr2 : is_null r2 || leaf_visited r2 = true)
    by (rewrite Hvis'; apply orb_true_r).
  destruct (operator_turn c3 p rest
              ((code ++ emit (Node nl ll lr)) ++ emit (Node nr rl rr)) pf3
              n2 l2 r2 Hat3 Hnode2 Hl2 Hr2)
    as (c4 & t' & Hruns4 & Htree4 & Hvis4 & Hpend4).
  exists (k + (k' + 1))%nat, c4, t', pf3. split.
  { rewrite (emit_operator n _ _ Hnode). rewrite !app_assoc.
    rewrite Hop2, Hop1, Hop in Hruns4.
    eapply runs_trans; [exact Hruns|].
    eapply runs_trans; [exact Hruns' | exact Hruns4]. }
  split.
  { rewrite Htree4, Htree', Htree. now rewrite !replace_at_twice. }
  split; [intros _; exact Hvis4|].
  intros Hp. rewrite Hpend4 in Hp. destruct (Hpend' Hp) as [Hc3 Hbr].
  destruct (Hpend Hc3) as [Hc Hbl].
  split; [exact Hc|].
  rewrite (emit_operator n _ _ Hnode).
  apply Forall_app. split; [exact Hbl|].
  apply Forall_app. split; [exact Hbr|].
  constructor; [|constructor]. now apply bound_operator.
Qed.

(** ** Method calls *)

Hypothesis functions_keep_contract : host_contract.

Lemma replace_at_leaf_in (t : TREE) (p : NODE_PTR) (n : TREE_NODE)
    (l r x : TREE) (i : bool) :
  node_at t p = Node n l r ->
  replace_at t (leaf_ptr p i) x
  = replace_at t p (if i then Node n l x else Node n x r).
Proof.
  intros H. unfold leaf_ptr. rewrite replace_at_app, H.
  destruct i; reflexivity.
Qed.

(** The preflight of a function that keeps its contract goes through, and
    leaves the work stack, the program and the tree as they are. *)
Lemma gen_preflight_shape (f : FUNC_CALL_REF) (vref : option VAR_REF)
    (n na : TREE_NODE) (al ar : TREE) (c : COMPILER) (st : list NODE_PTR)
    (code : list UOP) (pf : CONTEXT) :
  function_contract f ->
  exists c' pf',
    gen_preflight f vref n (Node na al ar) (mkGEN c st code pf)
    = Ok (mkGEN c' st code pf')
    /\ m_tree c' = m_tree c
    /\ (pending c' = false -> pending c = false).
Proof.
  intros Hf. unfold gen_preflight, preflight_call. cbn [g_preflight].
  set (text := match str (node_value n) with
               | Some p => p
               | None => EmptyString
               end).
  destruct (Hf (Push (Some (VText text)) pf) vref (Some (VText text))
              (m_stack pf) eq_refl) as (v & ctx' & Hret & Hst).
  rewrite Hret. unfold Pop. rewrite Hst. cbn [bind].
  destruct (negb (IsErrorPending _)).
  - eexists. eexists. split; [reflexivity|]. split; [reflexivity|].
    intros H. discriminate H.
  - eexists. eexists. split; [reflexivity|]. split; [reflexivity|].
    intros H. exact H.
Qed.

(** The first half of the turn of [object.function( argument )]. *)
Lemma method_visit (c : COMPILER) (p : NODE_PTR) (rest : list NODE_PTR)
    (code : list UOP) (pf : CONTEXT) (n' nl nr nf na : TREE_NODE)
    (ll lr fl fr al ar : TREE) (item function : string) :
  str (node_value nl) = Some item ->
  str (node_value nf) = Some function ->
  exists c1 pf1,
    gen_method p n' nl ll lr nr (Node nf fl fr) (Node na al ar)
      (mkGEN c (p :: rest) code pf)
    = Ok (Node (set_isTerminal false n') (Node (set_isVisited true nl) ll lr)
            (Node
               (set_uop
                  (Some (UOP_func TR_OP_METHOD_CALL (CreateFuncCall function)
                           (CreateVarRef item EmptyString)))
                  (set_isVisited true nr))
               (Node (set_isVisited true nf) fl fr)
               (Node (set_isVisited true na) al ar)),
          mkGEN c1
            (leaf_ptr (leaf_ptr p true) true :: leaf_ptr p true :: rest)
            code pf1)
    /\ m_tree c1 = m_tree c
    /\ (pending c1 = false ->
        pending c = false /\ CreateFuncCall function <> None).
Proof.
  intros Hi Hf. unfold gen_method. rewrite Hi, Hf. cbn [deref bind].
  set (vref := CreateVarRef item EmptyString).
  assert (Hs : exists ca,
             match vref with
             | Some _ => mkGEN c (p :: rest) code pf
             | None =>
                 gen_report CST_CODEGEN (quoted "Unrecognized item '" item)
                   (node_srcPos nl - strlen item)
                   (mkGEN c (p :: rest) code pf)
             end = mkGEN ca (p :: rest) code pf
             /\ m_tree ca = m_tree c
             /\ (pending ca = false -> pending c = false)).
  { destruct vref.
    - exists c. repeat split; auto.
    - eexists. split; [reflexivity|]. split; [reflexivity|].
      intros H. discriminate H. }
  destruct Hs as (ca & -> & Htree & Hpend).
  destruct (CreateFuncCall function) as [f|] eqn:Ef.
  - destruct (gen_preflight_shape f vref n' na al ar ca (p :: rest) code pf
                (functions_keep_contract _ _ Ef))
      as (cb & pfb & -> & Htreeb & Hpendb).
    cbn [bind mark_visited]. exists cb, pfb.
    split; [reflexivity|]. split; [congruence|].
    intros H. split; [auto | discriminate].
  - cbn [bind mark_visited]. eexists. exists pf.
    split; [reflexivity|]. split; [exact Htree|].
    intros H. discriminate H.
Qed.

Lemma call_finishes (n nl nr nf na : TREE_NODE) (ll lr fl fr al ar : TREE)
    (item function : string) :
  op n = TR_STRUCT_REF ->
  op nl = TR_IDENTIFIER ->
  str (node_value nl) = Some item ->
  op nr = TR_OP_FUNC_CALL ->
  str (node_value nf) = Some function ->
  finishes PARSER (Node na al ar) ->
  finishes PARSER
    (Node n (Node nl ll lr) (Node nr (Node nf fl fr) (Node na al ar))).
Proof.
  intros Hn Hnl Hi Hnr Hf Hfin n' [Hop Hval] c p rest code pf Hat.
  assert (Hn' : op n' = TR_STRUCT_REF) by congruence.
  pose proof (visit_method p n' nl nr ll lr (Node nf fl fr) (Node na al ar)
                (mkGEN c (p :: rest) code pf) Hn' Hnl Hnr) as Hvisit.
  destruct (method_visit c p rest code pf n' nl nr nf na ll lr fl fr al ar
              item function Hi Hf)
    as (c1 & pf1 & Hmethod & Htree1 & Hpend1).
  rewrite Hmethod in Hvisit.
  set (u := UOP_func TR_OP_METHOD_CALL (CreateFuncCall function)
              (CreateVarRef item EmptyString)) in *.
  set (nr1 := set_uop (Some u) (set_isVisited true nr)) in *.
  set (L1 := Node (set_isVisited true nl) ll lr) in *.
  set (F1 := Node (set_isVisited true nf) fl fr) in *.
  set (n1 := set_isTerminal false n') in *.
  set (P := leaf_ptr p true) in *.
  match type of Hvisit with
  | _ = Ok (?t, ?s) =>
      pose proof (finish_wait p n1 L1
                    (Node nr1 F1 (Node (set_isVisited true na) al ar)) s
                    eq_refl eq_refl eq_refl) as Hfinish
  end.
  rewrite <- Hat in Hvisit.
  pose proof (gen_iter_node _ _ _ _ _ _ _ _ _ Hvisit Hfinish) as Hiter.
  cbn [g_compiler g_stack g_code g_preflight] in Hiter.
  set (X := replace_at (m_tree c) p _) in Hiter.
  assert (HatX : node_at X p
                 = Node n1 L1 (Node nr1 F1 (Node (set_isVisited true na) al ar)))
    by apply (node_at_replaced _ _ _ _ _ _ Hat).
  assert (HatP : node_at X P
                 = Node nr1 F1 (Node (set_isVisited true na) al ar))
    by apply (node_at_leaf _ _ _ _ _ true HatX).
  assert (HatPP : node_at (m_tree (set_tree X c1)) (leaf_ptr P true)
                  = Node (set_isVisited true na) al ar)
    by apply (node_at_leaf _ _ _ _ _ true HatP).
  destruct (Hfin (set_isVisited true na) (conj eq_refl eq_refl)
              (set_tree X c1) (leaf_ptr P true) (P :: rest) code pf1 HatPP)
    as (k & c2 & a2 & pf2 & Hruns & Htree2 & Hvis2 & Hpend2).
  cbn [m_tree set_tree] in Htree2.
  rewrite (replace_at_leaf_in _ _ _ _ _ a2 true HatP) in Htree2.
  assert (Hat2 : node_at (m_tree c2) P = Node nr1 F1 a2).
  { rewrite Htree2. apply (node_at_replaced _ _ _ _ _ _ HatP). }
  assert (Hop1 : op nr1 = TR_OP_FUNC_CALL) by exact Hnr.
  pose proof (visit_func_call P nr1 F1 a2
                (mkGEN c2 (P :: rest) (code ++ emit (Node na al ar)) pf2) u
                Hop1 eq_refl) as Hvisit3.
  pose proof (leaf_turn c2 c2 P rest (code ++ emit (Node na al ar)) pf2 pf2
                _ _ _ _ u Hat2 Hvisit3 eq_refl eq_refl) as Hruns3.
  unfold subtree_done.
  rewrite (emit_call n nl nr nf ll lr fl fr (Node na al ar) item function
             Hn Hnr Hi Hf).
  fold u. rewrite app_assoc.
  eexists. eexists. eexists. eexists. split.
  { eapply runs_trans;
      [apply runs_step; [discriminate | exact Hiter]|].
    eapply runs_trans; [exact Hruns | exact Hruns3]. }
  split.
  { cbn [m_tree set_tree]. rewrite Htree2, replace_at_twice.
    unfold X, P.
    rewrite (replace_at_leaf _ _ _ _ _ _ _ _ _ true Hat). reflexivity. }
  split.
  { rewrite Hat. cbn [leaf_visited]. intros H. exact H. }
  intros Hp. cbn in Hp. fold (pending c2) in Hp.
  destruct (Hpend2 Hp) as [Hc1 Hb]. cbn in Hc1. fold (pending c1) in Hc1.
  destruct (Hpend1 Hc1) as [Hc Hfunc]. split; [exact Hc|].
  apply Forall_app. split; [exact Hb|].
  constructor; [|constructor]. destruct exec_label_tests as (_ & _ & Hmc).
  split; cbn; intros E; [contradiction | exact Hfunc].
Qed.

(** ** Every tree of the parser *)

Lemma wf_ast_node (t : TREE) :
  wf_ast t -> exists n l r, t = Node n l r.
Proof. intros H; destruct H; eauto. Qed.

Lemma unvisited_root (n : TREE_NODE) (l r : TREE) :
  unvisited (Node n l r) ->
  isVisited n = false /\ unvisited_below (Node n l r).
Proof. cbn. tauto. Qed.

(** The loop finishes every tree of the parser that [prepareTree] has
    prepared. *)
Lemma wf_finishes (t : TREE) :
  wf_ast t -> unvisited_below t -> finishes PARSER t.
Proof.
  intros Hwf. induction Hwf as
    [ n Hn | n nu Hn Hnu | n text Hn Hs | n name Hn Hs
    | n nl nr item prop Hn Hnl Hi Hnr Hp
    | n nl nr nf fl fr argument item function Hn Hnl Hi Hnr Hf Harg IH
    | n l r Hnode Hmask Hl IHl Hr IHr
    | n l Hnode Hbin Hun Hl IHl ]; intros Hbelow.
  - now apply number_finishes.
  - now apply number_finishes.
  - eapply string_finishes; eassumption.
  - eapply identifier_finishes; eassumption.
  - eapply property_finishes; eassumption.
  - destruct (wf_ast_node _ Harg) as (na & al & ar & ->).
    destruct Hbelow as (_ & _ & _ & Ha). apply unvisited_root in Ha.
    eapply call_finishes; try eassumption. apply IH, Ha.
  - destruct (wf_ast_node _ Hl) as (nl & ll & lr & ->).
    destruct (wf_ast_node _ Hr) as (nr & rl & rr & ->).
    destruct Hbelow as (Hul & Hur).
    apply unvisited_root in Hul. apply unvisited_root in Hur.
    destruct Hul as [Hvl Hbl]. destruct Hur as [Hvr Hbr].
    apply binary_finishes; auto.
  - destruct (wf_ast_node _ Hl) as (nl & ll & lr & ->).
    destruct Hbelow as (Hul & _). apply unvisited_root in Hul.
    destruct Hul as [Hvl Hbl]. apply unary_finishes; auto.
Qed.

(** ** [prepareTree] *)

Lemma prepareTree_unvisited (cleared : bool) (t : TREE) :
  unvisited (prepareTree_from cleared t).
Proof.
  revert cleared. induction t as [|n l IHl r IHr]; intros cleared; cbn.
  - exact I.
  - destruct cleared; cbn; auto.
Qed.

Lemma prepareTree_node (n : TREE_NODE) (l r : TREE) :
  prepareTree (Node n l r)
  = Node (set_isVisited false n)
      (prepareTree_from (op n =? TR_OP_FUNC_CALL) l) (prepareTree r).
Proof. reflexivity. Qed.

Lemma operator_not_call (n : TREE_NODE) :
  operator_node n -> (op n =? TR_OP_FUNC_CALL) = false.
Proof.
  intros [_ H]. apply Z.eqb_neq. intros E. apply H. rewrite E.
  unfold node_case_labels. cbn. tauto.
Qed.

Lemma prepareTree_wf (t : TREE) : wf_ast t -> wf_ast (prepareTree t).
Proof.
  label_tests node_labels.
  intros Hwf. induction Hwf as
    [ n Hn | n nu Hn Hnu | n text Hn Hs | n name Hn Hs
    | n nl nr item prop Hn Hnl Hi Hnr Hp
    | n nl nr nf fl fr argument item function Hn Hnl Hi Hnr Hf Harg IH
    | n l r Hnode Hmask Hl IHl Hr IHr
    | n l Hnode Hbin Hun Hl IHl ]; rewrite prepareTree_node.
  - rewrite Hn. use_tests. cbn. now apply wf_number.
  - rewrite Hn. use_tests. cbn. now apply wf_number_unit.
  - rewrite Hn. use_tests. cbn. eapply wf_string; eassumption.
  - rewrite Hn. use_tests. cbn. eapply wf_identifier; eassumption.
  - rewrite Hn. use_tests. cbn. eapply wf_property; eassumption.
  - rewrite Hn. use_tests. rewrite (prepareTree_node nr).
    rewrite Hnr, Z.eqb_refl. cbn [prepareTree_from].
    eapply wf_call; try eassumption.
  - rewrite (operator_not_call n Hnode). apply wf_binary; assumption.
  - rewrite (operator_not_call n Hnode). apply wf_unary; assumption.
Qed.

Lemma prepareTree_emit (t : TREE) :
  wf_ast t -> emit (prepareTree t) = emit t.
Proof.
  label_tests node_labels.
  intros Hwf. induction Hwf as
    [ n Hn | n nu Hn Hnu | n text Hn Hs | n name Hn Hs
    | n nl nr item prop Hn Hnl Hi Hnr Hp
    | n nl nr nf fl fr argument item function Hn Hnl Hi Hnr Hf Harg IH
    | n l r Hnode Hmask Hl IHl Hr IHr
    | n l Hnode Hbin Hun Hl IHl ]; rewrite prepareTree_node.
  - rewrite !emit_number by assumption. reflexivity.
  - rewrite Hn. use_tests. cbn [prepareTree_from].
    rewrite !emit_number by assumption. reflexivity.
  - erewrite !emit_string by eassumption. reflexivity.
  - erewrite !emit_identifier by eassumption. reflexivity.
  - rewrite Hn. use_tests. cbn [prepareTree_from prepareTree].
    erewrite !emit_property by eassumption. reflexivity.
  - rewrite Hn. use_tests. rewrite (prepareTree_node nr).
    rewrite Hnr, Z.eqb_refl. cbn [prepareTree_from].
    erewrite !emit_call by eassumption. now rewrite IH.
  - rewrite (operator_not_call n Hnode).
    rewrite !emit_operator by apply Hnode.
    fold (prepareTree l). now rewrite IHl, IHr.
  - rewrite (operator_not_call n Hnode).
    rewrite !emit_operator by apply Hnode.
    fold (prepareTree l). now rewrite IHl.
Qed.

(** ** Running the program of a tree *)

Hypothesis push_var_is_not_binary :
  has_mask TR_UOP_PUSH_VAR TR_OP_BINARY_MASK = false.

Lemma Exec_push_ref (ref : option VAR_REF) (ctx : CONTEXT) :
  Exec (UOP_ref TR_UOP_PUSH_VALUE ref) ctx = Ok (Push None ctx).
Proof.
  destruct exec_label_tests as (H & _). apply Z.eqb_neq in H.
  unfold Exec, UOP_ref. cbn [m_op m_value]. now rewrite H, Z.eqb_refl.
Qed.

Lemma Exec_push_var (v : VAR_REF) (ctx ctx1 : CONTEXT) (x : VALUE) :
  GetValue v ctx = Fetched x ctx1 ->
  Exec (UOP_ref TR_UOP_PUSH_VAR (Some v)) ctx = Ok (Push (Some x) ctx1).
Proof.
  intros Hget. unfold Exec, UOP_ref. cbn [m_op m_ref]. rewrite Z.eqb_refl.
  cbn [deref bind]. rewrite Hget. unfold Exec_operator. cbn [m_op].
  rewrite push_var_is_not_binary.
  destruct (has_mask TR_UOP_PUSH_VAR TR_OP_UNARY_MASK); reflexivity.
Qed.

Lemma Exec_method (f : FUNC_CALL_REF) (ref : option VAR_REF) (ctx : CONTEXT)
    (a : option VALUE) (rest : list (option VALUE)) :
  function_contract f ->
  m_stack ctx = a :: rest ->
  exists v ctx',
    Exec (UOP_func TR_OP_METHOD_CALL (Some f) ref) ctx = Ok ctx'
    /\ m_stack ctx' = v :: rest.
Proof.
  intros Hf Hst. destruct exec_label_tests as (_ & H2 & H3).
  apply Z.eqb_neq in H3. assert (H2' : TR_OP_METHOD_CALL <> TR_UOP_PUSH_VALUE)
    by (intro E; apply H2; now symmetry).
  apply Z.eqb_neq in H2'.
  destruct (Hf ctx ref a rest Hst) as (v & ctx' & Hret & Hst').
  exists v, ctx'. split; [|exact Hst'].
  unfold Exec, UOP_func. cbn [m_op m_func m_ref].
  now rewrite H3, H2', Z.eqb_refl, Hret.
Qed.

Lemma Exec_no_op (op : Z) (ctx : CONTEXT) :
  operator_code op ->
  has_mask op TR_OP_BINARY_MASK = false ->
  Exec (UOP_ref op None) ctx = Ok ctx.
Proof.
  intros Hop Hbin. rewrite (Exec_operator_code (UOP_ref op None) ctx Hop).
  unfold Exec_operator. cbn [m_op UOP_ref]. rewrite Hbin.
  destruct (has_mask op TR_OP_UNARY_MASK); reflexivity.
Qed.

Lemma generateUCode_node (fuel : nat) (c : COMPILER) (aCode : list UOP)
    (pf : CONTEXT) (n : TREE_NODE) (l r : TREE) :
  m_tree c = Node n l r ->
  generateUCode fuel c aCode pf
  = (s <- gen_loop fuel
            (mkGEN (set_tree (prepareTree (m_tree c)) c) [[]] aCode pf) ;;
     Ok (true, g_compiler s, g_code s, g_preflight s)).
Proof.
  intros H. unfold generateUCode. rewrite H. reflexivity.
Qed.

End Balance.

(** * The tokenizer and the lexer on their own *)

Section String_facts.

Lemma get_none (s : string) (n : nat) :
  String.get n s = None <-> (String.length s <= n)%nat.
Proof.
  revert n. induction s as [|a s IH]; intros n; simpl.
  - split; [lia | reflexivity].
  - destruct n as [|n]; [split; [discriminate | lia]|].
    rewrite IH. lia.
Qed.

Lemma get_some_lt (s : string) (n : nat) (ch : ascii) :
  String.get n s = Some ch -> (n < String.length s)%nat.
Proof.
  intros H. destruct (Nat.lt_ge_cases n (String.length s)) as [|Hge]; auto.
  apply get_none in Hge. congruence.
Qed.

Lemma char_at_get (s : string) (n : nat) :
  (n < String.length s)%nat -> String.get n s = Some (char_at s n).
Proof.
  intros H. destruct (get_in_range s n H) as [ch Hch].
  unfold char_at. now rewrite Hch.
Qed.

Lemma char_at_past (s : string) (n : nat) :
  (String.length s <= n)%nat -> char_at s n = Ascii.zero.
Proof.
  intros H. apply get_none in H. unfold char_at. now rewrite H.
Qed.

Lemma char_at_in_range (s : string) (n : nat) :
  char_at s n <> Ascii.zero -> (n < String.length s)%nat.
Proof.
  intros H. destruct (Nat.lt_ge_cases n (String.length s)) as [|Hge]; auto.
  now apply char_at_past in Hge.
Qed.

Lemma length_substring_le (s : string) (n m : nat) :
  (String.length (substring n m s) <= m)%nat.
Proof.
  apply get_none. apply substring_correct2. lia.
Qed.

Lemma length_append (a b : string) :
  String.length (String.append a b) = (String.length a + String.length b)%nat.
Proof.
  induction a as [|ch a IH]; simpl; [reflexivity | now rewrite IH].
Qed.

Lemma take_while_get (cond : ascii -> bool) (w : string) (i : nat)
    (ch : ascii) :
  String.get i (take_while cond w) = Some ch ->
  String.get i w = Some ch /\ cond ch = true.
Proof.
  revert i. induction w as [|a w IH]; intros i H; simpl in *.
  - discriminate.
  - destruct (cond a) eqn:E; simpl in H; [|discriminate].
    destruct i as [|i]; [injection H as <-; auto | now apply IH].
Qed.

Lemma take_while_stop (cond : ascii -> bool) (w : string) (ch : ascii) :
  String.get (String.length (take_while cond w)) w = Some ch ->
  cond ch = false.
Proof.
  induction w as [|a w IH]; simpl; [discriminate|].
  destruct (cond a) eqn:E; simpl; [exact IH|].
  intros H. now injection H as <-.
Qed.

Lemma take_while_first (cond : ascii -> bool) (w : string) (ch : ascii) :
  String.get 0 w = Some ch -> cond ch = true ->
  (1 <= String.length (take_while cond w))%nat.
Proof.
  destruct w as [|a w]; simpl; [discriminate|].
  intros H Hc. injection H as ->. rewrite Hc. simpl. lia.
Qed.

End String_facts.

Section Tokenizer_runs.

(** The text from the cursor on, of which [GetChars] takes a prefix. *)
Lemma rest_get (t : TOKENIZER) (i : nat) (ch : ascii) :
  String.get i
    (substring (m_pos t) (String.length (m_str t) - m_pos t) (m_str t))
  = Some ch ->
  String.get (i + m_pos t) (m_str t) = Some ch.
Proof.
  intros H. pose proof (get_some_lt _ _ _ H) as Hlt.
  pose proof (length_substring_le (m_str t) (m_pos t)
                (String.length (m_str t) - m_pos t)) as Hle.
  rewrite substring_correct1 in H by lia. exact H.
Qed.

Lemma GetChars_text (cond : ascii -> bool) (t : TOKENIZER) :
  substring (m_pos t) (String.length (GetChars cond t)) (m_str t)
  = GetChars cond t.
Proof.
  apply get_correct. intros i.
  destruct (Nat.lt_ge_cases i (String.length (GetChars cond t))) as [Hlt|Hge].
  - rewrite substring_correct1 by exact Hlt.
    destruct (get_in_range _ i Hlt) as [ch Hch]. rewrite Hch.
    unfold GetChars in Hch. apply take_while_get in Hch.
    now apply rest_get.
  - rewrite substring_correct2 by exact Hge.
    symmetry. now apply get_none.
Qed.

Lemma GetChars_all (cond : ascii -> bool) (t : TOKENIZER) (i : nat)
    (ch : ascii) :
  String.get i (GetChars cond t) = Some ch -> cond ch = true.
Proof. unfold GetChars. intros H. now apply take_while_get in H. Qed.

Lemma GetChars_stop (cond : ascii -> bool) (t : TOKENIZER) (ch : ascii) :
  String.get (m_pos t + String.length (GetChars cond t)) (m_str t) = Some ch ->
  cond ch = false.
Proof.
  intros H. pose proof (get_some_lt _ _ _ H) as Hlt.
  unfold GetChars in *.
  apply (take_while_stop cond
           (substring (m_pos t) (String.length (m_str t) - m_pos t)
              (m_str t))).
  rewrite substring_correct1 by lia.
  rewrite Nat.add_comm. exact H.
Qed.

(** X1.  [TOKENIZER::GetChars] returns the longest run of characters that
    satisfy the condition, starting at the cursor: the run is the text under
    the cursor, each of its characters satisfies the condition, and the
    character after it, if there is one, does not. *)
Theorem GetChars_longest_run (cond : ascii -> bool) (t : TOKENIZER) :
  let run := GetChars cond t in
  substring (m_pos t) (String.length run) (m_str t) = run
  /\ (forall i ch, String.get i run = Some ch -> cond ch = true)
  /\ (forall ch,
      String.get (m_pos t + String.length run) (m_str t) = Some ch ->
      cond ch = false).
Proof.
  cbv zeta. split; [apply GetChars_text|].
  split.
  - intros i ch. apply GetChars_all.
  - intros ch. apply GetChars_stop.
Qed.

Lemma GetChars_first (cond : ascii -> bool) (t : TOKENIZER) :
  GetChar t <> Ascii.zero -> cond (GetChar t) = true ->
  (1 <= String.length (GetChars cond t))%nat.
Proof.
  intros Hz Hc. apply char_at_in_range in Hz.
  unfold GetChars. apply (take_while_first cond _ (GetChar t)); [|exact Hc].
  rewrite substring_correct1 by lia. simpl. now apply char_at_get.
Qed.

End Tokenizer_runs.

Section Lexer_facts.

Context {oc : OPCODES} {tk : TOKENS} {host : HOST}.
Variable PARSER : Type.

Abbreviation COMPILER := (COMPILER PARSER).

Lemma set_tokenizer_same (c : COMPILER) : set_tokenizer (m_tokenizer c) c = c.
Proof. now destruct c. Qed.

Lemma tokenizer_eta (t : TOKENIZER) : mkTOKENIZER (m_str t) (m_pos t) = t.
Proof. now destruct t. Qed.

Lemma Done_false (t : TOKENIZER) :
  GetChar t <> Ascii.zero -> Done t = false.
Proof.
  intros H. apply char_at_in_range in H. unfold Done.
  apply Nat.leb_gt. exact H.
Qed.

Lemma eqb_false (a b : ascii) : a <> b -> Ascii.eqb a b = false.
Proof. intros H. now destruct (Ascii.eqb_spec a b). Qed.

(** ** Whitespace *)

Lemma skip_spaces_none (fuel : nat) (t : TOKENIZER) :
  Ascii.eqb (GetChar t) " " = false -> skip_spaces fuel t = t.
Proof. intros H. destruct fuel; simpl; [reflexivity | now rewrite H]. Qed.

Lemma skip_spaces_enough (f1 f2 : nat) (t : TOKENIZER) :
  (String.length (m_str t) - m_pos t <= f1)%nat ->
  (String.length (m_str t) - m_pos t <= f2)%nat ->
  skip_spaces f1 t = skip_spaces f2 t.
Proof.
  revert f2 t. induction f1 as [|f1 IH]; intros f2 t H1 H2.
  - assert (Hz : GetChar t = Ascii.zero) by (apply char_at_past; lia).
    rewrite !skip_spaces_none by (now rewrite Hz). reflexivity.
  - destruct f2 as [|f2].
    + assert (Hz : GetChar t = Ascii.zero) by (apply char_at_past; lia).
      rewrite !skip_spaces_none by (now rewrite Hz). reflexivity.
    + simpl. destruct (Ascii.eqb (GetChar t) " ") eqn:E; [|reflexivity].
      apply IH; simpl; lia.
Qed.

Lemma skip_spaces_spec (fuel : nat) (t : TOKENIZER) :
  (String.length (m_str t) - m_pos t <= fuel)%nat ->
  m_str (skip_spaces fuel t) = m_str t
  /\ (m_pos t <= m_pos (skip_spaces fuel t))%nat
  /\ Ascii.eqb (GetChar (skip_spaces fuel t)) " " = false.
Proof.
  revert t. induction fuel as [|fuel IH]; intros t H; simpl.
  - repeat split; auto.
    assert (Hz : GetChar t = Ascii.zero) by (apply char_at_past; lia).
    now rewrite Hz.
  - destruct (Ascii.eqb (GetChar t) " ") eqn:E; [|repeat split; auto].
    destruct (IH (NextChar 1 t)) as (Hs & Hp & Hc); [simpl; lia|].
    simpl in Hs, Hp. repeat split; auto. lia.
Qed.

(** X2.  Spaces before a token are skipped: in the default state the lexer
    returns the same token, and leaves the same compiler, whether the cursor
    stands on a space or just after it. *)
Theorem getToken_skips_space (c : COMPILER) :
  m_lexerState c = LS_DEFAULT ->
  GetChar (m_tokenizer c) = " "%char ->
  getToken c = getToken (advance 1 c).
Proof.
  intros Hls Hsp.
  assert (Hin : (m_pos (m_tokenizer c)
                 < String.length (m_str (m_tokenizer c)))%nat).
  { apply char_at_in_range. unfold GetChar in Hsp. rewrite Hsp. discriminate. }
  assert (Hlex : lexDefault (token_of 0 None 0) c
                 = lexDefault (token_of 0 None 0) (advance 1 c)).
  { unfold lexDefault.
    assert (Hd : Done (m_tokenizer c) = false)
      by (unfold Done; apply Nat.leb_gt; exact Hin).
    rewrite Hd.
    assert (Hskip : skip_spaces (String.length (m_str (m_tokenizer c)))
                      (m_tokenizer c)
                    = skip_spaces (String.length (m_str (m_tokenizer c)))
                        (NextChar 1 (m_tokenizer c))).
    { rewrite (skip_spaces_enough _
                 (S (String.length (m_str (m_tokenizer c))))) by lia.
      cbn [skip_spaces]. rewrite Hsp, Ascii.eqb_refl. reflexivity. }
    destruct (Done (m_tokenizer (advance 1 c))) eqn:Hd1.
    - unfold Done in Hd1. apply Nat.leb_le in Hd1. cbn in Hd1.
      assert (Hz : GetChar (NextChar 1 (m_tokenizer c)) = Ascii.zero)
        by (apply char_at_past; simpl; lia).
      rewrite Hskip, skip_spaces_none by now rewrite Hz.
      cbn [m_tokenizer set_tokenizer]. rewrite Hz.
      reflexivity.
    - rewrite Hskip. reflexivity. }
  unfold getToken. rewrite Hls. cbn [m_lexerState advance set_tokenizer].
  rewrite Hls. rewrite Hlex. reflexivity.
Qed.

(** ** Numbers *)

Lemma normalize_separators_get (c : COMPILER) (text : string) (i : nat) :
  String.get i (normalize_separators c text)
  = match String.get i text with
    | Some ch =>
        Some (if isDecimalSeparator c ch then m_localeDecimalSeparator c
              else ch)
    | None => None
    end.
Proof.
  revert i. induction text as [|a text IH]; intros i; simpl; [reflexivity|].
  destruct i; [reflexivity | apply IH].
Qed.

Lemma normalize_separators_length (c : COMPILER) (text : string) :
  String.length (normalize_separators c text) = String.length text.
Proof.
  induction text as [|a text IH]; simpl; [reflexivity | now rewrite IH].
Qed.

Lemma get_append_last (cur : string) (ch : ascii) (i : nat) :
  String.get i (String.append cur (String ch EmptyString))
  = if (i <? String.length cur)%nat then String.get i cur
    else if (i =? String.length cur)%nat then Some ch else None.
Proof.
  destruct (Nat.ltb_spec i (String.length cur)) as [Hlt|Hge].
  - symmetry. now apply append_correct1.
  - destruct (Nat.eqb_spec i (String.length cur)) as [->|Hne].
    + symmetry. apply (append_correct2 cur (String ch EmptyString) 0).
    + apply get_none. rewrite length_append. simpl. lia.
Qed.

(** The loop of [extractNumber], entered with [k] characters read. *)
Lemma extractNumber_loop_spec (c : COMPILER) :
  forall (fuel k : nat) (hs : bool) (cur : string) (t : TOKENIZER),
    m_str t = m_str (m_tokenizer c) ->
    m_pos t = (m_pos (m_tokenizer c) + k)%nat ->
    String.length cur = k ->
    (forall i, (i < k)%nat ->
       String.get i cur = Some (ahead c i)
       /\ (isdigit (ahead c i) = true \/ separator_ahead c i = true)) ->
    (forall i j, (i < j < k)%nat ->
       separator_ahead c i = true -> separator_ahead c j = false) ->
    (hs = true <-> exists i, (i < k)%nat /\ separator_ahead c i = true) ->
    isdigit (ahead c k) || separator_ahead c k = true ->
    (separator_ahead c k && hs = true
     \/ (String.length (m_str t) - m_pos t + 2 <= fuel)%nat) ->
    exists (n : nat) (cur' : string) (t' : TOKENIZER),
      extractNumber_loop fuel c hs (ahead c k) cur t = (cur', t')
      /\ m_str t' = m_str t
      /\ m_pos t' = (m_pos (m_tokenizer c) + n)%nat
      /\ (k <= n)%nat
      /\ (separator_ahead c k && hs = false -> (k < n)%nat)
      /\ String.length cur' = n
      /\ (forall i, (i < n)%nat ->
            String.get i cur' = Some (ahead c i)
            /\ (isdigit (ahead c i) = true \/ separator_ahead c i = true))
      /\ (forall i j, (i < j < n)%nat ->
            separator_ahead c i = true -> separator_ahead c j = false)
      /\ (isdigit (ahead c n) || separator_ahead c n = false
          \/ separator_ahead c n = true
             /\ exists i, (i < n)%nat /\ separator_ahead c i = true).
Proof.
  induction fuel as [|fuel IH];
    intros k hs cur t Hstr Hpos Hlen Hcur Hone Hhs Hentry Hfuel.
  all: assert (Hstay : separator_ahead c k && hs = true ->
         m_str t = m_str t
         /\ m_pos t = (m_pos (m_tokenizer c) + k)%nat
         /\ (k <= k)%nat
         /\ (separator_ahead c k && hs = false -> (k < k)%nat)
         /\ String.length cur = k
         /\ (forall i, (i < k)%nat ->
               String.get i cur = Some (ahead c i)
               /\ (isdigit (ahead c i) = true \/ separator_ahead c i = true))
         /\ (forall i j, (i < j < k)%nat ->
               separator_ahead c i = true -> separator_ahead c j = false)
         /\ (isdigit (ahead c k) || separator_ahead c k = false
             \/ separator_ahead c k = true
                /\ exists i, (i < k)%nat /\ separator_ahead c i = true)).
  1,3: intros Hb; split; [reflexivity|]; split; [exact Hpos|];
       split; [lia|]; split; [rewrite Hb; discriminate|];
       split; [exact Hlen|]; split; [exact Hcur|]; split; [exact Hone|];
       right; apply andb_true_iff in Hb; destruct Hb as [Hs Hh];
       split; [exact Hs | now apply Hhs].
  - destruct Hfuel as [Hbreak|Hfuel]; [|lia].
    exists k, cur, t. cbn [extractNumber_loop].
    split; [reflexivity | now apply Hstay].
  - cbn [extractNumber_loop]. fold (separator_ahead c k).
    destruct (separator_ahead c k && hs) eqn:Hbreak.
    + exists k, cur, t. split; [reflexivity | now apply Hstay].
    + destruct Hfuel as [Hf|Hfuel]; [discriminate|].
      set (cur1 := String.append cur (String (ahead c k) EmptyString)).
      set (hs1 := hs || separator_ahead c k).
      assert (Hnext : GetChar (NextChar 1 t) = ahead c (S k)).
      { unfold GetChar, ahead. cbn [m_str m_pos NextChar].
        rewrite Hstr, Hpos. f_equal. lia. }
      rewrite Hnext.
      assert (Hlen1 : String.length cur1 = S k).
      { unfold cur1. rewrite length_append, Hlen. simpl. lia. }
      assert (Hcur1 : forall i, (i < S k)%nat ->
                String.get i cur1 = Some (ahead c i)
                /\ (isdigit (ahead c i) = true \/ separator_ahead c i = true)).
      { intros i Hi. unfold cur1. rewrite get_append_last, Hlen.
        destruct (Nat.ltb_spec i k) as [Hlt|Hge]; [now apply Hcur|].
        assert (i = k) by lia. subst i. rewrite Nat.eqb_refl.
        split; [reflexivity|]. now apply orb_true_iff in Hentry. }
      assert (Hone1 : forall i j, (i < j < S k)%nat ->
                separator_ahead c i = true -> separator_ahead c j = false).
      { intros i j Hij Hi.
        destruct (Nat.eq_dec j k) as [->|Hne];
          [|apply (Hone i j); [lia|exact Hi]].
        assert (Hh : hs = true) by (apply Hhs; exists i; split; [lia|exact Hi]).
        rewrite Hh, andb_true_r in Hbreak. exact Hbreak. }
      assert (Hhs1 : hs1 = true <->
                exists i, (i < S k)%nat /\ separator_ahead c i = true).
      { unfold hs1. rewrite orb_true_iff. split.
        - intros [Hh|Hs].
          + apply Hhs in Hh. destruct Hh as (i & Hi & Hsep).
            exists i. split; [lia | exact Hsep].
          + exists k. split; [lia | exact Hs].
        - intros (i & Hi & Hsep).
          destruct (Nat.eq_dec i k) as [->|Hne]; [right; exact Hsep|].
          left. apply Hhs. exists i. split; [lia | exact Hsep]. }
      fold (separator_ahead c (S k)).
      destruct (isdigit (ahead c (S k)) || separator_ahead c (S k)) eqn:Hgo.
      * destruct (IH (S k) hs1 cur1 (NextChar 1 t)) as
          (n & cur' & t' & Hrun & Hs' & Hp' & Hkn & _ & Hl' & Hc' & Ho'
           & Hstop);
          auto.
        -- cbn [m_pos NextChar]. rewrite Hpos. lia.
        -- cbn [m_str m_pos NextChar].
           destruct (Nat.lt_ge_cases (m_pos t) (String.length (m_str t)))
             as [Hlt|Hge]; [right; lia | left].
           assert (Hz : forall i, (k <= i)%nat -> ahead c i = Ascii.zero).
           { intros i Hi. unfold ahead. apply char_at_past.
             rewrite <- Hstr. lia. }
           assert (Hsk : separator_ahead c k = true).
           { apply orb_true_iff in Hentry. destruct Hentry as [Hd|Hs]; auto.
             rewrite Hz in Hd by lia. discriminate Hd. }
           unfold hs1. rewrite Hsk, orb_true_r, andb_true_r.
           unfold separator_ahead in *. rewrite Hz by lia.
           rewrite Hz in Hsk by lia. exact Hsk.
        -- exists n, cur', t'. rewrite Hrun.
           split; [reflexivity|]. split; [exact Hs'|]. split; [exact Hp'|].
           split; [lia|]. split; [intros _; lia|]. split; [exact Hl'|].
           split; [exact Hc'|]. split; [exact Ho' | exact Hstop].
      * exists (S k), cur1, (NextChar 1 t).
        split; [reflexivity|]. split; [reflexivity|].
        split; [cbn [m_pos NextChar]; rewrite Hpos; lia|].
        split; [lia|]. split; [intros _; lia|]. split; [exact Hlen1|].
        split; [exact Hcur1|]. split; [exact Hone1|]. left. exact Hgo.
Qed.

Lemma isdigit_not_space (ch : ascii) :
  isdigit ch = true ->
  Ascii.eqb ch " " = false /\ Ascii.eqb ch Ascii.zero = false.
Proof.
  intros H. split; apply eqb_false; intros ->; discriminate H.
Qed.

Lemma extractNumber_spec (c : COMPILER) :
  isdigit (GetChar (m_tokenizer c)) = true ->
  exists text : string,
    let n := String.length text in
    extractNumber c = (text, advance n c)
    /\ (1 <= n)%nat
    /\ (forall i, (i < n)%nat ->
        String.get i text
        = Some (if separator_ahead c i then m_localeDecimalSeparator c
                else ahead c i)
        /\ (isdigit (ahead c i) = true \/ separator_ahead c i = true))
    /\ (forall i j, (i < j < n)%nat ->
        separator_ahead c i = true -> separator_ahead c j = false)
    /\ (isdigit (ahead c n) || separator_ahead c n = false
        \/ separator_ahead c n = true
           /\ exists i, (i < n)%nat /\ separator_ahead c i = true).
Proof.
  intros Hd.
  assert (Hahead : ahead c 0 = GetChar (m_tokenizer c)).
  { unfold ahead, GetChar. now rewrite Nat.add_0_r. }
  assert (Hentry : isdigit (ahead c 0) || separator_ahead c 0 = true)
    by (rewrite Hahead, Hd; reflexivity).
  assert (Hnone : false = true <->
            exists i, (i < 0)%nat /\ separator_ahead c i = true)
    by (split; [discriminate | intros (i & Hi & _); lia]).
  destruct (extractNumber_loop_spec c
              (String.length (m_str (m_tokenizer c)) - m_pos (m_tokenizer c)
               + 2)
              0 false EmptyString (m_tokenizer c) eq_refl
              (eq_sym (Nat.add_0_r _)) eq_refl
              ltac:(intros i Hi; lia) ltac:(intros i j Hij; lia)
              Hnone Hentry ltac:(right; lia))
    as (n & cur & t' & Hrun & Hs' & Hp' & _ & Hkn & Hl' & Hc' & Ho' & Hstop).
  exists (normalize_separators c cur).
  rewrite normalize_separators_length, Hl'. cbv zeta.
  split; [|split; [|split; [|split]]].
  - unfold extractNumber. rewrite <- Hahead, Hrun.
    f_equal. unfold advance, NextChar. f_equal.
    rewrite <- Hs', <- Hp'. symmetry. apply tokenizer_eta.
  - apply Hkn. now rewrite andb_false_r.
  - intros i Hi. destruct (Hc' i Hi) as [Hg Hk].
    rewrite normalize_separators_get, Hg. split; [reflexivity | exact Hk].
  - exact Ho'.
  - exact Hstop.
Qed.

(** X3.  A token that starts with a digit is a number: the lexer reads digits
    and decimal separators (the locale's, the point and the comma) up to the
    first character that is neither, or up to a second separator; the token's
    text is the text read with every separator replaced by the locale's, and
    the cursor stands just after it. *)
Theorem getToken_number (c : COMPILER) :
  m_lexerState c = LS_DEFAULT ->
  isdigit (GetChar (m_tokenizer c)) = true ->
  exists text : string,
    let n := String.length text in
    getToken c = (token_of G_VALUE (Some text) 0, advance n c)
    /\ (1 <= n)%nat
    /\ (forall i, (i < n)%nat ->
        String.get i text
        = Some (if separator_ahead c i then m_localeDecimalSeparator c
                else ahead c i)
        /\ (isdigit (ahead c i) = true \/ separator_ahead c i = true))
    /\ (forall i j, (i < j < n)%nat ->
        separator_ahead c i = true -> separator_ahead c j = false)
    /\ (isdigit (ahead c n) || separator_ahead c n = false
        \/ separator_ahead c n = true
           /\ exists i, (i < n)%nat /\ separator_ahead c i = true).
Proof.
  intros Hls Hd.
  destruct (isdigit_not_space _ Hd) as [Hsp Hz].
  destruct (extractNumber_spec c Hd) as (text & Hrun & Hrest).
  exists text. cbv zeta. split; [|exact Hrest].
  unfold getToken. rewrite Hls. unfold lexDefault.
  rewrite Done_false by (intros E; rewrite E in Hz; discriminate Hz).
  rewrite skip_spaces_none by exact Hsp.
  rewrite set_tokenizer_same, Hz, Hd, Hrun. reflexivity.
Qed.

(** ** Units, string literals and identifiers *)

Lemma resolveUnits_cases (c : COMPILER) :
  (no_unit_at (m_tokenizer c) /\ resolveUnits c = (-1, c))
  \/ (exists i name,
        nth_error GetSupportedUnits i = Some name
        /\ MatchAhead name not_alnum (m_tokenizer c) = true
        /\ resolveUnits c = (Z.of_nat i, advance (String.length name) c)).
Proof.
  unfold resolveUnits.
  destruct (resolveUnits_from GetSupportedUnits 0 (m_tokenizer c))
    as [id t'] eqn:E.
  apply resolveUnits_from_first in E.
  destruct E as [(-> & -> & Hnone)|(i & name & -> & Hnth & -> & Hm & _)].
  - left. split; [exact Hnone | now rewrite set_tokenizer_same].
  - right. exists i, name. repeat split; auto.
Qed.

Lemma resolveUnits_none (c : COMPILER) :
  no_unit_at (m_tokenizer c) -> resolveUnits c = (-1, c).
Proof.
  intros H. destruct (resolveUnits_cases c) as [[_ E]|(i & name & Hn & Hm & _)].
  - exact E.
  - apply nth_error_In in Hn. rewrite (H _ Hn) in Hm. discriminate.
Qed.

Lemma resolveUnits_first (c : COMPILER) (name : string) :
  In name GetSupportedUnits ->
  MatchAhead name not_alnum (m_tokenizer c) = true ->
  exists i first,
    nth_error GetSupportedUnits i = Some first
    /\ MatchAhead first not_alnum (m_tokenizer c) = true
    /\ (forall j other, (j < i)%nat ->
        nth_error GetSupportedUnits j = Some other ->
        MatchAhead other not_alnum (m_tokenizer c) = false)
    /\ resolveUnits c = (Z.of_nat i, advance (String.length first) c).
Proof.
  intros Hin Hm. unfold resolveUnits.
  destruct (resolveUnits_from GetSupportedUnits 0 (m_tokenizer c))
    as [id t'] eqn:E.
  apply resolveUnits_from_first in E.
  destruct E as [(_ & _ & Hnone)|(i & first & -> & Hnth & -> & Hf & Hfirst)].
  - rewrite (Hnone _ Hin) in Hm. discriminate.
  - exists i, first. split; [exact Hnth|]. split; [exact Hf|].
    split; [exact Hfirst | reflexivity].
Qed.

(** X4.  Where a unit name matches at the cursor, and the cursor is not on a
    space, a digit or the end of the text, the lexer returns a unit token,
    whatever else the text could be: the units are tried before the string
    literals, the identifiers and the operators, so that a word spelled like a
    unit is never lexed as an identifier.  The token is that of the first
    unit name, in the configured order, that matches: no name before it
    does. *)
Theorem unit_name_shadows_identifier (c : COMPILER) (name : string) :
  m_lexerState c = LS_DEFAULT ->
  In name GetSupportedUnits ->
  MatchAhead name not_alnum (m_tokenizer c) = true ->
  GetChar (m_tokenizer c) <> " "%char ->
  GetChar (m_tokenizer c) <> Ascii.zero ->
  isdigit (GetChar (m_tokenizer c)) = false ->
  exists i first,
    nth_error GetSupportedUnits i = Some first
    /\ MatchAhead first not_alnum (m_tokenizer c) = true
    /\ (forall j other, (j < i)%nat ->
        nth_error GetSupportedUnits j = Some other ->
        MatchAhead other not_alnum (m_tokenizer c) = false)
    /\ getToken c
       = (token_of G_UNIT None (Z.of_nat i), advance (String.length first) c).
Proof.
  intros Hls Hin Hm Hsp Hz Hd.
  destruct (resolveUnits_first c name Hin Hm)
    as (i & first & Hn & Hf & Hfirst & E).
  exists i, first. split; [exact Hn|]. split; [exact Hf|].
  split; [exact Hfirst|].
  unfold getToken. rewrite Hls. unfold lexDefault.
  rewrite Done_false by exact Hz.
  rewrite skip_spaces_none by now apply eqb_false.
  rewrite set_tokenizer_same, (eqb_false _ _ Hz), Hd, E.
  assert (Hid : (0 <=? Z.of_nat i) = true) by (apply Z.leb_le; lia).
  rewrite Hid. reflexivity.
Qed.

Lemma identifier_start (ch : ascii) :
  isalpha ch || Ascii.eqb ch "_" = true ->
  ch <> " "%char /\ ch <> Ascii.zero /\ isdigit ch = false /\ ch <> "'"%char
  /\ isalnum ch || Ascii.eqb ch "_" = true.
Proof.
  destruct ch as [b0 b1 b2 b3 b4 b5 b6 b7].
  destruct b0, b1, b2, b3, b4, b5, b6, b7; intros H;
    try discriminate H;
    (split; [discriminate|]); (split; [discriminate|]);
    (split; [reflexivity|]); (split; [discriminate | reflexivity]).
Qed.

(** X5.  A token that starts with a letter or an underscore, where no unit
    name matches, is an identifier: its text is the longest run of letters,
    digits and underscores under the cursor, and the cursor stands just after
    it. *)
Theorem getToken_identifier (c : COMPILER) :
  m_lexerState c = LS_DEFAULT ->
  isalpha (GetChar (m_tokenizer c))
  || Ascii.eqb (GetChar (m_tokenizer c)) "_" = true ->
  no_unit_at (m_tokenizer c) ->
  exists name : string,
    let n := String.length name in
    let t := m_tokenizer c in
    getToken c = (token_of G_IDENTIFIER (Some name) 0, advance n c)
    /\ (1 <= n)%nat
    /\ substring (m_pos t) n (m_str t) = name
    /\ (forall i ch, String.get i name = Some ch ->
        isalnum ch || Ascii.eqb ch "_" = true)
    /\ (forall ch, String.get (m_pos t + n) (m_str t) = Some ch ->
        isalnum ch || Ascii.eqb ch "_" = false).
Proof.
  intros Hls Hstart Hnone.
  destruct (identifier_start _ Hstart) as (Hsp & Hz & Hd & Hq & Hc).
  set (cond := fun x : ascii => isalnum x || Ascii.eqb x "_").
  exists (GetChars cond (m_tokenizer c)). cbv zeta.
  split; [|split; [|split; [|split]]].
  - unfold getToken. rewrite Hls. unfold lexDefault.
    rewrite Done_false by exact Hz.
    rewrite skip_spaces_none by now apply eqb_false.
    rewrite set_tokenizer_same, (eqb_false _ _ Hz), Hd.
    rewrite (resolveUnits_none c Hnone).
    cbn [Z.leb Z.compare]. rewrite (eqb_false _ _ Hq), Hstart.
    reflexivity.
  - now apply GetChars_first.
  - apply GetChars_text.
  - intros i ch. apply (GetChars_all cond).
  - intros ch. apply (GetChars_stop cond).
Qed.

(** X6.  A string literal, where no unit name matches at its opening quote:
    the token's text is the text after the quote up to the next quote, and the
    cursor stands just after that quote.  Where there is no next quote the
    literal runs to the end of the text, no error is reported, and the cursor
    is left one place past the end. *)
Theorem getToken_string_literal (c : COMPILER) :
  m_lexerState c = LS_DEFAULT ->
  GetChar (m_tokenizer c) = "'"%char ->
  no_unit_at (m_tokenizer c) ->
  exists body : string,
    let n := String.length body in
    let t := m_tokenizer c in
    getToken c = (token_of G_STRING (Some body) 0, advance (n + 2) c)
    /\ substring (m_pos t + 1) n (m_str t) = body
    /\ (forall i ch, String.get i body = Some ch -> ch <> "'"%char)
    /\ (forall ch, String.get (m_pos t + 1 + n) (m_str t) = Some ch ->
        ch = "'"%char).
Proof.
  intros Hls Hq Hnone.
  set (cond := fun ch : ascii => negb (Ascii.eqb ch "'")).
  set (t1 := NextChar 1 (m_tokenizer c)).
  exists (GetChars cond t1). cbv zeta.
  split; [|split; [|split]].
  - unfold getToken. rewrite Hls. unfold lexDefault.
    rewrite Done_false by (rewrite Hq; discriminate).
    rewrite skip_spaces_none by now rewrite Hq.
    rewrite set_tokenizer_same, Hq.
    change (Ascii.eqb "'" Ascii.zero) with false.
    change (isdigit "'") with false. cbv iota.
    rewrite (resolveUnits_none c Hnone), Ascii.eqb_refl.
    cbn [Z.leb Z.compare m_lexerState advance set_tokenizer set_lexerState].
    unfold lexString. fold cond.
    cbn [m_tokenizer set_tokenizer set_lexerState]. fold t1.
    destruct c as [p t sep ls pos fin tree err]. cbn in Hls. subst ls.
    unfold advance, set_tokenizer, set_lexerState, NextChar. cbn.
    assert (Harith : forall a n : nat, (a + 1 + (n + 1) = a + (n + 2))%nat)
      by (intros; lia).
    rewrite Harith. reflexivity.
  - apply (GetChars_text cond t1).
  - intros i ch H. apply GetChars_all in H. unfold cond in H.
    intros ->. discriminate H.
  - intros ch H. apply (GetChars_stop cond t1) in H. unfold cond in H.
    apply negb_false_iff in H. now apply Ascii.eqb_eq in H.
Qed.

(** ** Characters the lexer does not know *)

Lemma two_char_starts (a b last : ascii) (c : COMPILER) :
  two_char (String a (String b EmptyString)) last c = true ->
  GetChar (m_tokenizer c) = a /\ ahead c 1 = b.
Proof.
  unfold two_char. intros H. apply MatchAhead_true in H.
  destruct H as (Hlen & Hsub & _). simpl in Hlen.
  pose proof (f_equal (String.get 0) Hsub) as H0.
  pose proof (f_equal (String.get 1) Hsub) as H1.
  rewrite substring_correct1 in H0, H1 by (simpl; lia).
  simpl in H0, H1. unfold GetChar, ahead, char_at.
  rewrite H0.
  replace (m_pos (m_tokenizer c) + 1)%nat with (S (m_pos (m_tokenizer c)))
    by lia.
  rewrite H1. auto.
Qed.

Lemma no_operator_two_char (c : COMPILER) :
  no_operator_at (m_tokenizer c) ->
  two_char "==" "=" c = false /\ two_char "!=" "=" c = false
  /\ two_char "<=" "=" c = false /\ two_char ">=" "=" c = false
  /\ two_char "&&" "&" c = false /\ two_char "||" "|" c = false.
Proof.
  intros H. unfold two_char.
  split; [eapply H; cbn; eauto 7|]. split; [eapply H; cbn; eauto 7|].
  split; [eapply H; cbn; eauto 7|]. split; [eapply H; cbn; eauto 7|].
  split; eapply H; cbn; eauto 7.
Qed.

(** The last branch of [lexDefault]: what is left when the cursor is on no
    space, digit, unit, quote, letter or underscore, and on no operator of
    two characters. *)
Lemma lexDefault_single (c : COMPILER) :
  let ch := GetChar (m_tokenizer c) in
  m_lexerState c = LS_DEFAULT ->
  no_unit_at (m_tokenizer c) ->
  no_operator_at (m_tokenizer c) ->
  ch <> " "%char ->
  ch <> Ascii.zero ->
  isdigit ch = false ->
  Ascii.eqb ch "'" = false ->
  isalpha ch || Ascii.eqb ch "_" = false ->
  getToken c
  = match single_char_token ch with
    | Some id => (token_of id None 0, advance 1 c)
    | None =>
        (token_of G_ENDS None 0,
         advance 1
           (reportError CST_PARSE
              (quoted "Unrecognized character '" (String ch EmptyString))
              (-1) c))
    end.
Proof.
  intros ch Hls Hnone Hop Hsp Hz Hd Hq Hid.
  destruct (no_operator_two_char c Hop) as (E1 & E2 & E3 & E4 & E5 & E6).
  unfold getToken. rewrite Hls. unfold lexDefault.
  rewrite Done_false by exact Hz.
  rewrite skip_spaces_none by now apply eqb_false.
  rewrite set_tokenizer_same. fold ch.
  rewrite (eqb_false _ _ Hz), Hd, (resolveUnits_none c Hnone), Hq, Hid.
  cbn [Z.leb Z.compare].
  rewrite E1, E2, E3, E4, E5, E6.
  destruct (single_char_token ch); reflexivity.
Qed.

Lemma unrecognized_token (c : COMPILER) :
  let ch := GetChar (m_tokenizer c) in
  m_lexerState c = LS_DEFAULT ->
  no_unit_at (m_tokenizer c) ->
  no_operator_at (m_tokenizer c) ->
  ch <> " "%char ->
  ch <> Ascii.zero ->
  isalnum ch || Ascii.eqb ch "_" || Ascii.eqb ch "'" = false ->
  single_char_token ch = None ->
  getToken c
  = (token_of G_ENDS None 0,
     advance 1
       (reportError CST_PARSE
          (quoted "Unrecognized character '" (String ch EmptyString)) (-1) c)).
Proof.
  intros ch Hls Hnone Hop Hsp Hz Hclass Hsingle.
  apply orb_false_iff in Hclass. destruct Hclass as [Hclass Hq].
  apply orb_false_iff in Hclass. destruct Hclass as [Halnum Hus].
  unfold isalnum in Halnum. apply orb_false_iff in Halnum.
  destruct Halnum as [Halpha Hdigit].
  rewrite (lexDefault_single c Hls Hnone Hop Hsp Hz Hdigit Hq)
    by (fold ch; now rewrite Halpha, Hus).
  fold ch. now rewrite Hsingle.
Qed.

(** X7.  A character that starts no token (no space, letter, digit, underscore
    or quote, none of the operators of one character, and no unit name or
    operator of two characters matches at it): the lexer reports an
    [Unrecognized character] error of the parse stage at the compiler's
    current source position, steps over the character, and returns the
    end-of-input token. *)
Theorem getToken_unrecognized_character (c : COMPILER) :
  let ch := GetChar (m_tokenizer c) in
  m_lexerState c = LS_DEFAULT ->
  no_unit_at (m_tokenizer c) ->
  no_operator_at (m_tokenizer c) ->
  ch <> " "%char ->
  ch <> Ascii.zero ->
  isalnum ch || Ascii.eqb ch "_" || Ascii.eqb ch "'" = false ->
  single_char_token ch = None ->
  exists c',
    getToken c = (token_of G_ENDS None 0, c')
    /\ m_errorStatus c'
       = mkERROR_STATUS true CST_PARSE
           (String.append "Unrecognized character '"
              (String ch (String "'" EmptyString)))
           (m_sourcePos c)
    /\ m_tokenizer c' = NextChar 1 (m_tokenizer c).
Proof.
  intros ch Hls Hnone Hop Hsp Hz Hclass Hsingle.
  eexists. split; [apply unrecognized_token; assumption|].
  split; reflexivity.
Qed.

(** ** Progress of the lexer *)

Lemma units_advance (i : nat) (name : string) :
  units_not_empty -> nth_error GetSupportedUnits i = Some name ->
  (1 <= String.length name)%nat.
Proof.
  intros Hne Hn. apply nth_error_In in Hn. apply Hne in Hn.
  destruct name; [contradiction | simpl; lia].
Qed.

Lemma lexString_progress (c : COMPILER) :
  let '(done, _, c') := lexString c in
  done = true
  /\ m_str (m_tokenizer c') = m_str (m_tokenizer c)
  /\ m_lexerState c' = LS_DEFAULT
  /\ (m_pos (m_tokenizer c) < m_pos (m_tokenizer c'))%nat.
Proof.
  unfold lexString. cbn. repeat split. lia.
Qed.

Ltac lex_done H :=
  injection H as <- <- <-;
  cbn [m_tokenizer m_lexerState advance set_tokenizer set_lexerState m_str
       m_pos NextChar reportError set_errorStatus token token_of];
  repeat split; try discriminate; try congruence; try lia;
  try (intros _; repeat split; try congruence; try lia;
       try (right; lia); try (left; reflexivity)).

Lemma lexDefault_progress (aToken : T_TOKEN) (c : COMPILER) (done : bool)
    (tok : T_TOKEN) (c' : COMPILER) :
  units_not_empty ->
  lexDefault aToken c = (done, tok, c') ->
  m_str (m_tokenizer c') = m_str (m_tokenizer c)
  /\ (m_pos (m_tokenizer c) <= m_pos (m_tokenizer c'))%nat
  /\ (done = true ->
      m_lexerState c' = m_lexerState c
      /\ (token tok = G_ENDS
          \/ (m_pos (m_tokenizer c) < m_pos (m_tokenizer c'))%nat))
  /\ (done = false ->
      m_lexerState c' = LS_STRING
      /\ (m_pos (m_tokenizer c) < m_pos (m_tokenizer c'))%nat).
Proof.
  intros Hne H. unfold lexDefault in H.
  destruct (Done (m_tokenizer c)); [lex_done H|].
  destruct (skip_spaces_spec (String.length (m_str (m_tokenizer c)))
              (m_tokenizer c)) as (Hs & Hp & _); [lia|].
  set (t1 := skip_spaces (String.length (m_str (m_tokenizer c)))
               (m_tokenizer c)) in *.
  change (m_tokenizer (set_tokenizer t1 c)) with t1 in H.
  destruct (Ascii.eqb (GetChar t1) Ascii.zero); [lex_done H|].
  destruct (isdigit (GetChar t1)) eqn:Hd.
  { destruct (extractNumber_spec (set_tokenizer t1 c) Hd)
      as (text & E & Hn & _).
    cbv zeta in E. rewrite E in H. lex_done H. }
  destruct (resolveUnits_cases (set_tokenizer t1 c))
    as [[_ E]|(i & name & Hn & _ & E)]; rewrite E in H.
  2:{ assert (Hid : (0 <=? Z.of_nat i) = true) by (apply Z.leb_le; lia).
      rewrite Hid in H. pose proof (units_advance i name Hne Hn).
      lex_done H. }
  cbn [Z.leb Z.compare] in H.
  change (m_tokenizer (set_tokenizer t1 c)) with t1 in H.
  destruct (Ascii.eqb (GetChar t1) "'"); [lex_done H|].
  destruct (isalpha (GetChar t1) || Ascii.eqb (GetChar t1) "_") eqn:Hid.
  { destruct (identifier_start _ Hid) as (_ & Hz & _ & _ & Hc).
    pose proof (GetChars_first
                  (fun x : ascii => isalnum x || Ascii.eqb x "_")
                  t1 Hz Hc).
    lex_done H. }
  repeat (match type of H with
          | (if ?b then _ else _) = _ => destruct b; [lex_done H|]
          end).
  destruct (single_char_token (GetChar t1)); lex_done H.
Qed.

(** The lexer's step from the default state, in which the token loop of
    [Compile] calls it. *)
Lemma getToken_default_progress (c : COMPILER) (tok : T_TOKEN)
    (c' : COMPILER) :
  units_not_empty ->
  m_lexerState c = LS_DEFAULT ->
  getToken c = (tok, c') ->
  m_str (m_tokenizer c') = m_str (m_tokenizer c)
  /\ m_lexerState c' = LS_DEFAULT
  /\ (m_pos (m_tokenizer c) <= m_pos (m_tokenizer c'))%nat
  /\ (token tok = G_ENDS
      \/ (m_pos (m_tokenizer c) < m_pos (m_tokenizer c'))%nat).
Proof.
  intros Hne Hls H. unfold getToken in H. rewrite Hls in H.
  destruct (lexDefault (token_of 0 None 0) c) as [[done rv] c1] eqn:E.
  apply lexDefault_progress in E; [|exact Hne].
  destruct E as (Hs & Hp & Hdone & Hnot).
  destruct done.
  - injection H as <- <-. destruct (Hdone eq_refl) as [Hl Hadv].
    split; [exact Hs|]. split; [congruence|]. split; [exact Hp | exact Hadv].
  - destruct (Hnot eq_refl) as [Hl Hadv]. rewrite Hl in H.
    pose proof (lexString_progress c1) as Hstr.
    destruct (lexString c1) as [[d rv'] c2].
    destruct Hstr as (_ & Hs2 & Hl2 & Hp2).
    injection H as <- <-.
    split; [congruence|]. split; [exact Hl2|]. split; [lia | right; lia].
Qed.

(** X8.  Each call of the lexer moves forward: when no unit name is empty,
    [getToken] leaves the text alone, never moves the cursor back, ends in the
    default state, and either returns the end-of-input token or has moved the
    cursor forward by at least one character. *)
Theorem getToken_moves_forward (c : COMPILER) (tok : T_TOKEN)
    (c' : COMPILER) :
  units_not_empty ->
  getToken c = (tok, c') ->
  m_str (m_tokenizer c') = m_str (m_tokenizer c)
  /\ m_lexerState c' = LS_DEFAULT
  /\ (m_pos (m_tokenizer c) <= m_pos (m_tokenizer c'))%nat
  /\ (token tok = G_ENDS
      \/ (m_pos (m_tokenizer c) < m_pos (m_tokenizer c'))%nat).
Proof.
  intros Hne H. destruct (m_lexerState c) eqn:Hls.
  - now apply getToken_default_progress.
  - unfold getToken in H. rewrite Hls in H.
    pose proof (lexString_progress c) as Hstr.
    destruct (lexString c) as [[d rv] c2].
    destruct Hstr as (Hd & Hs2 & Hl2 & Hp2). subst d.
    injection H as <- <-.
    split; [exact Hs2|]. split; [exact Hl2|]. split; [lia | right; lia].
Qed.

(** ** The token loop of [Compile] *)

Variable Parse : Z -> T_TOKEN -> COMPILER -> COMPILER.

Lemma getToken_at_end (c : COMPILER) :
  m_lexerState c = LS_DEFAULT ->
  Done (m_tokenizer c) = true ->
  getToken c = (token_of G_ENDS None 0, c).
Proof.
  intros Hls Hd. unfold getToken. rewrite Hls. unfold lexDefault.
  rewrite Hd. reflexivity.
Qed.

Lemma parse_loop_terminates (fuel : nat) :
  units_not_empty ->
  keeps_lexer Parse ->
  forall c : COMPILER,
    m_lexerState c = LS_DEFAULT ->
    (String.length (m_str (m_tokenizer c)) - m_pos (m_tokenizer c)
     < fuel)%nat ->
    exists r, parse_loop Parse fuel c = Ok r.
Proof.
  intros Hne Hkeep. induction fuel as [|fuel IH]; intros c Hls Hfuel; [lia|].
  cbn [parse_loop].
  set (c0 := set_sourcePos (Z.of_nat (GetPos (m_tokenizer c))) c).
  destruct (getToken c0) as [tok c1] eqn:E.
  destruct (pendingError (m_errorStatus (Parse (token tok) tok c1)));
    [eexists; reflexivity|].
  destruct (m_parseFinished (Parse (token tok) tok c1) || (token tok =? G_ENDS))
    eqn:Hfin; [eexists; reflexivity|].
  destruct (token tok =? 0); [eexists; reflexivity|].
  apply orb_false_iff in Hfin. destruct Hfin as [_ Hends].
  apply Z.eqb_neq in Hends.
  destruct (Hkeep (token tok) tok c1) as [Ht Hl].
  destruct (Done (m_tokenizer c0)) eqn:Hd.
  - rewrite (getToken_at_end c0 Hls Hd) in E. injection E as <- <-.
    now contradiction Hends.
  - destruct (getToken_default_progress c0 tok c1 Hne Hls E)
      as (Hs & Hl1 & _ & Hadv).
    destruct Hadv as [He|Hadv]; [contradiction|].
    unfold Done in Hd. apply Nat.leb_gt in Hd.
    apply IH; [congruence|]. rewrite Ht, Hs.
    change (m_tokenizer c0) with (m_tokenizer c) in *. lia.
Qed.

(** X9.  [Compile] reads a text of [n] characters in at most [n + 1] tokens:
    when no unit name is empty and the parser leaves the lexer's state alone,
    the token loop ends, whatever the text and the parser's answers are; it
    does not run out of fuel when given more than [n]. *)
Theorem token_loop_terminates (fuel : nat) (aString : string) (c : COMPILER) :
  units_not_empty ->
  keeps_lexer Parse ->
  (String.length aString < fuel)%nat ->
  exists parsed c', front_end Parse fuel aString c = Ok (parsed, c').
Proof.
  intros Hne Hkeep Hfuel. unfold front_end.
  destruct (String.eqb aString EmptyString); [eexists; eexists; reflexivity|].
  destruct (parse_loop_terminates fuel Hne Hkeep
              (set_parseFinished false (set_tree Nil (newString aString c))))
    as [[parsed c'] Hr].
  - reflexivity.
  - cbn. lia.
  - exists parsed, c'. exact Hr.
Qed.

(** X10.  A text that starts with a character the lexer does not know is
    rejected: with a parser that keeps a pending error, [Compile] returns
    false after the first token, leaves the program and the preflight context
    as they were, and an error is pending. *)
Theorem Compile_rejects_unrecognized_character (fuel : nat) (aString : string)
    (c : COMPILER) (aCode : list UOP) (pf : CONTEXT) :
  let t := Restart_tokenizer aString in
  let ch := GetChar t in
  keeps_pending Parse ->
  no_unit_at t ->
  no_operator_at t ->
  ch <> " "%char ->
  ch <> Ascii.zero ->
  isalnum ch || Ascii.eqb ch "_" || Ascii.eqb ch "'" = false ->
  single_char_token ch = None ->
  exists c',
    Compile Parse (S fuel) aString c aCode pf = Ok (false, c', aCode, pf)
    /\ pending c' = true.
Proof.
  intros t ch Hkeep Hnone Hop Hsp Hz Hclass Hsingle.
  assert (Hempty : String.eqb aString EmptyString = false).
  { destruct aString; [now contradiction Hz | reflexivity]. }
  unfold Compile. rewrite Hempty. cbn [parse_loop].
  set (c0 := set_sourcePos _ _).
  rewrite (unrecognized_token c0 eq_refl Hnone Hop Hsp Hz Hclass Hsingle).
  set (c1 := advance 1 _).
  assert (Hp : pending (Parse (token (token_of G_ENDS None 0))
                          (token_of G_ENDS None 0) c1) = true)
    by (apply Hkeep; reflexivity).
  unfold pending in Hp. rewrite Hp. cbn [bind].
  eexists. split; [reflexivity | exact Hp].
Qed.

(** ** Operators *)

Lemma two_char_other (a b last x : ascii) (c : COMPILER) :
  GetChar (m_tokenizer c) = x -> x <> a ->
  two_char (String a (String b EmptyString)) last c = false.
Proof.
  intros Hx Hne. destruct (two_char _ last c) eqn:E; [|reflexivity].
  apply two_char_starts in E. destruct E as [E _]. congruence.
Qed.

(** X11.  An operator of two characters ([==], [!=], [<=], [>=], [&&], [||])
    is one token when the character after it is not its last character again,
    and no unit name matches at it: the lexer returns its token and steps over
    both characters. *)
Theorem getToken_double_operator (c : COMPILER) (pattern : string)
    (last : ascii) (id : Z) :
  m_lexerState c = LS_DEFAULT ->
  no_unit_at (m_tokenizer c) ->
  In (pattern, last, id) two_char_operators ->
  two_char pattern last c = true ->
  getToken c = (token_of id None 0, advance 2 c).
Proof.
  intros Hls Hnone Hin Hm.
  assert (Hstart : forall a b,
            pattern = String a (String b EmptyString) ->
            GetChar (m_tokenizer c) = a).
  { intros a b ->. now apply two_char_starts in Hm. }
  unfold getToken. rewrite Hls. unfold lexDefault.
  unfold two_char_operators in Hin.
  destruct Hin as [E|[E|[E|[E|[E|[E|[]]]]]]]; injection E as <- <- <-;
    pose proof (Hstart _ _ eq_refl) as Hch;
    (rewrite Done_false by (rewrite Hch; discriminate));
    (rewrite skip_spaces_none by (rewrite Hch; reflexivity));
    rewrite set_tokenizer_same, Hch, (resolveUnits_none c Hnone);
    cbv beta iota zeta;
    repeat match goal with
    | |- context [two_char ?p ?l c] =>
        first [ rewrite Hm
              | rewrite (two_char_other _ _ l _ c Hch) by discriminate ]
    end;
    reflexivity.
Qed.

Lemma single_char_class (ch : ascii) (id : Z) :
  single_char_token ch = Some id ->
  ch <> " "%char /\ ch <> Ascii.zero /\ isdigit ch = false
  /\ Ascii.eqb ch "'" = false
  /\ isalpha ch || Ascii.eqb ch "_" = false.
Proof.
  destruct ch as [b0 b1 b2 b3 b4 b5 b6 b7].
  destruct b0, b1, b2, b3, b4, b5, b6, b7; intros H;
    cbv [single_char_token Ascii.eqb Bool.eqb andb] in H;
    try discriminate H;
    (split; [discriminate|]); (split; [discriminate|]);
    (split; [reflexivity|]); (split; reflexivity).
Qed.

(** X12.  An operator of one character ([+ ! - * / < > ( ) ; .]), where no
    unit name and no operator of two characters matches: the lexer returns its
    token and steps over the character. *)
Theorem getToken_single_operator (c : COMPILER) (id : Z) :
  m_lexerState c = LS_DEFAULT ->
  no_unit_at (m_tokenizer c) ->
  no_operator_at (m_tokenizer c) ->
  single_char_token (GetChar (m_tokenizer c)) = Some id ->
  getToken c = (token_of id None 0, advance 1 c).
Proof.
  intros Hls Hnone Hop Hsingle.
  destruct (single_char_class _ id Hsingle)
    as (Hsp & Hz & Hd & Hq & Hid).
  rewrite (lexDefault_single c Hls Hnone Hop Hsp Hz Hd Hq Hid).
  now rewrite Hsingle.
Qed.

(** ** What [Compile] keeps of the compiler *)

(** X13.  [Compile] of a text that is not empty starts afresh: what it returns
    depends on the compiler only through the parser's state, the locale's
    decimal separator and the error status; the text, the tree, the lexer
    state and the positions that an earlier call left play no part. *)
Theorem Compile_starts_afresh (fuel : nat) (aString : string)
    (c1 c2 : COMPILER) (aCode : list UOP) (pf : CONTEXT) :
  aString <> EmptyString ->
  m_parser c1 = m_parser c2 ->
  m_localeDecimalSeparator c1 = m_localeDecimalSeparator c2 ->
  m_errorStatus c1 = m_errorStatus c2 ->
  Compile Parse fuel aString c1 aCode pf
  = Compile Parse fuel aString c2 aCode pf.
Proof.
  intros Hne Hp Hs He. unfold Compile.
  destruct (String.eqb_spec aString EmptyString) as [E|_];
    [contradiction|].
  destruct fuel as [|fuel]; [reflexivity|]. cbn [parse_loop].
  destruct c1, c2. cbn in Hp, Hs, He. subst. reflexivity.
Qed.

(** ** The end of the text *)

Lemma skip_spaces_all (fuel : nat) (t : TOKENIZER) :
  (forall i, (m_pos t <= i < String.length (m_str t))%nat ->
     char_at (m_str t) i = " "%char) ->
  (String.length (m_str t) - m_pos t <= fuel)%nat ->
  (m_pos t <= String.length (m_str t))%nat ->
  skip_spaces fuel t = mkTOKENIZER (m_str t) (String.length (m_str t)).
Proof.
  revert t. induction fuel as [|fuel IH]; intros t Hsp Hfuel Hpos.
  - cbn [skip_spaces]. rewrite <- (tokenizer_eta t) at 1. f_equal. lia.
  - cbn [skip_spaces].
    destruct (Nat.eq_dec (m_pos t) (String.length (m_str t))) as [E|Hne].
    + assert (Hz : GetChar t = Ascii.zero) by (apply char_at_past; lia).
      rewrite Hz. change (Ascii.eqb Ascii.zero " ") with false. cbv iota.
      rewrite <- (tokenizer_eta t) at 1. now rewrite E.
    + assert (Hc : GetChar t = " "%char) by (apply Hsp; lia).
      rewrite Hc, Ascii.eqb_refl.
      rewrite (IH (NextChar 1 t)); [reflexivity | | |];
        cbn [m_str m_pos NextChar]; try lia.
      intros i Hi. apply Hsp. lia.
Qed.

(** X14.  Where only spaces are left in the text, or nothing, the lexer
    returns the end-of-input token and reports no error: it moves the cursor
    to the end of the text, if it was before it, and changes nothing else. *)
Theorem getToken_end_of_input (c : COMPILER) :
  let t := m_tokenizer c in
  m_lexerState c = LS_DEFAULT ->
  (forall i, (m_pos t <= i < String.length (m_str t))%nat ->
     char_at (m_str t) i = " "%char) ->
  getToken c
  = (token_of G_ENDS None 0,
     set_tokenizer
       (mkTOKENIZER (m_str t) (Nat.max (m_pos t) (String.length (m_str t))))
       c).
Proof.
  intros t Hls Hsp. unfold getToken. rewrite Hls. unfold lexDefault.
  fold t. destruct (Done t) eqn:Hd; unfold Done in Hd.
  - apply Nat.leb_le in Hd. rewrite Nat.max_l by exact Hd.
    rewrite tokenizer_eta. unfold t. now rewrite set_tokenizer_same.
  - apply Nat.leb_gt in Hd. rewrite Nat.max_r by lia.
    rewrite (skip_spaces_all _ t Hsp) by lia.
    cbn [m_tokenizer set_tokenizer]. unfold GetChar.
    cbn [m_str m_pos]. rewrite char_at_past by lia.
    reflexivity.
Qed.

End Lexer_facts.

(** * The code generator and the programs it emits *)

Section Generator_facts.

Context {oc : OPCODES} {host : HOST}.
Variable PARSER : Type.

Abbreviation COMPILER := (COMPILER PARSER).
Abbreviation GEN := (GEN PARSER).

Hypothesis node_labels : NoDup node_case_labels.
Hypothesis exec_labels : NoDup exec_case_labels.

(** What [generateUCode] returns on a tree that its loop finishes. *)
Lemma generateUCode_of_finishes (c : COMPILER) (aCode : list UOP)
    (pf : CONTEXT) :
  m_tree c <> Nil ->
  unvisited_below (prepareTree (m_tree c)) ->
  finishes PARSER (prepareTree (m_tree c)) ->
  exists k c' pf',
    (forall fuel, (k <= fuel)%nat ->
       generateUCode fuel c aCode pf
       = Ok (true, c', aCode ++ emit (prepareTree (m_tree c)), pf'))
    /\ (pending c' = false ->
        pending c = false
        /\ Forall bound_uop (emit (prepareTree (m_tree c)))).
Proof.
  intros Hnil _ Hfin.
  destruct (m_tree c) as [|n l r] eqn:Ht; [now contradiction Hnil|].
  destruct (prepareTree (Node n l r)) as [|n0 l0 r0] eqn:Ht0;
    [rewrite prepareTree_node in Ht0; discriminate|].
  assert (Hat0 : node_at (m_tree (set_tree (Node n0 l0 r0) c)) []
                 = Node n0 l0 r0) by reflexivity.
  destruct (Hfin n0 (conj eq_refl eq_refl) (set_tree (Node n0 l0 r0) c)
              [] [] aCode pf Hat0)
    as (k & c' & t' & pf' & Hruns & _ & _ & Hpend).
  exists k, c', pf'. split; [|exact Hpend].
  intros fuel Hfuel.
  rewrite (generateUCode_node PARSER fuel c aCode pf n l r Ht), Ht, Ht0.
  pose proof (runs_empty PARSER k _ _ fuel Hruns eq_refl Hfuel) as E.
  unfold NODE_PTR in E. rewrite E. reflexivity.
Qed.

Lemma generateUCode_emit (c : COMPILER) (aCode : list UOP) (pf : CONTEXT) :
  host_contract ->
  wf_ast (m_tree c) ->
  exists k c' pf',
    (forall fuel, (k <= fuel)%nat ->
       generateUCode fuel c aCode pf
       = Ok (true, c', aCode ++ emit (m_tree c), pf'))
    /\ (pending c' = false ->
        pending c = false /\ Forall bound_uop (emit (m_tree c))).
Proof.
  intros Hhost Hwf.
  pose proof (prepareTree_wf node_labels _ Hwf) as Hwf'.
  pose proof (prepareTree_unvisited false (m_tree c)) as Hun.
  fold (prepareTree (m_tree c)) in Hun.
  destruct (wf_ast_node _ Hwf) as (n & l & r & Ht).
  destruct (wf_ast_node _ Hwf') as (n0 & l0 & r0 & Ht0).
  assert (Hbelow : unvisited_below (prepareTree (m_tree c))).
  { rewrite Ht0 in Hun |- *. now apply unvisited_root in Hun. }
  destruct (generateUCode_of_finishes c aCode pf) as (k & c' & pf' & Hgen & Hp).
  - rewrite Ht. discriminate.
  - exact Hbelow.
  - apply (wf_finishes PARSER node_labels exec_labels Hhost); assumption.
  - rewrite (prepareTree_emit node_labels _ Hwf) in Hgen, Hp.
    exists k, c', pf'. split; assumption.
Qed.

(** X15.  The loop of [generateUCode], with its work stack and its visited
    flags, emits the program of the tree in post-order: on each tree of the
    grammar it returns true, given fuel enough, and has appended to the
    program the instructions of the operands, left before right, followed by
    the instruction of the node, as [emit] lists them by recursion on the
    tree. *)
Theorem generateUCode_emits_postorder (c : COMPILER) (aCode : list UOP)
    (pf : CONTEXT) :
  host_contract ->
  wf_ast (m_tree c) ->
  exists fuel0 c' pf', forall fuel, (fuel0 <= fuel)%nat ->
    generateUCode fuel c aCode pf
    = Ok (true, c', aCode ++ emit (m_tree c), pf').
Proof.
  intros Hhost Hwf.
  destruct (generateUCode_emit c aCode pf Hhost Hwf)
    as (k & c' & pf' & Hgen & _).
  exists k, c', pf'. exact Hgen.
Qed.

(** X16.  The program of a binary operation is the program of its left
    operand, then the program of its right operand, then the operator's
    instruction: the code generator composes the programs it generates for the
    two operands on their own. *)
Theorem generateUCode_binary_operation (c : COMPILER) (n : TREE_NODE)
    (l r : TREE) (pf : CONTEXT) :
  host_contract ->
  m_tree c = Node n l r ->
  operator_node n ->
  has_mask (op n) TR_OP_BINARY_MASK = true ->
  wf_ast l ->
  wf_ast r ->
  exists fuel0, forall fuel, (fuel0 <= fuel)%nat ->
    exists code_l code_r cl cr c' pfl pfr pf',
      generateUCode fuel (set_tree l c) [] pf = Ok (true, cl, code_l, pfl)
      /\ generateUCode fuel (set_tree r c) [] pf = Ok (true, cr, code_r, pfr)
      /\ generateUCode fuel c [] pf
         = Ok (true, c', code_l ++ code_r ++ [UOP_ref (op n) None], pf').
Proof.
  intros Hhost Ht Hnode Hmask Hl Hr.
  assert (Hwf : wf_ast (m_tree c)) by (rewrite Ht; now apply wf_binary).
  destruct (generateUCode_emit (set_tree l c) [] pf Hhost Hl)
    as (kl & cl & pfl & Hgl & _).
  destruct (generateUCode_emit (set_tree r c) [] pf Hhost Hr)
    as (kr & cr & pfr & Hgr & _).
  destruct (generateUCode_emit c [] pf Hhost Hwf) as (k & c' & pf' & Hg & _).
  exists (kl + kr + k)%nat. intros fuel Hfuel.
  exists (emit l), (emit r), cl, cr, c', pfl, pfr, pf'.
  split; [apply Hgl; lia|]. split; [apply Hgr; lia|].
  rewrite (Hg fuel) by lia. rewrite Ht.
  rewrite (emit_operator n l r) by apply Hnode. reflexivity.
Qed.

(** ** Running the programs of the code generator *)

(** X17.  The program [p ++ q ++ [op]] of a binary operation runs [p], then
    [q], then applies the operator to the value [p] left (the left operand)
    and the value [q] left on top of it (the right operand): both operand
    programs always run, also for the logical operators, and the two values
    are replaced by the one numeric result. *)
Theorem Run_binary_operation (p q : list UOP) (op : Z)
    (ctx ctx1 ctx2 : CONTEXT) (a b : option VALUE)
    (st : list (option VALUE)) :
  has_mask op TR_OP_BINARY_MASK = true ->
  operator_code op ->
  Run_ops p ctx = Ok ctx1 ->
  m_stack ctx1 = a :: st ->
  Run_ops q ctx1 = Ok ctx2 ->
  m_stack ctx2 = b :: a :: st ->
  let result := Some (VNumeric (binary_result op a b)) in
  Run_ops (p ++ q ++ [UOP_ref op None]) ctx
  = Ok (mkCONTEXT (result :: st) (ctx_errorStatus ctx2))
  /\ (st = [] ->
      Run (p ++ q ++ [UOP_ref op None]) ctx
      = Ok (result, mkCONTEXT [] (ctx_errorStatus ctx2))).
Proof.
  intros Hmask Hop Hp Ha Hq Hb result.
  assert (Hrun : Run_ops (p ++ q ++ [UOP_ref op None]) ctx
                 = Ok (mkCONTEXT (result :: st) (ctx_errorStatus ctx2))).
  { rewrite Run_ops_app, Hp. cbn [bind].
    rewrite Run_ops_app, Hq. cbn [bind Run_ops].
    destruct ctx2 as [st2 es2]. cbn [m_stack] in Hb. subst st2.
    rewrite (Exec_binary (UOP_ref op None) a b st es2 Hmask Hop).
    reflexivity. }
  split; [exact Hrun|]. intros ->.
  unfold Run. rewrite Hrun. reflexivity.
Qed.

Lemma property_generate (c : COMPILER) (aCode : list UOP) (pf : CONTEXT)
    (n nl nr : TREE_NODE) (ll lr rl rr : TREE) (item prop : string) :
  m_tree c = Node n (Node nl ll lr) (Node nr rl rr) ->
  op n = TR_STRUCT_REF ->
  op nl = TR_IDENTIFIER ->
  op nr = TR_IDENTIFIER ->
  str (node_value nl) = Some item ->
  str (node_value nr) = Some prop ->
  exists k c' pf',
    (forall fuel, (k <= fuel)%nat ->
       generateUCode fuel c aCode pf
       = Ok (true, c',
             aCode ++ [UOP_ref TR_UOP_PUSH_VAR (CreateVarRef item prop)], pf'))
    /\ (pending c' = false ->
        pending c = false
        /\ bound_uop (UOP_ref TR_UOP_PUSH_VAR (CreateVarRef item prop))).
Proof.
  intros Ht Hn Hnl Hnr Hi Hp.
  label_tests node_labels.
  assert (Hprep : exists n' nl' nr' ll' lr' rl' rr',
            prepareTree (m_tree c)
            = Node n' (Node nl' ll' lr') (Node nr' rl' rr')
            /\ op n' = TR_STRUCT_REF /\ op nl' = TR_IDENTIFIER
            /\ op nr' = TR_IDENTIFIER
            /\ str (node_value nl') = Some item
            /\ str (node_value nr') = Some prop).
  { rewrite Ht, prepareTree_node, Hn. use_tests.
    cbn [prepareTree prepareTree_from].
    do 7 eexists. split; [reflexivity|]. cbn. auto 6. }
  destruct Hprep as (n' & nl' & nr' & ll' & lr' & rl' & rr' & Hprep & Hn' & Hnl'
                     & Hnr' & Hi' & Hp').
  destruct (generateUCode_of_finishes c aCode pf) as (k & c' & pf' & Hgen & Hb).
  - rewrite Ht. discriminate.
  - pose proof (prepareTree_unvisited false (m_tree c)) as Hun.
    fold (prepareTree (m_tree c)) in Hun. rewrite Hprep in Hun |- *.
    now apply unvisited_root in Hun.
  - rewrite Hprep.
    apply (property_finishes PARSER node_labels exec_labels n' nl' nr' ll' lr'
             rl' rr' item prop); assumption.
  - rewrite Hprep in Hgen, Hb.
    rewrite (emit_property node_labels n' nl' nr' ll' lr' rl' rr' item prop)
      in Hgen, Hb by assumption.
    exists k, c', pf'. split; [exact Hgen|].
    intros Hpend. destruct (Hb Hpend) as [Hc Hall]. split; [exact Hc|].
    now inversion Hall.
Qed.

(** X18.  [item.prop] where the resolver knows no such item: the code
    generator reports the error, finishes, and still emits a push-variable
    instruction, with a null reference.  Running the program dereferences the
    null pointer. *)
Theorem unresolved_property_cannot_run (c : COMPILER) (pf ctx : CONTEXT)
    (n nl nr : TREE_NODE) (ll lr rl rr : TREE) (item prop : string) :
  m_tree c = Node n (Node nl ll lr) (Node nr rl rr) ->
  op n = TR_STRUCT_REF ->
  op nl = TR_IDENTIFIER ->
  op nr = TR_IDENTIFIER ->
  str (node_value nl) = Some item ->
  str (node_value nr) = Some prop ->
  CreateVarRef item prop = None ->
  exists fuel0 c' code pf',
    (forall fuel, (fuel0 <= fuel)%nat ->
       generateUCode fuel c [] pf = Ok (true, c', code, pf'))
    /\ pending c' = true
    /\ code = [UOP_ref TR_UOP_PUSH_VAR None]
    /\ Run code ctx = Fault NullDeref.
Proof.
  intros Ht Hn Hnl Hnr Hi Hp Hnone.
  destruct (property_generate c [] pf n nl nr ll lr rl rr item prop
              Ht Hn Hnl Hnr Hi Hp) as (k & c' & pf' & Hgen & Hb).
  rewrite Hnone in Hgen, Hb. cbn [app] in Hgen.
  exists k, c', [UOP_ref TR_UOP_PUSH_VAR None], pf'.
  split; [exact Hgen|]. split; [|split; [reflexivity|]].
  - destruct (pending c') eqn:E; [reflexivity|].
    destruct (Hb eq_refl) as [_ [Hbound _]].
    now contradiction (Hbound eq_refl).
  - unfold Run. cbn [Run_ops]. unfold Exec. cbn [m_op UOP_ref m_ref].
    rewrite Z.eqb_refl. reflexivity.
Qed.

(** X19.  [item.prop] where the resolver returns a reference: the program is
    the one push-variable instruction, and running it fetches the variable's
    value, handing the context to the variable.  Where the fetch answers a
    value and leaves the operand stack empty as it found it, [Run] returns
    that value, in the context as the variable left it; where the fetch
    throws, the exception leaves [Run].  This holds also for a reference of
    parse-error type, for which an error has been reported. *)
Theorem resolved_property_runs (c : COMPILER) (pf ctx : CONTEXT)
    (n nl nr : TREE_NODE) (ll lr rl rr : TREE) (item prop : string)
    (v : VAR_REF) :
  m_tree c = Node n (Node nl ll lr) (Node nr rl rr) ->
  op n = TR_STRUCT_REF ->
  op nl = TR_IDENTIFIER ->
  op nr = TR_IDENTIFIER ->
  str (node_value nl) = Some item ->
  str (node_value nr) = Some prop ->
  CreateVarRef item prop = Some v ->
  has_mask TR_UOP_PUSH_VAR TR_OP_BINARY_MASK = false ->
  m_stack ctx = [] ->
  exists fuel0 c' code pf',
    (forall fuel, (fuel0 <= fuel)%nat ->
       generateUCode fuel c [] pf = Ok (true, c', code, pf'))
    /\ code = [UOP_ref TR_UOP_PUSH_VAR (Some v)]
    /\ (forall x ctx1,
          GetValue v ctx = Fetched x ctx1 ->
          m_stack ctx1 = m_stack ctx ->
          Run code ctx = Ok (Some x, ctx1))
    /\ (forall ctx1,
          GetValue v ctx = FetchThrew ctx1 ->
          Run code ctx = Fault HostException).
Proof.
  intros Ht Hn Hnl Hnr Hi Hp Hsome Hmask Hst.
  destruct (property_generate c [] pf n nl nr ll lr rl rr item prop
              Ht Hn Hnl Hnr Hi Hp) as (k & c' & pf' & Hgen & _).
  rewrite Hsome in Hgen. cbn [app] in Hgen.
  exists k, c', [UOP_ref TR_UOP_PUSH_VAR (Some v)], pf'.
  split; [exact Hgen|]. split; [reflexivity|]. split.
  - intros x ctx1 Hget Hsame. unfold Run. cbn [Run_ops].
    rewrite (Exec_push_var Hmask _ _ _ _ Hget). cbn [bind].
    rewrite Hst in Hsame.
    destruct ctx1 as [st es]. cbn [m_stack] in Hsame. subst st. reflexivity.
  - intros ctx1 Hget. unfold Run. cbn [Run_ops]. unfold Exec, UOP_ref.
    cbn [m_op m_ref]. rewrite Z.eqb_refl. cbn [deref bind].
    rewrite Hget. reflexivity.
Qed.

(** X20.  [item.function( argument )] where the resolver knows no such
    function: the code generator reports the error, finishes, and still emits
    a method-call instruction, with an empty function.  The program cannot be
    run: whatever the context, running it ends in a fault. *)
Theorem unresolved_function_cannot_run (c : COMPILER) (pf ctx : CONTEXT)
    (n nl nr nf : TREE_NODE) (fl fr argument : TREE)
    (item function : string) :
  host_contract ->
  m_tree c = Node n (Node nl Nil Nil) (Node nr (Node nf fl fr) argument) ->
  op n = TR_STRUCT_REF ->
  op nl = TR_IDENTIFIER ->
  str (node_value nl) = Some item ->
  op nr = TR_OP_FUNC_CALL ->
  str (node_value nf) = Some function ->
  wf_ast argument ->
  CreateFuncCall function = None ->
  exists fuel0 c' code pf',
    (forall fuel, (fuel0 <= fuel)%nat ->
       generateUCode fuel c [] pf = Ok (true, c', code, pf'))
    /\ pending c' = true
    /\ (exists before,
          code = before
                 ++ [UOP_func TR_OP_METHOD_CALL None
                       (CreateVarRef item EmptyString)])
    /\ exists f, Run code ctx = Fault f.
Proof.
  intros Hhost Ht Hn Hnl Hi Hnr Hf Harg Hnone.
  assert (Hwf : wf_ast (m_tree c))
    by (rewrite Ht; eapply wf_call; eassumption).
  destruct (generateUCode_emit c [] pf Hhost Hwf) as (k & c' & pf' & Hgen & Hb).
  rewrite Ht in Hgen, Hb.
  rewrite (emit_call node_labels n nl nr nf Nil Nil fl fr argument item
             function Hn Hnr Hi Hf), Hnone in Hgen, Hb.
  cbn [app] in Hgen.
  destruct (exec_label_tests exec_labels) as (_ & Hvm & Hmv).
  eexists k, c', _, pf'. split; [exact Hgen|].
  split; [|split; [eexists; reflexivity|]].
  - destruct (pending c') eqn:E; [reflexivity|].
    destruct (Hb eq_refl) as [_ Hall]. apply Forall_app in Hall.
    destruct Hall as [_ Hall]. inversion Hall as [|u us [_ Hbound] _].
    now contradiction (Hbound eq_refl).
  - unfold Run. rewrite Run_ops_app.
    destruct (Run_ops (emit argument) ctx) as [ctx1|f];
      [|eexists; reflexivity].
    cbn [bind Run_ops]. unfold Exec. cbn [m_op UOP_func m_func].
    rewrite (proj2 (Z.eqb_neq _ _) Hmv).
    rewrite (proj2 (Z.eqb_neq _ _) (fun E => Hvm (eq_sym E))).
    rewrite Z.eqb_refl. eexists. reflexivity.
Qed.

Lemma literal_value_prepareTree (n : TREE_NODE) (cleared : bool) (l : TREE) :
  literal_value (set_isVisited false n) (prepareTree_from cleared l)
  = literal_value n l.
Proof.
  unfold literal_value. cbn [node_value set_isVisited].
  destruct (str (node_value n)); [|reflexivity].
  destruct l as [|ns sl sr]; [reflexivity|].
  cbn [prepareTree_from]. destruct cleared; reflexivity.
Qed.

(** X21.  A numeric literal, whose leaf is null or a unit node: the program
    is one push of the literal's value, which is 0 for a node without text,
    the unit resolver's conversion of the text for a literal with a unit
    leaf, and [wxAtof] of the text otherwise; running it on an empty stack
    returns that value and leaves the context as it was. *)
Theorem number_literal_runs (c : COMPILER) (pf ctx : CONTEXT) (n : TREE_NODE)
    (l r : TREE) :
  m_tree c = Node n l r ->
  op n = TR_NUMBER ->
  l = Nil \/ (exists unit sl sr, l = Node unit sl sr /\ op unit = TR_UNIT) ->
  m_stack ctx = [] ->
  let value :=
    match str (node_value n), l with
    | None, _ => 0%float
    | Some text, Node unit _ _ => Convert text (idx (node_value unit))
    | Some text, Nil => wxAtof text
    end in
  exists fuel0 c' code pf',
    (forall fuel, (fuel0 <= fuel)%nat ->
       generateUCode fuel c [] pf = Ok (true, c', code, pf'))
    /\ code = [UOP_value TR_UOP_PUSH_VALUE (VNumeric value)]
    /\ Run code ctx = Ok (Some (VNumeric value), ctx).
Proof.
  intros Ht Hn Hl Hst value.
  assert (Hvalue : value = literal_value n l).
  { unfold value, literal_value. destruct (str (node_value n)); [|reflexivity].
    destruct Hl as [->|(unit & sl & sr & -> & Hu)]; [reflexivity|].
    now rewrite Hu, Z.eqb_refl. }
  destruct (generateUCode_of_finishes c [] pf) as (k & c' & pf' & Hgen & _).
  - rewrite Ht. discriminate.
  - pose proof (prepareTree_unvisited false (m_tree c)) as Hun.
    fold (prepareTree (m_tree c)) in Hun.
    rewrite Ht, prepareTree_node in Hun |- *.
    now apply unvisited_root in Hun.
  - rewrite Ht, prepareTree_node.
    apply (number_finishes PARSER node_labels exec_labels). exact Hn.
  - rewrite Ht, prepareTree_node in Hgen.
    rewrite (emit_number node_labels) in Hgen by exact Hn.
    rewrite literal_value_prepareTree, <- Hvalue in Hgen. cbn [app] in Hgen.
    exists k, c', [UOP_value TR_UOP_PUSH_VALUE (VNumeric value)], pf'.
    split; [exact Hgen|]. split; [reflexivity|].
    destruct (exec_label_tests exec_labels) as (Hpv & _).
    unfold Run. cbn [Run_ops]. rewrite (Exec_push_value _ _ Hpv). cbn [bind].
    destruct ctx as [st es]. cbn [m_stack] in Hst. subst st. reflexivity.
Qed.

(** ** What the code generator leaves of the tree *)

Lemma only_tree_and_status_refl (c : COMPILER) : only_tree_and_status c c.
Proof. unfold only_tree_and_status. now destruct c. Qed.

Lemma only_tree_and_status_trans (c1 c2 c3 : COMPILER) :
  only_tree_and_status c1 c2 -> only_tree_and_status c2 c3 ->
  only_tree_and_status c1 c3.
Proof.
  unfold only_tree_and_status. intros H12 H23. rewrite H23 at 1.
  rewrite H12. reflexivity.
Qed.

Ltac break_match H :=
  match type of H with
  | context [match ?x with _ => _ end] => destruct x eqn:?
  end.

Ltac kept :=
  split;
  [ reflexivity
  | split; [reflexivity|];
    cbn [g_compiler gen_report gen_set_stack gen_set_preflight AddOp];
    try apply only_tree_and_status_refl;
    unfold only_tree_and_status;
    match goal with
    | |- context [g_compiler ?s] => destruct (g_compiler s); reflexivity
    end ].

Lemma gen_preflight_keeps (f : FUNC_CALL_REF) (vref : option VAR_REF)
    (n : TREE_NODE) (param : TREE) (s s' : GEN) :
  gen_preflight f vref n param s = Ok s' ->
  m_tree (g_compiler s') = m_tree (g_compiler s)
  /\ only_tree_and_status (g_compiler s) (g_compiler s').
Proof.
  unfold gen_preflight. intros H. unfold bind in H.
  repeat (break_match H; try discriminate H); injection H as <-;
    (split; [reflexivity|]);
    cbn [g_compiler gen_report gen_set_stack gen_set_preflight];
    try apply only_tree_and_status_refl;
    unfold only_tree_and_status; destruct (g_compiler s); reflexivity.
Qed.

Lemma gen_visit_keeps (node : NODE_PTR) (t t' : TREE) (s s' : GEN) :
  gen_visit node t s = Ok (t', s') ->
  skeleton t' = skeleton t
  /\ m_tree (g_compiler s') = m_tree (g_compiler s)
  /\ only_tree_and_status (g_compiler s) (g_compiler s').
Proof.
  unfold gen_visit. intros H.
  destruct t as [|n l r]; [discriminate|].
  destruct (op n =? TR_OP_FUNC_CALL).
  { unfold bind, assert in H. destruct (uop n); [|discriminate].
    injection H as <- <-. kept. }
  destruct (op n =? TR_STRUCT_REF).
  { unfold gen_struct_ref in H.
    destruct l as [|nl ll lr]; [discriminate|].
    unfold bind, assert in H.
    destruct (op nl =? TR_IDENTIFIER); [|discriminate].
    destruct r as [|nr rl rr]; [discriminate|].
    destruct (op nr =? TR_IDENTIFIER).
    { unfold gen_property, bind, deref in H.
      destruct (str (node_value nl)); [|discriminate].
      destruct (str (node_value nr)); [|discriminate].
      injection H as <- <-.
      destruct (CreateVarRef _ _) as [v|];
        [destruct (VAR_TYPE_T_eqb (GetType v) VT_PARSE_ERROR)|]; kept. }
    destruct (op nr =? TR_OP_FUNC_CALL); [|injection H as <- <-; kept].
    unfold gen_method, bind, deref in H.
    destruct (str (node_value nl)) as [itemName|]; [|discriminate].
    destruct rl as [|nrl rll rlr]; [discriminate|].
    destruct (str (node_value nrl)) as [functionName|]; [|discriminate].
    match type of H with
    | match ?m with _ => _ end = _ =>
        destruct m as [s1|] eqn:E1; [|discriminate]
    end.
    destruct rr as [|nrr rrl rrr]; [discriminate|].
    cbn [mark_visited] in H. injection H as <- <-.
    split; [reflexivity|].
    cbn [g_compiler gen_set_stack].
    assert (Hs1 : m_tree (g_compiler s1) = m_tree (g_compiler s)
                  /\ only_tree_and_status (g_compiler s) (g_compiler s1)).
    { destruct (CreateFuncCall functionName) as [f|].
      - apply gen_preflight_keeps in E1. destruct E1 as [Et Eo].
        destruct (CreateVarRef itemName EmptyString).
        + split; [exact Et | exact Eo].
        + split; [exact Et|].
          eapply only_tree_and_status_trans; [|exact Eo].
          cbn [g_compiler gen_report]. unfold only_tree_and_status.
          destruct (g_compiler s); reflexivity.
      - injection E1 as <-.
        destruct (CreateVarRef itemName EmptyString);
          (split; [reflexivity|]); cbn [g_compiler gen_report];
          unfold only_tree_and_status; destruct (g_compiler s); reflexivity. }
    exact Hs1. }
  destruct (op n =? TR_NUMBER).
  { destruct (str (node_value n)).
    - destruct l as [|ns sl sr]; [injection H as <- <-; kept|].
      destruct (op ns =? TR_UNIT); injection H as <- <-; kept.
    - injection H as <- <-. kept. }
  destruct (op n =? TR_STRING).
  { unfold bind, deref in H. destruct (str (node_value n)); [|discriminate].
    injection H as <- <-. kept. }
  destruct (op n =? TR_IDENTIFIER).
  { unfold bind, deref in H. destruct (str (node_value n)); [|discriminate].
    injection H as <- <-. destruct (CreateVarRef _ _); kept. }
  injection H as <- <-. kept.
Qed.

Lemma gen_finish_keeps (node : NODE_PTR) (t t' : TREE) (s s' : GEN) :
  gen_finish node t s = Ok (t', s') ->
  skeleton t' = skeleton t
  /\ m_tree (g_compiler s') = m_tree (g_compiler s)
  /\ only_tree_and_status (g_compiler s) (g_compiler s').
Proof.
  unfold gen_finish. intros H.
  destruct t as [|n l r]; [discriminate|].
  destruct (negb (isTerminal n)).
  - destruct (negb (is_null l) && negb (leaf_visited l)).
    { destruct l as [|nl ll lr]; [discriminate|].
      cbn [mark_visited bind] in H. injection H as <- <-. kept. }
    destruct (negb (is_null r) && negb (leaf_visited r)).
    { destruct r as [|nr rl rr]; [discriminate|].
      cbn [mark_visited bind] in H. injection H as <- <-. kept. }
    injection H as <- <-. kept.
  - cbn [uop set_isVisited] in H. destruct (uop n) as [u|];
      injection H as <- <-; kept.
Qed.

Lemma skeleton_replace_at (t : TREE) (p : NODE_PTR) (s : TREE) :
  skeleton s = skeleton (node_at t p) ->
  skeleton (replace_at t p s) = skeleton t.
Proof.
  revert t. induction p as [|i q IH]; intros t H; [exact H|].
  destruct t as [|n l r]; [reflexivity|].
  cbn [replace_at node_at] in *.
  destruct i; cbn [skeleton]; rewrite IH by exact H; reflexivity.
Qed.

Lemma gen_iter_keeps (s s' : GEN) :
  gen_iter s = Ok s' ->
  skeleton (m_tree (g_compiler s')) = skeleton (m_tree (g_compiler s))
  /\ only_tree_and_status (g_compiler s) (g_compiler s').
Proof.
  unfold gen_iter. intros H.
  destruct (g_stack s) as [|node st] eqn:Est.
  - injection H as <-. split; [reflexivity | apply only_tree_and_status_refl].
  - unfold bind in H.
    destruct (gen_visit node (node_at (m_tree (g_compiler s)) node) s)
      as [[t1 s1]|] eqn:E1; [|discriminate].
    destruct (gen_finish node t1 s1) as [[t2 s2]|] eqn:E2; [|discriminate].
    injection H as <-.
    apply gen_visit_keeps in E1. destruct E1 as (Hk1 & Ht1 & Ho1).
    apply gen_finish_keeps in E2. destruct E2 as (Hk2 & Ht2 & Ho2).
    cbn [g_compiler]. split.
    + change (m_tree (set_tree ?t _)) with t.
      apply skeleton_replace_at. congruence.
    + pose proof (only_tree_and_status_trans _ _ _ Ho1 Ho2) as Ho.
      unfold only_tree_and_status in *. rewrite Ho.
      destruct (g_compiler s). reflexivity.
Qed.

Lemma gen_loop_keeps (fuel : nat) (s s' : GEN) :
  gen_loop fuel s = Ok s' ->
  skeleton (m_tree (g_compiler s')) = skeleton (m_tree (g_compiler s))
  /\ only_tree_and_status (g_compiler s) (g_compiler s').
Proof.
  revert s. induction fuel as [|fuel IH]; intros s H; cbn [gen_loop] in H.
  - destruct (g_stack s); [|discriminate]. injection H as <-.
    split; [reflexivity | apply only_tree_and_status_refl].
  - destruct (g_stack s).
    { injection H as <-.
      split; [reflexivity | apply only_tree_and_status_refl]. }
    unfold bind in H. destruct (gen_iter s) as [s1|] eqn:E; [|discriminate].
    apply gen_iter_keeps in E. destruct E as [Hk1 Ho1].
    apply IH in H. destruct H as [Hk2 Ho2].
    split; [congruence|].
    eapply only_tree_and_status_trans; eassumption.
Qed.

(** [generateUCode] is its loop, started on the prepared tree. *)
Lemma generateUCode_loop (fuel : nat) (c c' : COMPILER)
    (aCode code : list UOP) (pf pf' : CONTEXT) (b : bool) :
  generateUCode fuel c aCode pf = Ok (b, c', code, pf') ->
  (m_tree c = Nil /\ c' = c)
  \/ exists s1,
       gen_loop fuel (mkGEN (set_tree (prepareTree (m_tree c)) c) [[]] aCode pf)
       = Ok s1
       /\ c' = g_compiler s1.
Proof.
  unfold generateUCode. intros H.
  destruct (m_tree c) as [|n l r] eqn:Ht.
  - injection H as _ <- _ _. left. split; reflexivity.
  - unfold bind in H.
    match type of H with
    | match ?m with _ => _ end = _ => destruct m as [s1|] eqn:E; [|discriminate]
    end.
    injection H as _ <- _ _. right. exists s1. split; reflexivity.
Qed.

Lemma generateUCode_skeleton (fuel : nat) (c c' : COMPILER)
    (aCode code : list UOP) (pf pf' : CONTEXT) (b : bool) :
  generateUCode fuel c aCode pf = Ok (b, c', code, pf') ->
  skeleton (m_tree c') = skeleton (prepareTree (m_tree c)).
Proof.
  intros H. apply generateUCode_loop in H.
  destruct H as [[Ht ->]|(s1 & E & ->)]; [now rewrite Ht|].
  apply gen_loop_keeps in E. exact (proj1 E).
Qed.

(** X22.  The code generator writes nothing in the compiler but the error
    status and, in the nodes of the tree, the instructions and the two flags:
    the tree keeps the nodes, kinds, values and positions that [prepareTree]
    left, and every other member of the compiler is as it was. *)
Theorem generateUCode_keeps_the_tree (fuel : nat) (c c' : COMPILER)
    (aCode code : list UOP) (pf pf' : CONTEXT) (b : bool) :
  generateUCode fuel c aCode pf = Ok (b, c', code, pf') ->
  skeleton (m_tree c') = skeleton (prepareTree (m_tree c))
  /\ c' = set_errorStatus (m_errorStatus c') (set_tree (m_tree c') c).
Proof.
  intros H. split; [exact (generateUCode_skeleton _ _ _ _ _ _ _ _ H)|].
  apply generateUCode_loop in H.
  destruct H as [[_ ->]|(s1 & E & ->)].
  - apply only_tree_and_status_refl.
  - apply gen_loop_keeps in E. destruct E as [_ Ho].
    cbn [g_compiler] in Ho. unfold only_tree_and_status in Ho.
    rewrite Ho. destruct c. reflexivity.
Qed.

Lemma skeleton_nil (t : TREE) : skeleton t = Nil -> t = Nil.
Proof. destruct t; [reflexivity | discriminate]. Qed.

Lemma skeleton_node (t : TREE) (n : TREE_NODE) (l r : TREE) :
  skeleton t = skeleton (Node n l r) ->
  exists n' l' r',
    t = Node n' l' r' /\ op n' = op n /\ node_value n' = node_value n
    /\ skeleton l' = skeleton l /\ skeleton r' = skeleton r.
Proof.
  destruct t as [|n' l' r']; [discriminate|]. cbn [skeleton]. intros H.
  injection H as Hv Ho _ _ Hl Hr. exists n', l', r'. auto 6.
Qed.

Lemma operator_node_same (n n' : TREE_NODE) :
  op n' = op n -> operator_node n -> operator_node n'.
Proof. unfold operator_node. intros ->. auto. Qed.

(** The trees of the grammar are told by their skeleton. *)
Lemma wf_ast_skeleton (t : TREE) :
  wf_ast t -> forall t', skeleton t' = skeleton t -> wf_ast t'.
Proof.
  intros Hwf. induction Hwf as
    [ n Hn | n nu Hn Hnu | n text Hn Hs | n name Hn Hs
    | n nl nr item prop Hn Hnl Hi Hnr Hp
    | n nl nr nf fl fr argument item function Hn Hnl Hi Hnr Hf Harg IH
    | n l r Hnode Hmask Hl IHl Hr IHr
    | n l Hnode Hbin Hun Hl IHl ]; intros t' H;
    apply skeleton_node in H;
    destruct H as (n' & l' & r' & -> & Ho & Hv & Hl' & Hr').
  - apply skeleton_nil in Hl', Hr'. subst. apply wf_number. congruence.
  - apply skeleton_node in Hl'.
    destruct Hl' as (nu' & ul & ur & -> & Hou & _ & Hul & Hur).
    apply skeleton_nil in Hul, Hur, Hr'. subst.
    apply wf_number_unit; congruence.
  - apply skeleton_nil in Hl', Hr'. subst.
    eapply wf_string; [congruence | rewrite Hv; exact Hs].
  - apply skeleton_nil in Hl', Hr'. subst.
    eapply wf_identifier; [congruence | rewrite Hv; exact Hs].
  - apply skeleton_node in Hl', Hr'.
    destruct Hl' as (nl' & ll & lr & -> & Hol & Hvl & Hll & Hlr).
    destruct Hr' as (nr' & rl & rr & -> & Hor & Hvr & Hrl & Hrr).
    apply skeleton_nil in Hll, Hlr, Hrl, Hrr. subst.
    eapply wf_property;
      [congruence | congruence | rewrite Hvl; exact Hi | congruence
      | rewrite Hvr; exact Hp].
  - apply skeleton_node in Hl', Hr'.
    destruct Hl' as (nl' & ll & lr & -> & Hol & Hvl & Hll & Hlr).
    destruct Hr' as (nr' & rl & rr & -> & Hor & Hvr & Hrl & Hrr).
    apply skeleton_node in Hrl.
    destruct Hrl as (nf' & fl' & fr' & -> & _ & Hvf & _ & _).
    apply skeleton_nil in Hll, Hlr. subst.
    eapply wf_call;
      [congruence | congruence | rewrite Hvl; exact Hi | congruence
      | rewrite Hvf; exact Hf | now apply IH].
  - apply wf_binary; [now apply (operator_node_same n) | congruence | |];
      auto.
  - apply skeleton_nil in Hr'. subst.
    apply wf_unary; [now apply (operator_node_same n) | congruence | congruence
                    | auto].
Qed.

(** The program of a tree of the grammar is told by its skeleton. *)
Lemma emit_skeleton (t : TREE) :
  wf_ast t -> forall t', skeleton t' = skeleton t -> emit t' = emit t.
Proof.
  intros Hwf. induction Hwf as
    [ n Hn | n nu Hn Hnu | n text Hn Hs | n name Hn Hs
    | n nl nr item prop Hn Hnl Hi Hnr Hp
    | n nl nr nf fl fr argument item function Hn Hnl Hi Hnr Hf Harg IH
    | n l r Hnode Hmask Hl IHl Hr IHr
    | n l Hnode Hbin Hun Hl IHl ]; intros t' H;
    apply skeleton_node in H;
    destruct H as (n' & l' & r' & -> & Ho & Hv & Hl' & Hr').
  - apply skeleton_nil in Hl'. subst.
    rewrite !(emit_number node_labels) by congruence.
    unfold literal_value. now rewrite Hv.
  - apply skeleton_node in Hl'.
    destruct Hl' as (nu' & ul & ur & -> & Hou & Hvu & _ & _).
    rewrite !(emit_number node_labels) by congruence.
    unfold literal_value. now rewrite Hv, Hou, Hvu.
  - rewrite !(emit_string node_labels _ _ _ text) by congruence.
    reflexivity.
  - rewrite !(emit_identifier node_labels _ _ _ name) by congruence.
    reflexivity.
  - apply skeleton_node in Hl', Hr'.
    destruct Hl' as (nl' & ll & lr & -> & Hol & Hvl & _ & _).
    destruct Hr' as (nr' & rl & rr & -> & Hor & Hvr & _ & _).
    rewrite !(emit_property node_labels _ _ _ _ _ _ _ item prop)
      by congruence.
    reflexivity.
  - apply skeleton_node in Hl', Hr'.
    destruct Hl' as (nl' & ll & lr & -> & Hol & Hvl & _ & _).
    destruct Hr' as (nr' & rl & rr & -> & Hor & Hvr & Hrl & Hrr).
    apply skeleton_node in Hrl.
    destruct Hrl as (nf' & fl' & fr' & -> & _ & Hvf & _ & _).
    rewrite !(emit_call node_labels _ _ _ _ _ _ _ _ _ item function)
      by congruence.
    now rewrite (IH _ Hrr).
  - rewrite !emit_operator by (apply (operator_node_same n n' Ho Hnode)
                               || apply Hnode).
    now rewrite (IHl _ Hl'), (IHr _ Hr'), Ho.
  - apply skeleton_nil in Hr'. subst.
    rewrite !emit_operator by (apply (operator_node_same n n' Ho Hnode)
                               || apply Hnode).
    now rewrite (IHl _ Hl'), Ho.
Qed.

(** X23.  Code generation can be repeated: after [generateUCode] has run on a
    tree of the grammar, with its flags set and its instructions handed over,
    a second run on the compiler it left generates the same program again. *)
Theorem generateUCode_again (c : COMPILER) (pf : CONTEXT) :
  host_contract ->
  wf_ast (m_tree c) ->
  exists fuel0, forall fuel, (fuel0 <= fuel)%nat ->
    exists c1 code pf1 c2 pf2,
      generateUCode fuel c [] pf = Ok (true, c1, code, pf1)
      /\ generateUCode fuel c1 [] pf1 = Ok (true, c2, code, pf2).
Proof.
  intros Hhost Hwf.
  destruct (generateUCode_emit c [] pf Hhost Hwf) as (k & c1 & pf1 & Hg1 & _).
  pose proof (Hg1 k (Nat.le_refl k)) as Hk.
  apply generateUCode_skeleton in Hk. rename Hk into Hsk.
  pose proof (prepareTree_wf node_labels _ Hwf) as Hwf'.
  assert (Hwf1 : wf_ast (m_tree c1)) by exact (wf_ast_skeleton _ Hwf' _ Hsk).
  assert (Hemit : emit (m_tree c1) = emit (m_tree c)).
  { rewrite (emit_skeleton _ Hwf' _ Hsk).
    apply (prepareTree_emit node_labels _ Hwf). }
  destruct (generateUCode_emit c1 [] pf1 Hhost Hwf1)
    as (k2 & c2 & pf2 & Hg2 & _).
  exists (k + k2)%nat. intros fuel Hfuel.
  exists c1, (emit (m_tree c)), pf1, c2, pf2.
  split; [apply Hg1; lia|]. rewrite <- Hemit. apply Hg2. lia.
Qed.

(** X24.  [prepareTree] leaves no node marked visited, and preparing a
    prepared tree changes nothing. *)
Theorem prepareTree_idempotent (t : TREE) :
  unvisited (prepareTree t)
  /\ prepareTree (prepareTree t) = prepareTree t.
Proof.
  split; [apply prepareTree_unvisited|].
  unfold prepareTree. generalize false.
  induction t as [|n l IHl r IHr]; intros b; [reflexivity|].
  cbn [prepareTree_from]. destruct b; [reflexivity|].
  cbn [prepareTree_from op set_isVisited]. now rewrite IHl, IHr.
Qed.

(** ** The position of a preflight error *)

(** X25.  The position reported for a preflight error, [(int) loc - 1] for the
    unsigned [loc = srcPos - paramStr.Length()]: the subtraction wraps around
    when the text is longer than the position, and the cast to [int] undoes
    it, so that the position is the signed difference less one whenever that
    difference fits an [int]. *)
Theorem preflight_loc_is_signed (srcPos len : Z) :
  - 2 ^ 31 < srcPos - len < 2 ^ 31 ->
  preflight_loc srcPos len = srcPos - len - 1.
Proof.
  intros H. unfold preflight_loc, to_int.
  change (2 ^ 64) with 18446744073709551616.
  change (2 ^ 32) with 4294967296.
  change (2 ^ 31) with 2147483648 in *.
  Z.div_mod_to_equations. lia.
Qed.

(** ** Bare identifiers in comparisons *)

(** X26.  Two bare identifiers never compare equal: as a bare identifier is
    pushed as a null value, whatever the resolver returns for it, the
    program of [a == b] evaluates to 0 and the program of [a != b] to 1,
    also where [a] and [b] are the same name. *)
Theorem bare_identifiers_never_compare_equal (c : COMPILER) (pf ctx : CONTEXT)
    (n nl nr : TREE_NODE) (a b : string) :
  NoDup binary_case_labels ->
  m_tree c = Node n (Node nl Nil Nil) (Node nr Nil Nil) ->
  operator_node n ->
  has_mask (op n) TR_OP_BINARY_MASK = true ->
  op nl = TR_IDENTIFIER ->
  str (node_value nl) = Some a ->
  op nr = TR_IDENTIFIER ->
  str (node_value nr) = Some b ->
  m_stack ctx = [] ->
  exists fuel0 c' code pf',
    (forall fuel, (fuel0 <= fuel)%nat ->
       generateUCode fuel c [] pf = Ok (true, c', code, pf'))
    /\ (op n = TR_OP_EQUAL -> Run code ctx = Ok (Some (VNumeric 0), ctx))
    /\ (op n = TR_OP_NOT_EQUAL -> Run code ctx = Ok (Some (VNumeric 1), ctx)).
Proof.
  intros Hbin Ht Hnode Hmask Hnl Ha Hnr Hb Hst.
  assert (Hprep : prepareTree (m_tree c)
                  = Node (set_isVisited false n)
                      (Node (set_isVisited false nl) Nil Nil)
                      (Node (set_isVisited false nr) Nil Nil)).
  { rewrite Ht, prepareTree_node, (operator_not_call n Hnode).
    reflexivity. }
  destruct (generateUCode_of_finishes c [] pf) as (k & c' & pf' & Hgen & _).
  - rewrite Ht. discriminate.
  - pose proof (prepareTree_unvisited false (m_tree c)) as Hun.
    fold (prepareTree (m_tree c)) in Hun. rewrite Hprep in Hun |- *.
    now apply unvisited_root in Hun.
  - rewrite Hprep.
    eapply binary_finishes;
      [exact Hnode | reflexivity | reflexivity | |].
    + apply (identifier_finishes PARSER node_labels exec_labels _ _ _ a);
        assumption.
    + apply (identifier_finishes PARSER node_labels exec_labels _ _ _ b);
        assumption.
  - rewrite Hprep in Hgen.
    rewrite (emit_operator (set_isVisited false n) _ _ (proj2 Hnode)) in Hgen.
    rewrite (emit_identifier node_labels (set_isVisited false nl) Nil Nil a Hnl Ha) in Hgen.
    rewrite (emit_identifier node_labels (set_isVisited false nr) Nil Nil b Hnr Hb) in Hgen.
    cbn [app op set_isVisited] in Hgen.
    eexists k, c', _, pf'. split; [exact Hgen|].
    assert (Hrun : Run [UOP_ref TR_UOP_PUSH_VALUE (CreateVarRef a EmptyString);
                        UOP_ref TR_UOP_PUSH_VALUE (CreateVarRef b EmptyString);
                        UOP_ref (op n) None] ctx
                   = Ok (Some (VNumeric (binary_result (op n) None None)),
                         ctx)).
    { unfold Run. cbn [Run_ops].
      rewrite (Exec_push_ref exec_labels). cbn [bind].
      rewrite (Exec_push_ref exec_labels). cbn [bind].
      destruct ctx as [st es]. cbn [m_stack] in Hst. subst st.
      unfold Push. cbn [m_stack ctx_errorStatus].
      rewrite (Exec_binary (UOP_ref (op n) None) None None [] es Hmask
                 (proj1 Hnode)).
      reflexivity. }
    destruct (binary_result_table None None Hbin)
      as (_ & _ & _ & _ & _ & _ & _ & _ & Heq & Hneq & _).
    split; intros Hop; rewrite Hrun; cbn [m_op UOP_ref]; rewrite Hop;
      [rewrite Heq | rewrite Hneq]; reflexivity.
Qed.

(** ** Errors at run time *)

(** X27.  The virtual machine reports no error of its own: running
    instructions that do not call into the host (pushes of literals and
    operators) leaves the error status of the context as it was, whatever
    the operands are; a division by zero is not an error. *)
Theorem Run_ops_reports_no_error (code : list UOP) (ctx ctx' : CONTEXT) :
  Forall (fun u => m_op u <> TR_UOP_PUSH_VAR /\ m_op u <> TR_OP_METHOD_CALL)
    code ->
  Run_ops code ctx = Ok ctx' ->
  ctx_errorStatus ctx' = ctx_errorStatus ctx.
Proof.
  intros Hpure. revert ctx. induction Hpure as [|u code [Hv Hm] _ IH];
    intros ctx H; cbn [Run_ops] in H.
  - now injection H as <-.
  - unfold bind in H. destruct (Exec u ctx) as [ctx1|] eqn:E; [|discriminate].
    rewrite (IH _ H). clear H IH.
    unfold Exec in E.
    rewrite (proj2 (Z.eqb_neq _ _) Hv), (proj2 (Z.eqb_neq _ _) Hm) in E.
    destruct (m_op u =? TR_UOP_PUSH_VALUE); [now injection E as <-|].
    unfold Exec_operator in E.
    destruct (has_mask (m_op u) TR_OP_BINARY_MASK).
    + unfold bind, Pop in E.
      destruct (m_stack ctx) as [|arg2 [|arg1 st]]; try discriminate E.
      cbn [m_stack] in E. now injection E as <-.
    + destruct (has_mask (m_op u) TR_OP_UNARY_MASK); now injection E as <-.
Qed.

(** ** The preflight context *)

Lemma gen_preflight_balanced (f : FUNC_CALL_REF) (vref : option VAR_REF)
    (n : TREE_NODE) (param : TREE) (s s' : GEN) :
  function_contract f ->
  gen_preflight f vref n param s = Ok s' ->
  m_stack (g_preflight s') = m_stack (g_preflight s).
Proof.
  intros Hf. unfold gen_preflight, preflight_call.
  set (text := match str (node_value n) with
               | Some p => p
               | None => EmptyString
               end).
  destruct (Hf (Push (Some (VText text)) (g_preflight s)) vref
              (Some (VText text)) (m_stack (g_preflight s)) eq_refl)
    as (v & pf1 & Hcall & Hst).
  rewrite Hcall. unfold bind, Pop. rewrite Hst.
  intros H. repeat (break_match H; try discriminate H); injection H as <-;
    reflexivity.
Qed.

Ltac balanced :=
  cbn [g_preflight gen_report gen_set_stack gen_set_preflight AddOp];
  reflexivity.

Lemma gen_visit_balanced (node : NODE_PTR) (t t' : TREE) (s s' : GEN) :
  host_contract ->
  gen_visit node t s = Ok (t', s') ->
  m_stack (g_preflight s') = m_stack (g_preflight s).
Proof.
  intros Hhost. unfold gen_visit. intros H.
  destruct t as [|n l r]; [discriminate|].
  destruct (op n =? TR_OP_FUNC_CALL).
  { unfold bind, assert in H. destruct (uop n); [|discriminate].
    now injection H as _ <-. }
  destruct (op n =? TR_STRUCT_REF).
  { unfold gen_struct_ref in H.
    destruct l as [|nl ll lr]; [discriminate|].
    unfold bind, assert in H.
    destruct (op nl =? TR_IDENTIFIER); [|discriminate].
    destruct r as [|nr rl rr]; [discriminate|].
    destruct (op nr =? TR_IDENTIFIER).
    { unfold gen_property, bind, deref in H.
      destruct (str (node_value nl)); [|discriminate].
      destruct (str (node_value nr)); [|discriminate].
      injection H as _ <-.
      destruct (CreateVarRef _ _) as [v|];
        [destruct (VAR_TYPE_T_eqb (GetType v) VT_PARSE_ERROR)|]; balanced. }
    destruct (op nr =? TR_OP_FUNC_CALL); [|now injection H as _ <-].
    unfold gen_method, bind, deref in H.
    destruct (str (node_value nl)) as [itemName|]; [|discriminate].
    destruct rl as [|nrl rll rlr]; [discriminate|].
    destruct (str (node_value nrl)) as [functionName|]; [|discriminate].
    match type of H with
    | match ?m with _ => _ end = _ =>
        destruct m as [s1|] eqn:E1; [|discriminate]
    end.
    destruct rr as [|nrr rrl rrr]; [discriminate|].
    cbn [mark_visited] in H. injection H as _ <-.
    cbn [g_preflight gen_set_stack].
    destruct (CreateFuncCall functionName) as [f|] eqn:Ef.
    - apply gen_preflight_balanced in E1; [|exact (Hhost _ _ Ef)].
      rewrite E1. destruct (CreateVarRef itemName EmptyString); balanced.
    - injection E1 as <-.
      destruct (CreateVarRef itemName EmptyString); balanced. }
  destruct (op n =? TR_NUMBER).
  { destruct (str (node_value n)).
    - destruct l as [|ns sl sr]; [now injection H as _ <-|].
      destruct (op ns =? TR_UNIT); now injection H as _ <-.
    - now injection H as _ <-. }
  destruct (op n =? TR_STRING).
  { unfold bind, deref in H. destruct (str (node_value n)); [|discriminate].
    now injection H as _ <-. }
  destruct (op n =? TR_IDENTIFIER).
  { unfold bind, deref in H. destruct (str (node_value n)); [|discriminate].
    injection H as _ <-. destruct (CreateVarRef _ _); balanced. }
  now injection H as _ <-.
Qed.

Lemma gen_finish_balanced (node : NODE_PTR) (t t' : TREE) (s s' : GEN) :
  gen_finish node t s = Ok (t', s') ->
  g_preflight s' = g_preflight s.
Proof.
  unfold gen_finish. intros H.
  destruct t as [|n l r]; [discriminate|].
  destruct (negb (isTerminal n)).
  - destruct (negb (is_null l) && negb (leaf_visited l)).
    { destruct l as [|nl ll lr]; [discriminate|].
      cbn [mark_visited bind] in H. now injection H as _ <-. }
    destruct (negb (is_null r) && negb (leaf_visited r)).
    { destruct r as [|nr rl rr]; [discriminate|].
      cbn [mark_visited bind] in H. now injection H as _ <-. }
    now injection H as _ <-.
  - cbn [uop set_isVisited] in H. destruct (uop n) as [u|];
      now injection H as _ <-.
Qed.

Lemma gen_loop_balanced (fuel : nat) (s s' : GEN) :
  host_contract ->
  gen_loop fuel s = Ok s' ->
  m_stack (g_preflight s') = m_stack (g_preflight s).
Proof.
  intros Hhost. revert s. induction fuel as [|fuel IH]; intros s H;
    cbn [gen_loop] in H.
  - destruct (g_stack s); [|discriminate]. now injection H as <-.
  - destruct (g_stack s) as [|node st] eqn:Est; [now injection H as <-|].
    unfold bind in H. destruct (gen_iter s) as [s1|] eqn:E; [|discriminate].
    rewrite (IH _ H). clear H IH.
    unfold gen_iter in E. rewrite Est in E. unfold bind in E.
    destruct (gen_visit node (node_at (m_tree (g_compiler s)) node) s)
      as [[t1 s2]|] eqn:E1; [|discriminate].
    destruct (gen_finish node t1 s2) as [[t2 s3]|] eqn:E2; [|discriminate].
    injection E as <-. cbn [g_preflight].
    apply gen_finish_balanced in E2. rewrite E2.
    now apply gen_visit_balanced in E1.
Qed.

(** X28.  Code generation leaves the stack of the preflight context as it
    found it: with host functions that keep their contract, each preflight
    pushes the argument text, calls the function and pops the result, so
    that the same preflight context can serve any number of compilations
    without its stack growing. *)
Theorem generateUCode_balances_preflight (fuel : nat) (c c' : COMPILER)
    (aCode code : list UOP) (pf pf' : CONTEXT) (b : bool) :
  host_contract ->
  generateUCode fuel c aCode pf = Ok (b, c', code, pf') ->
  m_stack pf' = m_stack pf.
Proof.
  intros Hhost H. unfold generateUCode in H.
  destruct (m_tree c) as [|n l r]; [now injection H as _ _ _ <-|].
  unfold bind in H.
  match type of H with
  | match ?m with _ => _ end = _ => destruct m as [s1|] eqn:E; [|discriminate]
  end.
  injection H as _ _ _ <-.
  now apply gen_loop_balanced in E.
Qed.

(** ** Running the program of a tree *)

Lemma host_run_contract_functions : host_run_contract -> host_contract.
Proof.
  intros [Hf _] name f E ctx ref a rest Hst.
  destruct (Hf name f E ctx ref a rest Hst) as (x & ctx' & Hret & Hst').
  exists (Some x), ctx'. split; assumption.
Qed.

Lemma Exec_method_value (f : FUNC_CALL_REF) (ref : option VAR_REF)
    (ctx : CONTEXT) (a : option VALUE) (rest : list (option VALUE)) :
  function_pushes_value f ->
  m_stack ctx = a :: rest ->
  exists x ctx',
    Exec (UOP_func TR_OP_METHOD_CALL (Some f) ref) ctx = Ok ctx'
    /\ m_stack ctx' = Some x :: rest.
Proof.
  intros Hf Hst. destruct (exec_label_tests exec_labels) as (_ & H2 & H3).
  apply Z.eqb_neq in H3. assert (H2' : TR_OP_METHOD_CALL <> TR_UOP_PUSH_VALUE)
    by (intro E; apply H2; now symmetry).
  apply Z.eqb_neq in H2'.
  destruct (Hf ctx ref a rest Hst) as (x & ctx' & Hret & Hst').
  exists x, ctx'. split; [|exact Hst'].
  unfold Exec, UOP_func. cbn [m_op m_func m_ref].
  now rewrite H3, H2', Z.eqb_refl, Hret.
Qed.

Lemma Exec_method_empty (ref : option VAR_REF) (ctx : CONTEXT) :
  Exec (UOP_func TR_OP_METHOD_CALL None ref) ctx = Fault BadFunctionCall.
Proof.
  destruct (exec_label_tests exec_labels) as (_ & H2 & H3).
  apply Z.eqb_neq in H3. assert (H2' : TR_OP_METHOD_CALL <> TR_UOP_PUSH_VALUE)
    by (intro E; apply H2; now symmetry).
  apply Z.eqb_neq in H2'.
  unfold Exec, UOP_func. cbn [m_op m_func m_ref].
  now rewrite H3, H2', Z.eqb_refl.
Qed.

Lemma Exec_push_var_null (ctx : CONTEXT) :
  Exec (UOP_ref TR_UOP_PUSH_VAR None) ctx = Fault NullDeref.
Proof.
  unfold Exec, UOP_ref. cbn [m_op m_ref]. rewrite Z.eqb_refl. reflexivity.
Qed.

Lemma Run_ops_fault (p q : list UOP) (ctx : CONTEXT) (f : fault) :
  Run_ops p ctx = Fault f -> Run_ops (p ++ q) ctx = Fault f.
Proof. intros H. rewrite Run_ops_app, H. reflexivity. Qed.

Lemma bound_uop_dec (u : UOP) : {bound_uop u} + {~ bound_uop u}.
Proof.
  unfold bound_uop.
  destruct (Z.eq_dec (m_op u) TR_UOP_PUSH_VAR) as [Ev|Ev];
    destruct (Z.eq_dec (m_op u) TR_OP_METHOD_CALL) as [Em|Em];
    destruct (m_ref u) as [r|]; destruct (m_func u) as [g|];
    try (left; split; intros; [try discriminate; contradiction
                              | try discriminate; contradiction]);
    right; intros [H1 H2]; try (now apply H1); now apply H2.
Qed.

Lemma kind_not_bare (n : TREE_NODE) (l r : TREE) :
  In (op n) node_case_labels ->
  op n <> TR_IDENTIFIER ->
  ~ bare_identifier (Node n l r).
Proof.
  intros Hin Hne Hb. inversion Hb as [? ? ? Hid|? ? ? [_ Hnode] _ _]; subst.
  - contradiction.
  - contradiction.
Qed.

Lemma operator_not_identifier (n : TREE_NODE) :
  operator_node n -> op n <> TR_IDENTIFIER.
Proof.
  intros [_ H] E. apply H. rewrite E. unfold node_case_labels. cbn. tauto.
Qed.

Lemma binary_not_bare (n : TREE_NODE) (l r : TREE) :
  operator_node n ->
  has_mask (op n) TR_OP_BINARY_MASK = true ->
  ~ bare_identifier (Node n l r).
Proof.
  intros Hnode Hmask Hb.
  inversion Hb as [? ? ? Hid|? ? ? _ Hbin _]; subst.
  - now apply (operator_not_identifier n Hnode).
  - congruence.
Qed.

Lemma unary_bare (n : TREE_NODE) (l r : TREE) :
  operator_node n ->
  has_mask (op n) TR_OP_BINARY_MASK = false ->
  bare_identifier (Node n l r) <-> bare_identifier l.
Proof.
  intros Hnode Hbin. split.
  - intros Hb. inversion Hb as [? ? ? Hid|? ? ? _ _ Hl]; subst.
    + now contradiction (operator_not_identifier n Hnode).
    + exact Hl.
  - now apply bare_unary.
Qed.

Section Run_facts.

Hypothesis host_keeps_contract : host_run_contract.

Hypothesis push_var_is_not_binary :
  has_mask TR_UOP_PUSH_VAR TR_OP_BINARY_MASK = false.

(** The program of a tree of the parser, all of its instructions bound,
    pushes exactly one entry on the stack it starts from: a null pointer
    for a bare identifier, and a value otherwise. *)
Lemma run_emit (t : TREE) :
  wf_ast t ->
  Forall bound_uop (emit t) ->
  forall ctx, exists v ctx',
    Run_ops (emit t) ctx = Ok ctx'
    /\ m_stack ctx' = v :: m_stack ctx
    /\ (v = None <-> bare_identifier t).
Proof.
  destruct (exec_label_tests exec_labels) as (Hpv & _).
  label_tests node_labels.
  assert (Hkind : forall (n : TREE_NODE) (l r : TREE) (x : VALUE),
             In (op n) node_case_labels -> op n <> TR_IDENTIFIER ->
             Some x = None <-> bare_identifier (Node n l r)).
  { intros n l r x Hin Hne. split; [discriminate|].
    intros Hb. now contradiction (kind_not_bare n l r Hin Hne). }
  intros Hwf. induction Hwf as
    [ n Hn | n nu Hn Hnu | n text Hn Hs | n name Hn Hs
    | n nl nr item prop Hn Hnl Hi Hnr Hp
    | n nl nr nf fl fr argument item function Hn Hnl Hi Hnr Hf Harg IH
    | n l r Hnode Hmask Hl IHl Hr IHr
    | n l Hnode Hbin Hun Hl IHl ]; intros Hb ctx.
  - rewrite (emit_number node_labels) by assumption. cbn [Run_ops].
    rewrite (Exec_push_value _ _ Hpv). eexists. eexists.
    split; [reflexivity|]. split; [reflexivity|].
    apply Hkind; rewrite Hn; [unfold node_case_labels; cbn; tauto|].
    intros E. rewrite E, Z.eqb_refl in *. discriminate.
  - rewrite (emit_number node_labels) by assumption. cbn [Run_ops].
    rewrite (Exec_push_value _ _ Hpv). eexists. eexists.
    split; [reflexivity|]. split; [reflexivity|].
    apply Hkind; rewrite Hn; [unfold node_case_labels; cbn; tauto|].
    intros E. rewrite E, Z.eqb_refl in *. discriminate.
  - rewrite (emit_string node_labels _ _ _ text) by assumption.
    cbn [Run_ops]. rewrite (Exec_push_value _ _ Hpv). eexists. eexists.
    split; [reflexivity|]. split; [reflexivity|].
    apply Hkind; rewrite Hn; [unfold node_case_labels; cbn; tauto|].
    intros E. rewrite E, Z.eqb_refl in *. discriminate.
  - rewrite (emit_identifier node_labels _ _ _ name) by assumption.
    cbn [Run_ops]. rewrite (Exec_push_ref exec_labels).
    eexists. eexists. split; [reflexivity|]. split; [reflexivity|].
    split; [intros _; now apply bare_name | reflexivity].
  - rewrite (emit_property node_labels _ _ _ _ _ _ _ item prop) in *
      by assumption.
    inversion Hb as [|u us [Hu _] _]. subst. cbn in Hu.
    destruct (CreateVarRef item prop) as [v|] eqn:Ev;
      [|now contradiction Hu].
    destruct (proj2 host_keeps_contract item prop v Ev ctx)
      as (x & ctx1 & Hget & Hst).
    cbn [Run_ops]. rewrite (Exec_push_var push_var_is_not_binary _ _ _ _ Hget).
    eexists. eexists. split; [reflexivity|].
    split; [cbn; now rewrite Hst|].
    apply Hkind; rewrite Hn; [unfold node_case_labels; cbn; tauto|].
    intros E. rewrite <- E, Z.eqb_refl in *. discriminate.
  - rewrite (emit_call node_labels _ _ _ _ _ _ _ _ _ item function) in *
      by assumption.
    apply Forall_app in Hb. destruct Hb as [Hba Hbu].
    inversion Hbu as [|u us [_ Hu] _]. subst. cbn in Hu.
    destruct (CreateFuncCall function) as [f|] eqn:Ef;
      [|now contradiction Hu].
    destruct (IH Hba ctx) as (v & ctx1 & Hrun & Hst & _).
    rewrite Run_ops_app, Hrun. cbn [bind Run_ops].
    destruct (Exec_method_value f (CreateVarRef item EmptyString) ctx1 v
                (m_stack ctx) (proj1 host_keeps_contract _ _ Ef) Hst)
      as (x & ctx2 & Hexec & Hst2).
    rewrite Hexec. cbn [bind]. exists (Some x), ctx2.
    split; [reflexivity|]. split; [exact Hst2|].
    apply Hkind; rewrite Hn; [unfold node_case_labels; cbn; tauto|].
    intros E. rewrite <- E, Z.eqb_refl in *. discriminate.
  - rewrite emit_operator in * by apply Hnode.
    apply Forall_app in Hb. destruct Hb as [Hbl Hb].
    apply Forall_app in Hb. destruct Hb as [Hbr _].
    destruct (IHl Hbl ctx) as (v1 & ctx1 & Hrun1 & Hst1 & _).
    destruct (IHr Hbr ctx1) as (v2 & ctx2 & Hrun2 & Hst2 & _).
    rewrite Run_ops_app, Hrun1. cbn [bind].
    rewrite Run_ops_app, Hrun2. cbn [bind Run_ops].
    destruct ctx2 as [st2 es2]. cbn [m_stack] in Hst2. subst st2.
    rewrite Hst1.
    rewrite (Exec_binary (UOP_ref (op n) None) v1 v2 (m_stack ctx) es2 Hmask
               (proj1 Hnode)).
    cbn [bind]. eexists. eexists. split; [reflexivity|].
    split; [reflexivity|]. split; [discriminate|].
    intros Hbare. now contradiction (binary_not_bare n l r Hnode Hmask).
  - rewrite emit_operator in * by apply Hnode.
    apply Forall_app in Hb. destruct Hb as [Hbl _].
    destruct (IHl Hbl ctx) as (v1 & ctx1 & Hrun1 & Hst1 & Hnull).
    rewrite Run_ops_app, Hrun1. cbn [bind emit app Run_ops].
    rewrite (Exec_no_op _ _ (proj1 Hnode) Hbin). cbn [bind].
    exists v1, ctx1. split; [reflexivity|]. split; [exact Hst1|].
    rewrite Hnull. symmetry. now apply unary_bare.
Qed.

(** The program of a tree of the parser with an instruction that is not
    bound ends in a fault, at the first such instruction. *)
Lemma run_emit_fault (t : TREE) :
  wf_ast t ->
  ~ Forall bound_uop (emit t) ->
  forall ctx, exists f, Run_ops (emit t) ctx = Fault f.
Proof.
  destruct (exec_label_tests exec_labels) as (Hpv & _).
  intros Hwf. induction Hwf as
    [ n Hn | n nu Hn Hnu | n text Hn Hs | n name Hn Hs
    | n nl nr item prop Hn Hnl Hi Hnr Hp
    | n nl nr nf fl fr argument item function Hn Hnl Hi Hnr Hf Harg IH
    | n l r Hnode Hmask Hl IHl Hr IHr
    | n l Hnode Hbin Hun Hl IHl ]; intros Hb ctx.
  - exfalso. apply Hb. rewrite (emit_number node_labels) by assumption.
    constructor; [apply (bound_push_value exec_labels) | constructor].
  - exfalso. apply Hb. rewrite (emit_number node_labels) by assumption.
    constructor; [apply (bound_push_value exec_labels) | constructor].
  - exfalso. apply Hb.
    rewrite (emit_string node_labels _ _ _ text) by assumption.
    constructor; [apply (bound_push_value exec_labels) | constructor].
  - exfalso. apply Hb.
    rewrite (emit_identifier node_labels _ _ _ name) by assumption.
    constructor; [apply (bound_push_ref exec_labels) | constructor].
  - rewrite (emit_property node_labels _ _ _ _ _ _ _ item prop) in *
      by assumption.
    destruct (CreateVarRef item prop) as [v|].
    + exfalso. apply Hb. constructor; [|constructor].
      split; cbn; intros E; [discriminate|].
      destruct (exec_label_tests exec_labels) as (_ & _ & H3).
      now contradiction H3.
    + exists NullDeref. cbn [Run_ops]. now rewrite Exec_push_var_null.
  - rewrite (emit_call node_labels _ _ _ _ _ _ _ _ _ item function) in *
      by assumption.
    destruct (Forall_dec bound_uop bound_uop_dec (emit argument))
      as [Hba|Hba].
    + destruct (CreateFuncCall function) as [f|].
      * exfalso. apply Hb. apply Forall_app. split; [exact Hba|].
        constructor; [|constructor].
        split; cbn; intros E; [|discriminate].
        destruct (exec_label_tests exec_labels) as (_ & _ & H3).
        now contradiction H3.
      * destruct (run_emit argument Harg Hba ctx)
          as (v & ctx1 & Hrun & _).
        exists BadFunctionCall. rewrite Run_ops_app, Hrun.
        cbn [bind Run_ops]. now rewrite Exec_method_empty.
    + destruct (IH Hba ctx) as (f & Hf').
      exists f. now apply Run_ops_fault.
  - rewrite emit_operator in * by apply Hnode.
    destruct (Forall_dec bound_uop bound_uop_dec (emit l)) as [Hbl|Hbl].
    + destruct (Forall_dec bound_uop bound_uop_dec (emit r)) as [Hbr|Hbr].
      * exfalso. apply Hb. apply Forall_app. split; [exact Hbl|].
        apply Forall_app. split; [exact Hbr|].
        constructor; [apply bound_operator, Hnode | constructor].
      * destruct (run_emit l Hl Hbl ctx) as (v & ctx1 & Hrun & _).
        destruct (IHr Hbr ctx1) as (f & Hf').
        exists f. rewrite Run_ops_app, Hrun. cbn [bind].
        now apply Run_ops_fault.
    + destruct (IHl Hbl ctx) as (f & Hf').
      exists f. now apply Run_ops_fault.
  - rewrite emit_operator in * by apply Hnode.
    destruct (Forall_dec bound_uop bound_uop_dec (emit l)) as [Hbl|Hbl].
    + exfalso. apply Hb. apply Forall_app. split; [exact Hbl|].
      cbn [emit app].
      constructor; [apply bound_operator, Hnode | constructor].
    + destruct (IHl Hbl ctx) as (f & Hf').
      exists f. now apply Run_ops_fault.
Qed.


End Run_facts.

(** ** Errors of the code generator *)

Section Compile_facts.

Context {tk : TOKENS}.
Variable Parse : Z -> T_TOKEN -> COMPILER -> COMPILER.

(** C3, as the code has it.  A CodeGen error does not abort anything:
    [reportError] records it and the generator goes on.  Whenever [Compile]
    reaches the code generator with a tree of the parser, it returns true,
    given fuel enough, and the program is the whole program of the tree
    after the instructions it held before: every instruction of [emit],
    whether or not an error was reported on the way.  An error that was
    pending is still pending, and an error is pending where a property or a
    function was not resolved, although the program is complete.  [Compile]
    returns false only out of its parse loop, and then it has emitted
    nothing. *)
Theorem C3_codegen_errors_do_not_abort (aString : string) (c c1 : COMPILER)
    (aCode : list UOP) (pf : CONTEXT) :
  host_contract ->
  wf_ast (m_tree c1) ->
  exists fuel0 c' pf',
    forall fuel, (fuel0 <= fuel)%nat ->
      (front_end Parse fuel aString c = Ok (true, c1) ->
       Compile Parse fuel aString c aCode pf
       = Ok (true, c', aCode ++ emit (m_tree c1), pf')
       /\ (pending c1 = true -> pending c' = true)
       /\ (~ Forall bound_uop (emit (m_tree c1)) -> pending c' = true))
      /\ (forall c0 code0 pf0,
            Compile Parse fuel aString c aCode pf = Ok (false, c0, code0, pf0) ->
            front_end Parse fuel aString c = Ok (false, c0)
            /\ code0 = aCode /\ pf0 = pf).
Proof.
  intros Hhost Hwf.
  destruct (generateUCode_emit c1 aCode pf Hhost Hwf)
    as (k & c' & pf' & Hgen & Hp).
  exists k, c', pf'. intros fuel Hfuel. split.
  - intros Hfront. rewrite (Compile_front_end PARSER Parse), Hfront.
    cbn [bind]. split; [now apply Hgen|]. split.
    + intros Hc1. destruct (pending c') eqn:E; [reflexivity|].
      destruct (Hp eq_refl) as [Hc1' _]. congruence.
    + intros Hb. destruct (pending c') eqn:E; [reflexivity|].
      destruct (Hp eq_refl) as [_ Hb']. contradiction.
  - intros c0 code0 pf0. rewrite (Compile_front_end PARSER Parse).
    destruct (front_end Parse fuel aString c) as [[go c2]|f];
      [|discriminate].
    cbn [bind]. destruct go.
    + intros Hg. apply (generateUCode_true PARSER) in Hg.
      destruct Hg as [Hg _]. discriminate Hg.
    + intros H. injection H as <- <- <-. auto.
Qed.

End Compile_facts.

End Generator_facts.

(** * The properties at concrete inputs

    From here on the parameters are the sample ones. *)

#[local] Existing Instance header_opcodes.
#[local] Existing Instance sample_tokens.
#[local] Existing Instance sample_host.

Lemma header_binary_labels :
  NoDup binary_case_labels.
Proof.
  unfold binary_case_labels. cbn.
  repeat (constructor; [cbn; intuition discriminate|]). constructor.
Qed.

Lemma header_exec_labels : NoDup exec_case_labels.
Proof.
  unfold exec_case_labels. cbn.
  repeat (constructor; [cbn; intuition discriminate|]). constructor.
Qed.

Lemma header_node_labels : NoDup node_case_labels.
Proof.
  unfold node_case_labels. cbn.
  repeat (constructor; [cbn; intuition discriminate|]). constructor.
Qed.

Lemma header_operator_code (op : Z) :
  (op =? 1) || (op =? 2) || (op =? 25) = false ->
  operator_code op.
Proof.
  intros H. unfold operator_code, exec_case_labels. cbn.
  intros [E|[E|[E|[]]]]; subst op; discriminate H.
Qed.

(** C1 at [5 - 3]: the value on top of the stack is the right operand. *)
Lemma C1_binary_operators_witness :
  Exec (UOP_ref 0x204 None)
    (mkCONTEXT [Some (VNumeric 3); Some (VNumeric 5)] noError)
  = Ok (mkCONTEXT [Some (VNumeric 2)] noError).
Proof.
  assert (Hm : has_mask (m_op (UOP_ref 0x204 None)) TR_OP_BINARY_MASK = true)
    by reflexivity.
  assert (Ho : operator_code (m_op (UOP_ref 0x204 None)))
    by (apply header_operator_code; reflexivity).
  destruct (C1_binary_operators (UOP_ref 0x204 None)
              (Some (VNumeric 5)) (Some (VNumeric 3)) [] noError
              Hm Ho header_binary_labels header_exec_labels)
    as (result & Hexec & _ & Hsub & _).
  rewrite Hexec, (Hsub eq_refl). reflexivity.
Defined.

(** C3, refuted as stated: the text [B] names no item, a CodeGen error is
    recorded, and [Compile] still returns true with the instruction emitted
    for [B] in the program. *)
Lemma C3_counterexample :
  exists c' pf',
    Compile sample_Parse 10 "B" sample_compiler [] newCONTEXT
    = Ok (true, c', [UOP_ref 2 None], pf')
    /\ m_errorStatus c'
       = mkERROR_STATUS true CST_CODEGEN "Unrecognized item 'B'" 0.
Proof.
  eexists. eexists. split; vm_compute; reflexivity.
Qed.

(** C7 with the sample parameters. *)
Lemma C7_empty_input_witness :
  exists c',
    Compile sample_Parse 0 EmptyString sample_compiler [] newCONTEXT
    = Ok (true, c', [UOP_value TR_UOP_PUSH_VALUE (VNumeric 1)], newCONTEXT)
    /\ Run [UOP_value TR_UOP_PUSH_VALUE (VNumeric 1)] newCONTEXT
       = Ok (Some (VNumeric 1), newCONTEXT).
Proof.
  apply (C7_empty_input SAMPLE_PARSER sample_Parse 0 sample_compiler
           newCONTEXT newCONTEXT).
  - discriminate.
  - reflexivity.
Defined.

(** C5 at [item.prop], where the sample host has no item of that name. *)
Lemma C5_item_prop_errors_witness :
  exists c',
    generateUCode 1
      (set_tree
         (tree_node TR_STRUCT_REF None 9
            (tree_node TR_IDENTIFIER (Some "item"%string) 4 Nil Nil)
            (tree_node TR_IDENTIFIER (Some "prop"%string) 9 Nil Nil))
         sample_compiler) [] newCONTEXT
    = Ok (true, c', [UOP_ref TR_UOP_PUSH_VAR None], newCONTEXT)
    /\ m_errorStatus c'
       = mkERROR_STATUS true CST_CODEGEN "Unrecognized item 'item'" 0.
Proof.
  edestruct (C5_item_prop_errors SAMPLE_PARSER 0
               (set_tree
                  (tree_node TR_STRUCT_REF None 9
                     (tree_node TR_IDENTIFIER (Some "item"%string) 4 Nil Nil)
                     (tree_node TR_IDENTIFIER (Some "prop"%string) 9 Nil Nil))
                  sample_compiler) [] newCONTEXT)
    with (item := "item"%string) (prop := "prop"%string)
         (item_pos := 0) (prop_pos := 5)
    as (c' & Hgen & Hitem & _);
    [ exact header_node_labels | reflexivity | reflexivity | reflexivity
    | reflexivity | reflexivity | reflexivity | reflexivity | reflexivity
    | lia | lia | ].
  exists c'. split; [exact Hgen | apply Hitem; reflexivity].
Defined.

(** C5, refuted as stated: [Compile] of [item.prop] does not fail when the
    item is unknown, nor when the property is; it returns true. *)
Lemma C5_counterexample :
  (exists c' code pf',
      Compile sample_Parse 10 "item.prop" sample_compiler [] newCONTEXT
      = Ok (true, c', code, pf')
      /\ m_errorStatus c'
         = mkERROR_STATUS true CST_CODEGEN "Unrecognized item 'item'" 0)
  /\ (exists c' code pf',
        Compile sample_Parse 10 "A.prop" sample_compiler [] newCONTEXT
        = Ok (true, c', code, pf')
        /\ m_errorStatus c'
           = mkERROR_STATUS true CST_CODEGEN "Unrecognized property 'prop'" 2).
Proof.
  split; eexists; eexists; eexists; split; vm_compute; reflexivity.
Qed.

(** C6 at the identifier [A], which the sample host resolves to a variable
    of value 5: the program pushes a null pointer, not 5. *)
Lemma C6_identifier_emits_push_value_witness :
  exists c',
    generateUCode 1
      (set_tree (tree_node TR_IDENTIFIER (Some "A"%string) 1 Nil Nil)
         sample_compiler) [] newCONTEXT
    = Ok (true, c', [UOP_ref TR_UOP_PUSH_VALUE (Some sample_item)],
          newCONTEXT)
    /\ Run [UOP_ref TR_UOP_PUSH_VALUE (Some sample_item)] newCONTEXT
       = Ok (None, newCONTEXT)
    /\ Run [UOP_ref TR_UOP_PUSH_VAR (Some sample_item)] newCONTEXT
       = Ok (Some (VNumeric 5), newCONTEXT).
Proof.
  edestruct (C6_identifier_emits_push_value SAMPLE_PARSER 0
               (set_tree (tree_node TR_IDENTIFIER (Some "A"%string) 1 Nil Nil)
                  sample_compiler) [] newCONTEXT)
    with (name := "A"%string) (pos := 0)
    as (c' & Hgen & _ & Hexec);
    [ exact header_node_labels | exact header_exec_labels | reflexivity
    | reflexivity | reflexivity | reflexivity | lia | ].
  exists c'. split; [exact Hgen|]. split; [|reflexivity].
  unfold Run. cbn [Run_ops].
  change (CreateVarRef "A" EmptyString) with (Some sample_item) in Hexec.
  rewrite Hexec. reflexivity.
Defined.

(** C4 at [A.isOk('x')], whose preflight raises no error: a CodeGen error
    is recorded. *)
Lemma C4_preflight_test_is_inverted_witness :
  exists s1,
    gen_steps 1
      (mkGEN (set_tree (sample_call_tree "isOk") sample_compiler) [[]] []
         newCONTEXT)
    = Ok s1
    /\ IsErrorPending (g_preflight s1) = false
    /\ pending (g_compiler s1) = true
    /\ stage (m_errorStatus (g_compiler s1)) = CST_CODEGEN.
Proof.
  edestruct (C4_preflight_test_is_inverted SAMPLE_PARSER
               (set_tree (sample_call_tree "isOk") sample_compiler) []
               newCONTEXT newCONTEXT)
    with (item := "A"%string) (fname := "isOk"%string) (v := sample_item)
         (f := sample_isOk)
    as (s1 & Hsteps & Hpf & _ & Hpend & Hstage);
    [ exact header_node_labels | reflexivity | reflexivity | reflexivity
    | reflexivity | reflexivity | reflexivity | reflexivity | reflexivity
    | reflexivity | reflexivity | ].
  exists s1. rewrite Hpf. split; [exact Hsteps|]. split; [reflexivity|].
  split; [rewrite Hpend; reflexivity | apply Hstage; reflexivity].
Defined.

(** C4 at the two failing inputs: a function whose preflight raises no
    error leaves a CodeGen error (with the empty message of the preflight
    context), and a function that reports an error leaves none. *)
Lemma C4_failing_inputs :
  (exists c' code pf',
      generateUCode 10 (set_tree (sample_call_tree "isOk") sample_compiler)
        [] newCONTEXT
      = Ok (true, c', code, pf')
      /\ IsErrorPending pf' = false
      /\ m_errorStatus c' = mkERROR_STATUS true CST_CODEGEN EmptyString 9)
  /\ (exists c' code pf',
        generateUCode 10
          (set_tree (sample_call_tree "rejects") sample_compiler) []
          newCONTEXT
        = Ok (true, c', code, pf')
        /\ GetError pf'
           = mkERROR_STATUS true CST_RUNTIME "bad argument" (-1)
        /\ m_errorStatus c' = noError).
Proof.
  split; eexists; eexists; eexists;
    (split; [vm_compute; reflexivity|]); split; vm_compute; reflexivity.
Qed.

(** C8 with the units [mil], [mm], [in] on the text [3mm], the cursor after
    the number. *)
Lemma C8_unit_matching_witness :
  resolveUnits_from ["mil"; "mm"; "in"]%string 0 (mkTOKENIZER "3mm" 1)
  = (1, mkTOKENIZER "3mm" 3)
  /\ MatchAhead "mil" not_alnum (mkTOKENIZER "3mm" 1) = false.
Proof.
  split; [reflexivity|].
  destruct (C8_unit_matching ["mil"; "mm"; "in"]%string (mkTOKENIZER "3mm" 1)
              (mkTOKENIZER "3mm" 3) 1 eq_refl)
    as ([(H & _)|(i & name & Hi & Hnth & _ & Hfirst & _)] & _).
  - discriminate H.
  - destruct i as [|i]; [discriminate Hi|].
    apply (Hfirst 0%nat "mil"%string); [lia | reflexivity].
Defined.

(** C8, refuted as stated: with the unit names [%] and [%%] configured in
    this order, on the text [5%%] the shorter name is taken although the
    longer one matches too. *)
Lemma C8_counterexample :
  resolveUnits_from ["%"; "%%"]%string 0 (mkTOKENIZER "5%%" 1)
  = (0, mkTOKENIZER "5%%" 2)
  /\ MatchAhead "%%" not_alnum (mkTOKENIZER "5%%" 1) = true
  /\ (String.length "%" < String.length "%%")%nat.
Proof.
  split; [vm_compute; reflexivity|]. split; [vm_compute; reflexivity|].
  cbn. lia.
Qed.

Lemma sample_Parse_keeps_pending : keeps_pending sample_Parse.
Proof.
  intros id tok c H. unfold sample_Parse.
  destruct (id =? 0); [exact H|].
  destruct (m_parser c);
    repeat match goal with
           | |- context [if ?b then _ else _] => destruct b
           end; try exact H; reflexivity.
Qed.

(** C9 for a compiler that carries an error from before: the valid text
    [A] is refused. *)
Lemma C9_error_flag_is_never_cleared_witness :
  exists c',
    Compile sample_Parse 1 "A"
      (reportError CST_PARSE "Syntax error" 0 sample_compiler) [] newCONTEXT
    = Ok (false, c', [], newCONTEXT)
    /\ pending c' = true.
Proof.
  destruct (C9_error_flag_is_never_cleared SAMPLE_PARSER sample_Parse 0 "A"
              (reportError CST_PARSE "Syntax error" 0 sample_compiler) []
              newCONTEXT eq_refl sample_Parse_keeps_pending)
    as (_ & _ & _ & _ & H & _).
  apply H. discriminate.
Defined.

(** C9, refuted as stated.  The flag set by the compile of [$] is still set
    when the next [Compile] starts, which then refuses the text [A] that a
    fresh compiler accepts; and one run of the code generator, on [B + C],
    sets the slot twice. *)
Lemma C9_counterexample :
  (exists c1 code1 pf1,
      Compile sample_Parse 10 "$" sample_compiler [] newCONTEXT
      = Ok (false, c1, code1, pf1)
      /\ pending c1 = true
      /\ pending (newString "A" c1) = true
      /\ (exists c2 code2 pf2,
            Compile sample_Parse 10 "A" c1 [] newCONTEXT
            = Ok (false, c2, code2, pf2))
      /\ (exists c3 code3 pf3,
            Compile sample_Parse 10 "A" sample_compiler [] newCONTEXT
            = Ok (true, c3, code3, pf3)
            /\ pending c3 = false))
  /\ (exists s1 s2,
        gen_steps 2 (gen_start sample_sum_tree) = Ok s1
        /\ m_errorStatus (g_compiler s1)
           = mkERROR_STATUS true CST_CODEGEN "Unrecognized item 'B'" 0
        /\ gen_steps 4 (gen_start sample_sum_tree) = Ok s2
        /\ m_errorStatus (g_compiler s2)
           = mkERROR_STATUS true CST_CODEGEN "Unrecognized item 'C'" 4).
Proof.
  split.
  - eexists. eexists. eexists. split; [vm_compute; reflexivity|].
    split; [reflexivity|]. split; [reflexivity|]. split.
    + eexists. eexists. eexists. vm_compute. reflexivity.
    + eexists. eexists. eexists. split; vm_compute; reflexivity.
  - eexists. eexists.
    split; [vm_compute; reflexivity|]. split; [vm_compute; reflexivity|].
    split; vm_compute; reflexivity.
Qed.

(** C10 at the program of [!1]. *)
Lemma C10_unary_not_is_a_no_op_witness :
  Run [UOP_value TR_UOP_PUSH_VALUE (VNumeric 1); UOP_ref TR_OP_BOOL_NOT None]
    newCONTEXT
  = Ok (Some (VNumeric 1), newCONTEXT).
Proof.
  assert (Ho : operator_code (m_op (UOP_ref TR_OP_BOOL_NOT None)))
    by (apply header_operator_code; reflexivity).
  assert (Hu : has_mask (m_op (UOP_ref TR_OP_BOOL_NOT None)) TR_OP_UNARY_MASK
               = true) by reflexivity.
  assert (Hb : has_mask (m_op (UOP_ref TR_OP_BOOL_NOT None)) TR_OP_BINARY_MASK
               = false) by reflexivity.
  destruct (C10_unary_not_is_a_no_op (UOP_ref TR_OP_BOOL_NOT None)
              [UOP_value TR_UOP_PUSH_VALUE (VNumeric 1)] newCONTEXT
              Hu Hb Ho) as (_ & _ & H).
  cbn [app] in H. rewrite H. reflexivity.
Defined.

(** C10, refuted as stated: the program compiled from [!1] ends with one
    value on the operand stack, the operand, and no more. *)
Lemma C10_counterexample :
  exists c' pf' ctx,
    generateUCode 10 (set_tree sample_not_tree sample_compiler) []
      newCONTEXT
    = Ok (true, c',
          [UOP_value TR_UOP_PUSH_VALUE (VNumeric 1);
           UOP_ref TR_OP_BOOL_NOT None], pf')
    /\ Run_ops
         [UOP_value TR_UOP_PUSH_VALUE (VNumeric 1);
          UOP_ref TR_OP_BOOL_NOT None] newCONTEXT
       = Ok ctx
    /\ m_stack ctx = [Some (VNumeric 1)]
    /\ SP ctx = 1.
Proof.
  eexists. eexists. eexists.
  split; [vm_compute; reflexivity|]. split; [vm_compute; reflexivity|].
  split; vm_compute; reflexivity.
Qed.

Lemma sample_host_contract : host_contract.
Proof.
  intros name f H. cbn in H.
  destruct (String.eqb name "isOk").
  - injection H as <-. intros ctx ref a rest Hst.
    eexists. eexists. split; [reflexivity|]. cbn. now rewrite Hst.
  - destruct (String.eqb name "rejects"); [|discriminate H].
    injection H as <-. intros ctx ref a rest Hst.
    eexists. eexists. split; [reflexivity|]. cbn. now rewrite Hst.
Qed.

Lemma header_operator_node (n : TREE_NODE) :
  (op n =? 1) || (op n =? 2) || (op n =? 25) || (op n =? 24) || (op n =? 4)
  || (op n =? 5) = false ->
  operator_node n.
Proof.
  intros H. split.
  - apply header_operator_code.
    destruct (op n =? 1), (op n =? 2), (op n =? 25); try discriminate H;
      reflexivity.
  - unfold node_case_labels. cbn.
    intros [E|[E|[E|[E|[E|[]]]]]]; rewrite <- E in H; discriminate H.
Qed.

Lemma sample_balance_tree_wf : wf_ast sample_balance_tree.
Proof.
  unfold sample_balance_tree, tree_node.
  apply wf_binary;
    [apply header_operator_node; reflexivity | reflexivity | |].
  - apply wf_binary;
      [apply header_operator_node; reflexivity | reflexivity | |].
    + eapply wf_property; reflexivity.
    + apply wf_number. reflexivity.
  - apply wf_unary;
      [apply header_operator_node; reflexivity | reflexivity | reflexivity |].
    apply wf_number. reflexivity.
Qed.

Lemma sample_host_run_contract : host_run_contract.
Proof.
  split.
  - intros name f H. cbn in H.
    destruct (String.eqb name "isOk").
    + injection H as <-. intros ctx ref a rest Hst.
      eexists. eexists. split; [reflexivity|]. cbn. now rewrite Hst.
    + destruct (String.eqb name "rejects"); [|discriminate H].
      injection H as <-. intros ctx ref a rest Hst.
      eexists. eexists. split; [reflexivity|]. cbn. now rewrite Hst.
  - intros item prop v H ctx. cbn in H.
    destruct (String.eqb item "A"); [|discriminate H].
    destruct (String.eqb prop EmptyString);
      [|destruct (String.eqb prop "Width")];
      injection H as <-; eexists; eexists; split; reflexivity.
Qed.

Ltac concrete_bound :=
  repeat (constructor;
          [split; intros E;
           first [vm_compute in E; discriminate E | vm_compute; discriminate]
          |]);
  constructor.



Lemma sample_front_end_more (k : nat) :
  front_end sample_Parse (5 + k) "B.x" sample_compiler
  = front_end sample_Parse 5 "B.x" sample_compiler.
Proof. vm_compute. reflexivity. Qed.

(** C3 at the text [B.x], where the host knows no item [B]: the error is
    recorded and the program is complete. *)
Lemma C3_codegen_errors_do_not_abort_witness :
  exists fuel c' pf',
    Compile sample_Parse fuel "B.x" sample_compiler [] newCONTEXT
    = Ok (true, c', [UOP_ref TR_UOP_PUSH_VAR None], pf')
    /\ pending c' = true.
Proof.
  destruct (front_end sample_Parse 5 "B.x" sample_compiler)
    as [[go c1]|] eqn:Ef; [|vm_compute in Ef; discriminate Ef].
  assert (Hgo : go = true) by (vm_compute in Ef; now injection Ef).
  subst go.
  assert (Hwf : wf_ast (m_tree c1)).
  { vm_compute in Ef. injection Ef as <-. eapply wf_property; reflexivity. }
  destruct (C3_codegen_errors_do_not_abort SAMPLE_PARSER header_node_labels
              header_exec_labels sample_Parse "B.x" sample_compiler c1 []
              newCONTEXT sample_host_contract Hwf) as (fuel0 & c' & pf' & H).
  exists (5 + fuel0)%nat, c', pf'.
  destruct (H (5 + fuel0)%nat ltac:(lia)) as [Hfront _].
  rewrite sample_front_end_more, Ef in Hfront.
  destruct (Hfront eq_refl) as (Hc & _ & Hp).
  vm_compute in Ef. injection Ef as <-.
  split; [exact Hc|]. apply Hp. intros Hb.
  inversion Hb as [|u us [Hu _] _]. now apply Hu.
Defined.

(** * The further properties at concrete inputs *)

Lemma sample_units_not_empty : units_not_empty.
Proof. intros name [<-|[<-|[<-|[]]]]; discriminate. Qed.

Lemma sample_no_unit_at (t : TOKENIZER) :
  MatchAhead "mil" not_alnum t = false ->
  MatchAhead "mm" not_alnum t = false ->
  MatchAhead "in" not_alnum t = false ->
  no_unit_at t.
Proof. intros H1 H2 H3 name [<-|[<-|[<-|[]]]]; assumption. Qed.

Lemma sample_no_operator_at (t : TOKENIZER) :
  MatchAhead "==" (fun ch => negb (Ascii.eqb ch "=")) t = false ->
  MatchAhead "!=" (fun ch => negb (Ascii.eqb ch "=")) t = false ->
  MatchAhead "<=" (fun ch => negb (Ascii.eqb ch "=")) t = false ->
  MatchAhead ">=" (fun ch => negb (Ascii.eqb ch "=")) t = false ->
  MatchAhead "&&" (fun ch => negb (Ascii.eqb ch "&")) t = false ->
  MatchAhead "||" (fun ch => negb (Ascii.eqb ch "|")) t = false ->
  no_operator_at t.
Proof.
  intros H1 H2 H3 H4 H5 H6 pattern last id [E|[E|[E|[E|[E|[E|[]]]]]]];
    injection E as <- <- <-; assumption.
Qed.

Lemma sample_unit_mm : In "mm"%string GetSupportedUnits.
Proof. cbn. auto. Qed.

Lemma less_equal_operator :
  In ("<="%string, "="%char, G_LESS_EQUAL_THAN) two_char_operators.
Proof. cbn. auto. Qed.

Lemma sample_Parse_keeps_lexer : keeps_lexer sample_Parse.
Proof.
  intros id tok c. unfold sample_Parse.
  destruct (id =? 0); [split; reflexivity|].
  destruct (m_parser c);
    repeat match goal with
           | |- context [if ?b then _ else _] => destruct b
           end; split; reflexivity.
Qed.

(** In [" A"] the space is skipped. *)
Lemma getToken_skips_space_witness :
  getToken (sample_lexer " A" 0) = getToken (sample_lexer " A" 1).
Proof.
  exact (getToken_skips_space SAMPLE_PARSER (sample_lexer " A" 0) eq_refl
           eq_refl).
Defined.

(** ["1,5+2"]: the number token is [1.5], with the comma replaced. *)
Lemma getToken_number_witness :
  exists text : string,
    getToken (sample_lexer "1,5+2" 0)
    = (token_of G_VALUE (Some text) 0,
       advance (String.length text) (sample_lexer "1,5+2" 0))
    /\ (1 <= String.length text)%nat
    /\ String.get 1 text = Some "."%char.
Proof.
  destruct (getToken_number SAMPLE_PARSER (sample_lexer "1,5+2" 0) eq_refl
              eq_refl) as (text & Htok & Hlen & Hget & _).
  exists text. split; [exact Htok|]. split; [exact Hlen|].
  assert (Htext : text = "1.5"%string)
    by (vm_compute in Htok; now injection Htok).
  subst text. reflexivity.
Defined.

(** ["mm"] alone is a unit token, not an identifier. *)
Lemma unit_name_shadows_identifier_witness :
  exists i first,
    nth_error GetSupportedUnits i = Some first
    /\ MatchAhead first not_alnum (mkTOKENIZER "mm" 0) = true
    /\ (forall j other, (j < i)%nat ->
        nth_error GetSupportedUnits j = Some other ->
        MatchAhead other not_alnum (mkTOKENIZER "mm" 0) = false)
    /\ getToken (sample_lexer "mm" 0)
       = (token_of G_UNIT None (Z.of_nat i),
          advance (String.length first) (sample_lexer "mm" 0)).
Proof.
  apply (unit_name_shadows_identifier SAMPLE_PARSER (sample_lexer "mm" 0)
           "mm" eq_refl sample_unit_mm eq_refl);
    [discriminate | discriminate | reflexivity].
Defined.

(** ["Width<3"]: the identifier is [Width]. *)
Lemma getToken_identifier_witness :
  exists name : string,
    getToken (sample_lexer "Width<3" 0)
    = (token_of G_IDENTIFIER (Some name) 0,
       advance (String.length name) (sample_lexer "Width<3" 0))
    /\ substring 0 (String.length name) "Width<3" = name.
Proof.
  destruct (getToken_identifier SAMPLE_PARSER (sample_lexer "Width<3" 0)
              eq_refl eq_refl
              (sample_no_unit_at (mkTOKENIZER "Width<3" 0) eq_refl eq_refl
                 eq_refl))
    as (name & Htok & _ & Hsub & _).
  exists name. split; [exact Htok | exact Hsub].
Defined.

(** ["'ab"]: a string literal without its closing quote is accepted, and
    the cursor ends past the end of the text. *)
Lemma getToken_string_literal_witness :
  exists body : string,
    getToken (sample_lexer "'ab" 0)
    = (token_of G_STRING (Some body) 0,
       advance (String.length body + 2) (sample_lexer "'ab" 0))
    /\ substring 1 (String.length body) "'ab" = body.
Proof.
  destruct (getToken_string_literal SAMPLE_PARSER (sample_lexer "'ab" 0)
              eq_refl eq_refl
              (sample_no_unit_at (mkTOKENIZER "'ab" 0) eq_refl eq_refl eq_refl))
    as (body & Htok & Hsub & _).
  exists body. split; [exact Htok | exact Hsub].
Defined.

(** ["===1"]: the first [=] is not a token, as a third [=] follows. *)
Lemma getToken_unrecognized_character_witness :
  exists c',
    getToken (sample_lexer "===1" 0) = (token_of G_ENDS None 0, c')
    /\ m_errorStatus c'
       = mkERROR_STATUS true CST_PARSE "Unrecognized character '='" 0
    /\ m_tokenizer c' = mkTOKENIZER "===1" 1.
Proof.
  apply (getToken_unrecognized_character SAMPLE_PARSER
           (sample_lexer "===1" 0) eq_refl
           (sample_no_unit_at (mkTOKENIZER "===1" 0) eq_refl eq_refl eq_refl)
           (sample_no_operator_at (mkTOKENIZER "===1" 0) eq_refl eq_refl
              eq_refl eq_refl eq_refl eq_refl));
    [discriminate | discriminate | reflexivity | reflexivity].
Defined.

(** ["A+1"]: the first token moves the cursor from 0 to 1. *)
Lemma getToken_moves_forward_witness :
  let c := sample_lexer "A+1" 0 in
  let c' := snd (getToken c) in
  m_str (m_tokenizer c') = m_str (m_tokenizer c)
  /\ m_lexerState c' = LS_DEFAULT
  /\ (m_pos (m_tokenizer c) <= m_pos (m_tokenizer c'))%nat
  /\ (token (fst (getToken c)) = G_ENDS
      \/ (m_pos (m_tokenizer c) < m_pos (m_tokenizer c'))%nat).
Proof.
  exact (getToken_moves_forward SAMPLE_PARSER (sample_lexer "A+1" 0)
           (fst (getToken (sample_lexer "A+1" 0)))
           (snd (getToken (sample_lexer "A+1" 0)))
           sample_units_not_empty eq_refl).
Defined.

(** ["A.B"] is read within four turns of the token loop. *)
Lemma token_loop_terminates_witness :
  exists parsed c',
    front_end sample_Parse 4 "A.B" sample_compiler = Ok (parsed, c').
Proof.
  apply (token_loop_terminates SAMPLE_PARSER sample_Parse 4 "A.B"
           sample_compiler sample_units_not_empty sample_Parse_keeps_lexer).
  simpl. lia.
Defined.

(** ["#A"] is rejected. *)
Lemma Compile_rejects_unrecognized_character_witness :
  exists c',
    Compile sample_Parse 1 "#A" sample_compiler [] newCONTEXT
    = Ok (false, c', [], newCONTEXT)
    /\ pending c' = true.
Proof.
  apply (Compile_rejects_unrecognized_character SAMPLE_PARSER sample_Parse 0
           "#A" sample_compiler [] newCONTEXT sample_Parse_keeps_pending
           (sample_no_unit_at (mkTOKENIZER "#A" 0) eq_refl eq_refl eq_refl)
           (sample_no_operator_at (mkTOKENIZER "#A" 0) eq_refl eq_refl
              eq_refl eq_refl eq_refl eq_refl));
    [discriminate | discriminate | reflexivity | reflexivity].
Defined.

(** ["<=3"] starts with the one token [<=]. *)
Lemma getToken_double_operator_witness :
  getToken (sample_lexer "<=3" 0)
  = (token_of G_LESS_EQUAL_THAN None 0, sample_lexer "<=3" 2).
Proof.
  exact (getToken_double_operator SAMPLE_PARSER (sample_lexer "<=3" 0)
           "<=" "=" G_LESS_EQUAL_THAN eq_refl
           (sample_no_unit_at (mkTOKENIZER "<=3" 0) eq_refl eq_refl eq_refl)
           less_equal_operator eq_refl).
Defined.

(** ["<==3"] starts with the token [<]: [<=] is not taken where [=]
    follows it. *)
Lemma getToken_single_operator_witness :
  getToken (sample_lexer "<==3" 0)
  = (token_of G_LESS_THAN None 0, sample_lexer "<==3" 1).
Proof.
  exact (getToken_single_operator SAMPLE_PARSER (sample_lexer "<==3" 0)
           G_LESS_THAN eq_refl
           (sample_no_unit_at (mkTOKENIZER "<==3" 0) eq_refl eq_refl eq_refl)
           (sample_no_operator_at (mkTOKENIZER "<==3" 0) eq_refl eq_refl
              eq_refl eq_refl eq_refl eq_refl)
           eq_refl).
Defined.

(** Compiling ["A"] after another text was lexed half way gives what
    compiling it on the fresh compiler gives. *)
Lemma Compile_starts_afresh_witness :
  Compile sample_Parse 5 "A" (sample_lexer "B + 'x" 4) [] newCONTEXT
  = Compile sample_Parse 5 "A" sample_compiler [] newCONTEXT.
Proof.
  apply (Compile_starts_afresh SAMPLE_PARSER sample_Parse 5 "A"
           (sample_lexer "B + 'x" 4) sample_compiler [] newCONTEXT);
    [discriminate | reflexivity | reflexivity | reflexivity].
Defined.

(** The program of [A.Width < 3 && !1]. *)
Lemma generateUCode_emits_postorder_witness :
  exists fuel0 c' pf', forall fuel, (fuel0 <= fuel)%nat ->
    generateUCode fuel (set_tree sample_balance_tree sample_compiler) []
      newCONTEXT
    = Ok (true, c',
          [UOP_ref TR_UOP_PUSH_VAR (Some sample_item);
           UOP_value TR_UOP_PUSH_VALUE (VNumeric (sample_atof "3"));
           UOP_ref TR_OP_LESS None;
           UOP_value TR_UOP_PUSH_VALUE (VNumeric (sample_atof "1"));
           UOP_ref TR_OP_BOOL_NOT None;
           UOP_ref TR_OP_BOOL_AND None], pf').
Proof.
  exact (generateUCode_emits_postorder SAMPLE_PARSER header_node_labels
           header_exec_labels (set_tree sample_balance_tree sample_compiler)
           [] newCONTEXT sample_host_contract sample_balance_tree_wf).
Defined.

(** [B + C]: the program is the programs of [B] and of [C], then [ADD]. *)
Lemma generateUCode_binary_operation_witness :
  exists fuel0, forall fuel, (fuel0 <= fuel)%nat ->
    exists code_l code_r cl cr c' pfl pfr pf',
      generateUCode fuel
        (set_tree (tree_node TR_IDENTIFIER (Some "B"%string) 1 Nil Nil)
           (set_tree sample_sum_tree sample_compiler)) [] newCONTEXT
      = Ok (true, cl, code_l, pfl)
      /\ generateUCode fuel
           (set_tree (tree_node TR_IDENTIFIER (Some "C"%string) 5 Nil Nil)
              (set_tree sample_sum_tree sample_compiler)) [] newCONTEXT
         = Ok (true, cr, code_r, pfr)
      /\ generateUCode fuel (set_tree sample_sum_tree sample_compiler) []
           newCONTEXT
         = Ok (true, c', code_l ++ code_r ++ [UOP_ref TR_OP_ADD None], pf').
Proof.
  apply (generateUCode_binary_operation SAMPLE_PARSER header_node_labels
           header_exec_labels (set_tree sample_sum_tree sample_compiler)
           _ _ _ newCONTEXT sample_host_contract eq_refl).
  - apply header_operator_node. reflexivity.
  - reflexivity.
  - eapply wf_identifier; reflexivity.
  - eapply wf_identifier; reflexivity.
Defined.

(** [5 - 3]: the left operand is pushed first. *)
Lemma Run_binary_operation_witness :
  Run [UOP_value TR_UOP_PUSH_VALUE (VNumeric 5);
       UOP_value TR_UOP_PUSH_VALUE (VNumeric 3); UOP_ref TR_OP_SUB None]
    newCONTEXT
  = Ok (Some (VNumeric 2), newCONTEXT).
Proof.
  assert (Hmask : has_mask TR_OP_SUB TR_OP_BINARY_MASK = true)
    by reflexivity.
  assert (Hop : operator_code TR_OP_SUB)
    by (apply header_operator_code; reflexivity).
  assert (Hp : Run_ops [UOP_value TR_UOP_PUSH_VALUE (VNumeric 5)] newCONTEXT
               = Ok (mkCONTEXT [Some (VNumeric 5)] noError))
    by reflexivity.
  assert (Hq : Run_ops [UOP_value TR_UOP_PUSH_VALUE (VNumeric 3)]
                 (mkCONTEXT [Some (VNumeric 5)] noError)
               = Ok (mkCONTEXT [Some (VNumeric 3); Some (VNumeric 5)] noError))
    by reflexivity.
  apply (Run_binary_operation _ _ TR_OP_SUB newCONTEXT _ _
           (Some (VNumeric 5)) (Some (VNumeric 3)) [] Hmask Hop Hp eq_refl Hq
           eq_refl).
  reflexivity.
Defined.

(** [B.x], where the host knows no item [B]. *)
Lemma unresolved_property_cannot_run_witness :
  exists fuel0 c' code pf',
    (forall fuel, (fuel0 <= fuel)%nat ->
       generateUCode fuel (set_tree sample_unknown_item_tree sample_compiler)
         [] newCONTEXT
       = Ok (true, c', code, pf'))
    /\ pending c' = true
    /\ code = [UOP_ref TR_UOP_PUSH_VAR None]
    /\ Run code newCONTEXT = Fault NullDeref.
Proof.
  eapply (unresolved_property_cannot_run SAMPLE_PARSER header_node_labels
            header_exec_labels
            (set_tree sample_unknown_item_tree sample_compiler) newCONTEXT
            newCONTEXT); reflexivity.
Defined.

(** [A.Width] evaluates to 5. *)
Lemma resolved_property_runs_witness :
  exists fuel0 c' code pf',
    (forall fuel, (fuel0 <= fuel)%nat ->
       generateUCode fuel (set_tree sample_property_tree sample_compiler)
         [] newCONTEXT
       = Ok (true, c', code, pf'))
    /\ Run code newCONTEXT = Ok (Some (VNumeric 5), newCONTEXT).
Proof.
  edestruct (resolved_property_runs SAMPLE_PARSER header_node_labels
               header_exec_labels
               (set_tree sample_property_tree sample_compiler) newCONTEXT
               newCONTEXT) with (v := sample_item)
    as (fuel0 & c' & code & pf' & Hgen & _ & Hrun & _);
    [ reflexivity | reflexivity | reflexivity | reflexivity | reflexivity
    | reflexivity | reflexivity | reflexivity | reflexivity | ].
  exists fuel0, c', code, pf'. split; [exact Hgen|].
  apply (Hrun (VNumeric 5) newCONTEXT); reflexivity.
Defined.

(** [A.nope('x')], where the host knows no function [nope]. *)
Lemma unresolved_function_cannot_run_witness :
  exists fuel0 c' code pf',
    (forall fuel, (fuel0 <= fuel)%nat ->
       generateUCode fuel
         (set_tree (sample_call_tree "nope") sample_compiler) [] newCONTEXT
       = Ok (true, c', code, pf'))
    /\ pending c' = true
    /\ (exists before,
          code = before
                 ++ [UOP_func TR_OP_METHOD_CALL None
                       (CreateVarRef "A" EmptyString)])
    /\ exists f, Run code newCONTEXT = Fault f.
Proof.
  eapply (unresolved_function_cannot_run SAMPLE_PARSER header_node_labels
            header_exec_labels
            (set_tree (sample_call_tree "nope") sample_compiler) newCONTEXT
            newCONTEXT) with (item := "A"%string);
    [exact sample_host_contract | reflexivity | reflexivity | reflexivity
    | reflexivity | reflexivity | reflexivity
    | eapply wf_string; reflexivity | reflexivity].
Defined.

(** [3mm]: the value is the unit resolver's conversion. *)
Lemma number_literal_runs_witness :
  exists fuel0 c' code pf',
    (forall fuel, (fuel0 <= fuel)%nat ->
       generateUCode fuel (set_tree sample_length_tree sample_compiler) []
         newCONTEXT
       = Ok (true, c', code, pf'))
    /\ code = [UOP_value TR_UOP_PUSH_VALUE (VNumeric (Convert "3" 1))]
    /\ Run code newCONTEXT = Ok (Some (VNumeric (Convert "3" 1)), newCONTEXT).
Proof.
  assert (Ht : m_tree (set_tree sample_length_tree sample_compiler)
               = sample_length_tree) by reflexivity.
  unfold sample_length_tree, tree_node in Ht.
  assert (Hl : Node (mkTREE_NODE (mkT_TOKEN_VALUE None 0 1) TR_UNIT None
                       true false false 3) Nil Nil = Nil
               \/ (exists unit sl sr,
                      Node (mkTREE_NODE (mkT_TOKEN_VALUE None 0 1) TR_UNIT
                              None true false false 3) Nil Nil
                      = Node unit sl sr
                      /\ op unit = TR_UNIT)).
  { right. eexists. eexists. eexists. split; reflexivity. }
  destruct (number_literal_runs SAMPLE_PARSER header_node_labels
              header_exec_labels _ newCONTEXT newCONTEXT _ _ _ Ht eq_refl
              Hl eq_refl) as (k & c' & code & pf' & Hgen & Hcode & Hrun).
  exists k, c', code, pf'.
  split; [exact Hgen|]. split; [exact Hcode | exact Hrun].
Defined.

(** The tree of [A.Width < 3 && !1] after code generation. *)
Lemma generateUCode_keeps_the_tree_witness :
  exists c' code pf',
    generateUCode 11 (set_tree sample_balance_tree sample_compiler) []
      newCONTEXT
    = Ok (true, c', code, pf')
    /\ skeleton (m_tree c') = skeleton sample_balance_tree
    /\ c' = set_tree (m_tree c') sample_compiler.
Proof.
  destruct (generateUCode 11 (set_tree sample_balance_tree sample_compiler)
              [] newCONTEXT) as [[[[b c'] code] pf']|f] eqn:E;
    [|vm_compute in E; discriminate E].
  destruct (generateUCode_keeps_the_tree SAMPLE_PARSER 11
              (set_tree sample_balance_tree sample_compiler) c' [] code
              newCONTEXT pf' b E) as [Hsk Hc].
  assert (Hb : b = true) by (vm_compute in E; now injection E).
  assert (He : m_errorStatus c' = noError)
    by (vm_compute in E; injection E as _ <- _ _; reflexivity).
  subst b. exists c', code, pf'. split; [reflexivity|].
  split; [exact Hsk|]. rewrite Hc at 1. rewrite He.
  destruct c'. reflexivity.
Defined.

(** The program of [A.Width < 3 && !1], generated twice. *)
Lemma generateUCode_again_witness :
  exists fuel0, forall fuel, (fuel0 <= fuel)%nat ->
    exists c1 code pf1 c2 pf2,
      generateUCode fuel (set_tree sample_balance_tree sample_compiler) []
        newCONTEXT
      = Ok (true, c1, code, pf1)
      /\ generateUCode fuel c1 [] pf1 = Ok (true, c2, code, pf2).
Proof.
  exact (generateUCode_again SAMPLE_PARSER header_node_labels
           header_exec_labels (set_tree sample_balance_tree sample_compiler)
           newCONTEXT sample_host_contract sample_balance_tree_wf).
Defined.

(** An argument text of five characters that ends at offset 3. *)
Lemma preflight_loc_is_signed_witness : preflight_loc 3 5 = -3.
Proof. apply (preflight_loc_is_signed 3 5). lia. Defined.

(** ["A  "], with the cursor after [A]: the two spaces end the text. *)
Lemma getToken_end_of_input_witness :
  getToken (sample_lexer "A  " 1)
  = (token_of G_ENDS None 0, sample_lexer "A  " 3).
Proof.
  apply (getToken_end_of_input SAMPLE_PARSER (sample_lexer "A  " 1) eq_refl).
  cbn [m_tokenizer m_pos m_str sample_lexer set_tokenizer]. intros i Hi.
  assert (Hcases : i = 1%nat \/ i = 2%nat) by (simpl in Hi; lia).
  destruct Hcases as [->| ->]; reflexivity.
Defined.

(** [A == A], of the item [A] that the sample host knows: the comparison
    is false. *)
Lemma bare_identifiers_never_compare_equal_witness :
  exists fuel0 c' code pf',
    (forall fuel, (fuel0 <= fuel)%nat ->
       generateUCode fuel (set_tree sample_equal_tree sample_compiler) []
         newCONTEXT
       = Ok (true, c', code, pf'))
    /\ Run code newCONTEXT = Ok (Some (VNumeric 0), newCONTEXT).
Proof.
  assert (Hmask : has_mask TR_OP_EQUAL TR_OP_BINARY_MASK = true)
    by reflexivity.
  assert (Hnode : operator_node
                    (mkTREE_NODE (mkT_TOKEN_VALUE None 0 0) TR_OP_EQUAL None
                       true false false 6))
    by (apply header_operator_node; reflexivity).
  destruct (bare_identifiers_never_compare_equal SAMPLE_PARSER
              header_node_labels header_exec_labels
              (set_tree sample_equal_tree sample_compiler) newCONTEXT
              newCONTEXT _ _ _ "A" "A" header_binary_labels eq_refl Hnode
              Hmask eq_refl eq_refl eq_refl eq_refl eq_refl)
    as (fuel0 & c' & code & pf' & Hgen & Hequal & _).
  exists fuel0, c', code, pf'. split; [exact Hgen|].
  apply Hequal. reflexivity.
Defined.

(** [1 / 0]: the quotient is infinite and no error is reported. *)
Lemma Run_ops_reports_no_error_witness :
  exists ctx',
    Run_ops [UOP_value TR_UOP_PUSH_VALUE (VNumeric 1);
             UOP_value TR_UOP_PUSH_VALUE (VNumeric 0); UOP_ref TR_OP_DIV None]
      newCONTEXT
    = Ok ctx'
    /\ m_stack ctx' = [Some (VNumeric PrimFloat.infinity)]
    /\ ctx_errorStatus ctx' = ctx_errorStatus newCONTEXT.
Proof.
  assert (Hrun : Run_ops [UOP_value TR_UOP_PUSH_VALUE (VNumeric 1);
                          UOP_value TR_UOP_PUSH_VALUE (VNumeric 0);
                          UOP_ref TR_OP_DIV None] newCONTEXT
                 = Ok (mkCONTEXT [Some (VNumeric PrimFloat.infinity)] noError))
    by reflexivity.
  assert (Hpure : Forall
                    (fun u => m_op u <> TR_UOP_PUSH_VAR
                              /\ m_op u <> TR_OP_METHOD_CALL)
                    [UOP_value TR_UOP_PUSH_VALUE (VNumeric 1);
                     UOP_value TR_UOP_PUSH_VALUE (VNumeric 0);
                     UOP_ref TR_OP_DIV None]).
  { repeat (constructor; [split; intros H; vm_compute in H; discriminate H|]).
    constructor. }
  eexists. split; [exact Hrun|]. split; [reflexivity|].
  exact (Run_ops_reports_no_error _ _ _ Hpure Hrun).
Defined.

(** [A.isOk('x')]: the preflight of [isOk] pushes the argument and pops the
    result. *)
Lemma generateUCode_balances_preflight_witness :
  exists b c' code pf',
    generateUCode 10 (set_tree (sample_call_tree "isOk") sample_compiler) []
      newCONTEXT
    = Ok (b, c', code, pf')
    /\ m_stack pf' = [].
Proof.
  destruct (generateUCode 10
              (set_tree (sample_call_tree "isOk") sample_compiler) []
              newCONTEXT) as [[[[b c'] code] pf']|f] eqn:E.
  - exists b, c', code, pf'. split; [reflexivity|].
    exact (generateUCode_balances_preflight SAMPLE_PARSER 10 _ c' [] code
             newCONTEXT pf' b sample_host_contract E).
  - vm_compute in E. discriminate E.
Defined.
